(** * reddit-to-llm: the thread pipeline of [src/App.tsx]

    A shallow embedding of the pure core of [App.tsx]: the identifier
    normalizer [normalizeToPostId], the reply-tree walk [walkComments], the
    two per-comment formatters, and the body of [fetchThread] that sorts,
    aggregates and renders.

    Conventions.
    - A JavaScript string is its sequence of UTF-16 code units, [list N].
    - Scores and counts are integers ([Z], [nat]), taken in the range where
      a double is exact and prints as plain decimal digits; the two
      quotients of the statistics are kept as exact rationals ([Q]), the
      value the double division rounds, and their printing is a parameter.
    - Platform functions ([String.prototype.trim], [split], [indexOf],
      [replace] with the two regular expressions the file uses,
      [Array.prototype.sort], [JSON.stringify], [JSON.parse]) are modelled
      from ECMAScript; [new URL] is a parameter of the normalizer.
    - The texts of a payload (title, subreddit, author, self-text, comment
      body) are strings or missing.  A payload in which a text that the
      renderers trim is a truthy value of another type makes [fetchThread]
      throw while rendering; it is the [Unrenderable] answer of the
      network. *)

From Stdlib Require Import String Ascii.
From Stdlib Require Import List ZArith NArith QArith Lia Bool.
From Stdlib Require Import Permutation Sorted DecimalNat DecimalZ.
Import ListNotations.
Close Scope Q_scope.

Set Implicit Arguments.

(** ** JavaScript strings *)

Definition jsstring := list N.

Definition lit (s : string) : jsstring :=
  map N_of_ascii (list_ascii_of_string s).

Arguments lit : simpl never.

Definition jsstring_eqb (a b : jsstring) : bool :=
  if list_eq_dec N.eq_dec a b then true else false.

(** Code units the file names. *)
Definition LF : N := 10.
Definition SPACE : N := 32.
Definition SLASH : N := 47.

(** ECMAScript WhiteSpace and LineTerminator code points: what [trim] strips
    and what [\s] matches. *)
Definition isWhiteSpace (c : N) : bool :=
  ((9 <=? c) && (c <=? 13) || (c =? 32) || (c =? 160) || (c =? 5760)
   || ((8192 <=? c) && (c <=? 8202)) || (c =? 8232) || (c =? 8233)
   || (c =? 8239) || (c =? 8287) || (c =? 12288) || (c =? 65279))%N.

Fixpoint trimStart (s : jsstring) : jsstring :=
  match s with
  | [] => []
  | c :: r => if isWhiteSpace c then trimStart r else s
  end.

Definition trimEnd (s : jsstring) : jsstring := rev (trimStart (rev s)).

(** [s.trim()] *)
Definition trim (s : jsstring) : jsstring := trimEnd (trimStart s).

(** [s.includes(c)] for a one-unit needle. *)
Definition includes (c : N) (s : jsstring) : bool := existsb (N.eqb c) s.

(** [s.split(sep)] for a one-unit separator: never the empty array. *)
Fixpoint split (sep : N) (s : jsstring) : list jsstring :=
  match s with
  | [] => [[]]
  | c :: r =>
      if (c =? sep)%N then [] :: split sep r
      else match split sep r with
           | [] => [[c]]
           | seg :: segs => (c :: seg) :: segs
           end
  end.

(** [Boolean(s)] on a string: the empty string is the only falsy one. *)
Definition Boolean (s : jsstring) : bool :=
  match s with [] => false | _ :: _ => true end.

(** [parts.indexOf(x)]: the first index holding [x], or -1. *)
Fixpoint indexOf (x : jsstring) (parts : list jsstring) : Z :=
  match parts with
  | [] => -1
  | p :: r =>
      if jsstring_eqb p x then 0
      else let i := indexOf x r in if (i <? 0)%Z then -1 else (i + 1)%Z
  end.

(** [parts[i]]: [undefined] ([None]) outside the array. *)
Definition at_index (parts : list jsstring) (i : Z) : option jsstring :=
  if (i <? 0)%Z then None else nth_error parts (Z.to_nat i).

(** ** Identifier normalizer *)

Section Normalizer.

(** [new URL(s).pathname], [None] when the constructor throws. *)
Variable URL_pathname : jsstring -> option jsstring.

(** The [try] block of [normalizeToPostId], after a successful parse. *)
Definition idFromPathname (pathname : jsstring) : option jsstring :=
  let parts := filter Boolean (split SLASH pathname) in
  let idx := indexOf (lit "comments") parts in
  if (idx =? -1)%Z then None
  else match at_index parts (idx + 1) with
       | None => None
       | Some p => if Boolean p then Some p else None
       end.

(** [normalizeToPostId]: [None] is the [null] result. *)
Definition normalizeToPostId (input : jsstring) : option jsstring :=
  let trimmed := trim input in
  if negb (includes SLASH trimmed) && negb (includes SPACE trimmed)
  then Some trimmed
  else match URL_pathname trimmed with
       | Some pathname => idFromPathname pathname
       | None => None
       end.

End Normalizer.

(** A fragment of the URL Standard's parser, enough to evaluate the
    normalizer on plain inputs.  The input is [scheme ":" rest] with a scheme
    of lower-case letters.  For [http] and [https], [rest] must be ["//"], a
    host of lower-case letters and dots that starts with a letter, then
    nothing or a path that starts with [/].  The other special schemes are
    left out.  For any other scheme [rest] is an opaque path without [/].
    Paths are accepted only when made of letters, digits, [/], [_] and [-],
    where the Standard neither percent-encodes nor rewrites.  Outside the
    fragment the model answers [None]; only concrete evaluations use it,
    every general statement quantifies over the parser. *)
Module URLFragment.

Definition isAlpha (c : N) : bool :=
  ((65 <=? c) && (c <=? 90) || (97 <=? c) && (c <=? 122))%N.
Definition isDigit (c : N) : bool := ((48 <=? c) && (c <=? 57))%N.
Definition isLower (c : N) : bool := ((97 <=? c) && (c <=? 122))%N.
Definition isHostChar (c : N) : bool := isLower c || (c =? 46)%N.
Definition isPathChar (c : N) : bool :=
  isAlpha c || isDigit c || (c =? 47)%N || (c =? 95)%N || (c =? 45)%N.

Definition special : list jsstring :=
  [lit "http"; lit "https"; lit "ftp"; lit "file"; lit "ws"; lit "wss"].

(** Splits at the first [:]; the scheme is what precedes it. *)
Fixpoint cutScheme (s : jsstring) : option (jsstring * jsstring) :=
  match s with
  | [] => None
  | c :: r =>
      if (c =? 58)%N then Some ([], r)
      else if isLower c then
             match cutScheme r with
             | Some (sch, rest) => Some (c :: sch, rest)
             | None => None
             end
           else None
  end.

Fixpoint cutHost (s : jsstring) : jsstring * jsstring :=
  match s with
  | [] => ([], [])
  | c :: r =>
      if isHostChar c then let (h, p) := cutHost r in (c :: h, p)
      else ([], s)
  end.

Definition startsWith (c : N) (s : jsstring) : bool :=
  match s with x :: _ => (x =? c)%N | [] => false end.

Definition pathname (s : jsstring) : option jsstring :=
  match cutScheme s with
  | Some (sch, rest) =>
      if negb (Boolean sch) then None
      else if jsstring_eqb sch (lit "http") || jsstring_eqb sch (lit "https")
      then
        match rest with
        | 47%N :: 47%N :: r =>
            let (host, path) := cutHost r in
            if existsb isLower (firstn 1 host) && forallb isPathChar path
               && (negb (Boolean path) || startsWith SLASH path)
            then Some (if Boolean path then path else [SLASH])
            else None
        | _ => None
        end
      else if existsb (jsstring_eqb sch) special then None
      else if forallb isPathChar rest && negb (includes SLASH rest)
           then Some rest else None
  | None => None
  end.

End URLFragment.

(** The path segments the normalizer looks at. *)
Definition segments (pathname : jsstring) : list jsstring :=
  filter Boolean (split SLASH pathname).

(** The identifier in the spec's words: the segment right after the first
    segment equal to ["comments"]. *)
Fixpoint afterComments (parts : list jsstring) : option jsstring :=
  match parts with
  | [] => None
  | p :: r =>
      if jsstring_eqb p (lit "comments") then
        match r with
        | [] => None
        | x :: _ => Some x
        end
      else afterComments r
  end.

(** ** Reply tree and flattened comments *)

(** [c.score]: a number, [null], or absent. *)
Inductive Score : Type :=
| ScoreNum (z : Z)
| ScoreNull
| ScoreUndefined.

(** The [data] fields of a reply node that the walk reads. *)
Record Fields : Type := mkFields {
  f_id : jsstring;
  f_author : option jsstring;
  f_score : Score;
  f_body : option jsstring;
  f_parent_id : jsstring
}.

(** An element of a [children] array: a falsy slot, or a thing with its
    [kind], its [data] and [data.replies?.data?.children] ([None] when any
    link of that chain is missing, as for the empty-string [replies] of a
    leaf). *)
#[warnings="-register-all"]
Inductive Item : Type :=
| Falsy
| Thing (kind : jsstring) (data : Fields) (children : option (list Item)).

Record CommentItem : Type := mkComment {
  id : jsstring;
  author : jsstring;
  score : Score;
  body : jsstring;
  parent_id : jsstring;
  depth : nat
}.

(** [x || fallback] on an optional string: absent and empty are falsy. *)
Definition orElse (x : option jsstring) (fallback : jsstring) : jsstring :=
  match x with
  | Some (c :: s) => c :: s
  | _ => fallback
  end.

(** The object pushed by [walkComments]. *)
Definition recordOf (c : Fields) (depth : nat) : CommentItem :=
  {| id := f_id c;
     author := orElse (f_author c) (lit "[deleted]");
     score := f_score c;
     body := orElse (f_body c) [];
     parent_id := f_parent_id c;
     depth := depth |}.

(** One iteration of the [for] loop of [walkComments]; [out] is the array
    being pushed to, returned with its new contents. *)
Fixpoint walkItem (item : Item) (depth : nat) (out : list CommentItem)
  {struct item} : list CommentItem :=
  match item with
  | Falsy => out
  | Thing kind c children =>
      if negb (jsstring_eqb kind (lit "t1")) then out
      else
        let out1 := out ++ [recordOf c depth] in
        match children with
        | Some items =>
            (fix loop (l : list Item) (o : list CommentItem) :=
               match l with
               | [] => o
               | i :: r => loop r (walkItem i (S depth) o)
               end) items out1
        | None => out1
        end
  end.

(** [walkComments(items, depth, out)] *)
Definition walkComments (items : list Item) (depth : nat)
  (out : list CommentItem) : list CommentItem :=
  fold_left (fun o i => walkItem i depth o) items out.

(** The traversal in the spec's words: pre-order, a comment before its
    replies, replies in source order, anything else skipped with its
    subtree. *)
Fixpoint flattenItem (depth : nat) (item : Item) : list CommentItem :=
  match item with
  | Falsy => []
  | Thing kind c children =>
      if jsstring_eqb kind (lit "t1") then
        recordOf c depth ::
        match children with
        | Some items => flat_map (flattenItem (S depth)) items
        | None => []
        end
      else []
  end.

Definition flatten (depth : nat) (items : list Item) : list CommentItem :=
  flat_map (flattenItem depth) items.

(** Comment nodes of a forest: the nodes of kind [t1] reached through
    comment nodes only. *)
Fixpoint countComments (item : Item) : nat :=
  match item with
  | Falsy => 0
  | Thing kind _ children =>
      if jsstring_eqb kind (lit "t1") then
        S (match children with
           | Some items => list_sum (map countComments items)
           | None => 0
           end)
      else 0
  end.

(** Every comment node with the comment nodes strictly above it, nearest
    first, in pre-order. *)
Fixpoint withAncestors (above : list Fields) (item : Item)
  : list (list Fields * Fields) :=
  match item with
  | Falsy => []
  | Thing kind c children =>
      if jsstring_eqb kind (lit "t1") then
        (above, c) ::
        match children with
        | Some items => flat_map (withAncestors (c :: above)) items
        | None => []
        end
      else []
  end.

(** ** Formatting *)

(** Decimal digits as code units. *)
Fixpoint uintUnits (d : Decimal.uint) : jsstring :=
  match d with
  | Decimal.Nil => []
  | Decimal.D0 d => 48%N :: uintUnits d
  | Decimal.D1 d => 49%N :: uintUnits d
  | Decimal.D2 d => 50%N :: uintUnits d
  | Decimal.D3 d => 51%N :: uintUnits d
  | Decimal.D4 d => 52%N :: uintUnits d
  | Decimal.D5 d => 53%N :: uintUnits d
  | Decimal.D6 d => 54%N :: uintUnits d
  | Decimal.D7 d => 55%N :: uintUnits d
  | Decimal.D8 d => 56%N :: uintUnits d
  | Decimal.D9 d => 57%N :: uintUnits d
  end.

(** [String(n)] for a non-negative integer and for an integer. *)
Definition natToString (n : nat) : jsstring := uintUnits (Nat.to_uint n).

Definition intToString (z : Z) : jsstring :=
  match Z.to_int z with
  | Decimal.Pos d => uintUnits d
  | Decimal.Neg d => 45%N :: uintUnits d
  end.

(** [s.replace(/C{min,}/g, repl)] for a character class [C]: every maximal
    run of at least [min] units of the class becomes [repl]; [pending] is
    the run being read. *)
Section ReplaceRuns.

Variable class : N -> bool.
Variable min : nat.
Variable repl : jsstring.

Definition flush (pending : jsstring) : jsstring :=
  if (min <=? length pending)%nat then repl else pending.

Fixpoint replaceRunsFrom (pending s : jsstring) : jsstring :=
  match s with
  | [] => flush pending
  | c :: r =>
      if class c then replaceRunsFrom (pending ++ [c]) r
      else flush pending ++ c :: replaceRunsFrom [] r
  end.

Definition replaceRuns (s : jsstring) : jsstring := replaceRunsFrom [] s.

End ReplaceRuns.

(** [s.replace(/\s+/g, " ")] *)
Definition collapseWhitespace : jsstring -> jsstring :=
  replaceRuns isWhiteSpace 1 [SPACE].

(** [s.replace(/\n{2,}/g, "\n")] *)
Definition collapseNewlines : jsstring -> jsstring :=
  replaceRuns (N.eqb LF) 2 [LF].

Definition MIDDLE_DOT : N := 183.

(** [formatCommentLLM] *)
Definition formatCommentLLM (c : CommentItem) : jsstring :=
  let depthLabel := lit "d" ++ natToString (depth c) in
  let body := trim (body c) in
  if negb (Boolean body) then []
  else lit "[" ++ depthLabel ++ lit "] u/" ++ author c ++ [LF] ++ body
       ++ [LF; LF].

(** [formatCommentToon] *)
Definition formatCommentToon (c : CommentItem) : jsstring :=
  let depthLabel := lit "d" ++ natToString (depth c) in
  let oneLineBody := trim (collapseWhitespace (body c)) in
  if negb (Boolean oneLineBody) then []
  else depthLabel ++ [SPACE; MIDDLE_DOT; SPACE] ++ lit "u/" ++ author c
       ++ lit ": " ++ oneLineBody ++ [LF].

(** ** Sorting *)

(** [Array.prototype.sort(comparefn)]: a stable sort (ECMAScript 2019); a
    [NaN] from the comparator ([None]) counts as [+0].  Insertion from the
    left is the stable sort written out.  It is the engine's order whenever
    the comparator is consistent, which [byScore] is on scores that are
    numbers or [null].  A score that is [undefined] makes the comparator
    answer [NaN] against every other record; it is then not consistent, the
    order is implementation-defined (ECMAScript 23.1.3.30) and an engine
    need not give the order computed here: from [1, undefined, 3] insertion
    from the left gives [3, 1, undefined] where binary insertion leaves the
    array as it is.  In that case only what holds of every rearrangement
    may be read off this function. *)
Section ArraySort.

Variable A : Type.
Variable comparefn : A -> A -> option Z.

Definition sortCompare (x y : A) : Z :=
  match comparefn x y with
  | Some v => v
  | None => 0
  end.

Fixpoint insertSorted (x : A) (l : list A) : list A :=
  match l with
  | [] => [x]
  | y :: r =>
      if (sortCompare y x <=? 0)%Z then y :: insertSorted x r
      else x :: y :: r
  end.

Definition Array_sort (l : list A) : list A :=
  fold_left (fun acc x => insertSorted x acc) l [].

End ArraySort.

(** [ToNumber] of a score: [null] is 0, [undefined] is [NaN]. *)
Definition toNumber (s : Score) : option Z :=
  match s with
  | ScoreNum z => Some z
  | ScoreNull => Some 0%Z
  | ScoreUndefined => None
  end.

(** [(a, b) => b.score - a.score] *)
Definition byScore (a b : CommentItem) : option Z :=
  match toNumber (score b), toNumber (score a) with
  | Some x, Some y => Some (x - y)%Z
  | _, _ => None
  end.

(** ** Statistics *)

Record Stats : Type := mkStats {
  postScore : Z;
  totalComments : nat;
  totalCommentScore : Z;
  avgCommentScore : Q;
  commentsPerScorePoint : Q
}.

(** [c.score || 0] *)
Definition scoreOrZero (s : Score) : Z :=
  match s with
  | ScoreNum z => z
  | _ => 0%Z
  end.

Record Post : Type := mkPost {
  title : jsstring;
  subreddit : jsstring;
  p_author : option jsstring;
  selftext : option jsstring;
  p_score : Z
}.

(** [a / b] on integers, as a rational. *)
Definition quotient (a b : Z) : Q := (inject_Z a / inject_Z b)%Q.

(** [newStats], from the (sorted) [comments] array. *)
Definition computeStats (post : Post) (comments : list CommentItem) : Stats :=
  let totalComments := length comments in
  let totalCommentScore :=
    fold_left (fun sum c => (sum + scoreOrZero (score c))%Z) comments 0%Z in
  let avgCommentScore :=
    if (0 <? totalComments)%nat
    then quotient totalCommentScore (Z.of_nat totalComments) else 0%Q in
  let commentsPerScorePoint :=
    if (0 <? totalCommentScore)%Z
    then quotient (Z.of_nat totalComments) totalCommentScore else 0%Q in
  {| postScore := p_score post;
     totalComments := totalComments;
     totalCommentScore := totalCommentScore;
     avgCommentScore := avgCommentScore;
     commentsPerScorePoint := commentsPerScorePoint |}.

(** ** Text renderers *)

(** [post.author ? `u/${post.author}` : "[unknown]"] *)
Definition postAuthorOf (post : Post) : jsstring :=
  match p_author post with
  | Some (c :: s) => lit "u/" ++ c :: s
  | _ => lit "[unknown]"
  end.

(** [(post.selftext || "").trim()] *)
Definition bodyOf (post : Post) : jsstring := trim (orElse (selftext post) []).

(** The string [llm] before the final [replace]; each [let] is one [+=]. *)
Definition llmAssembled (post : Post) (comments : list CommentItem)
  : jsstring :=
  let postAuthor := postAuthorOf post in
  let body := bodyOf post in
  let llm := [] in
  let llm := llm ++ (lit "TITLE: " ++ title post ++ [LF]) in
  let llm := llm ++ (lit "SUBREDDIT: r/" ++ subreddit post ++ [LF]) in
  let llm := llm ++ (lit "POST_AUTHOR: " ++ postAuthor ++ [LF; LF]) in
  let llm := llm ++ (lit "POST_BODY:" ++ [LF]) in
  let llm := llm ++ (if Boolean body then body ++ [LF; LF]
                     else lit "(no body)" ++ [LF; LF]) in
  let llm := llm ++ (lit "COMMENTS:" ++ [LF]) in
  let llm := llm ++ (lit "# [dX] u/author" ++ [LF] ++ lit "# comment text"
                     ++ [LF; LF]) in
  fold_left (fun llm c => llm ++ formatCommentLLM c) comments llm.

Definition renderLLM (post : Post) (comments : list CommentItem) : jsstring :=
  collapseNewlines (llmAssembled post comments).

(** The string [toon] before the final [replace]. *)
Definition toonAssembled (post : Post) (comments : list CommentItem)
  : jsstring :=
  let postAuthor := postAuthorOf post in
  let body := bodyOf post in
  let toon := [] in
  let toon := toon ++ (lit "TITLE: " ++ title post ++ [LF]) in
  let toon := toon ++ (lit "SUBREDDIT: r/" ++ subreddit post ++ [LF]) in
  let toon := toon ++ (lit "POST_AUTHOR: " ++ postAuthor ++ [LF; LF]) in
  let toon := toon ++ lit "POST_BODY: " in
  let toon := toon ++ (if Boolean body then body ++ [LF; LF]
                       else lit "(no body)" ++ [LF; LF]) in
  let toon := toon ++ (lit "COMMENTS:" ++ [LF]) in
  fold_left (fun toon c => toon ++ formatCommentToon c) comments toon.

Definition renderToon (post : Post) (comments : list CommentItem) : jsstring :=
  collapseNewlines (toonAssembled post comments).

(** ** JSON renderer *)

(** A number of the rendered object: an integer, or one of the two
    quotients of the statistics. *)
Inductive JSNumber : Type :=
| NumInt (z : Z)
| NumQ (q : Q).

(** JSON-like values; [Num] is how numbers are held: [JSNumber] in the
    object the code builds, the number's text in a parsed document. *)
#[warnings="-register-all"]
Inductive Json (Num : Type) : Type :=
| JUndefined
| JNull
| JBool (b : bool)
| JNumber (n : Num)
| JString (s : jsstring)
| JArray (elements : list (Json Num))
| JObject (members : list (jsstring * Json Num)).

Arguments JUndefined {Num}.
Arguments JNull {Num}.
Arguments JBool {Num} b.
Arguments JString {Num} s.

(** The value of [c.score] as a property. *)
Definition scoreValue (s : Score) : Json JSNumber :=
  match s with
  | ScoreNum z => JNumber (NumInt z)
  | ScoreNull => JNull
  | ScoreUndefined => JUndefined
  end.

(** The object literal of [comments.map]. *)
Definition commentObj (c : CommentItem) : Json JSNumber :=
  JObject
    [ (lit "id", JString (id c));
      (lit "author", JString (author c));
      (lit "body", JString (body c));
      (lit "score", scoreValue (score c));
      (lit "depth", JNumber (NumInt (Z.of_nat (depth c))));
      (lit "parent_id", JString (parent_id c)) ].

Definition statsObj (st : Stats) : Json JSNumber :=
  JObject
    [ (lit "postScore", JNumber (NumInt (postScore st)));
      (lit "totalComments", JNumber (NumInt (Z.of_nat (totalComments st))));
      (lit "totalCommentScore", JNumber (NumInt (totalCommentScore st)));
      (lit "avgCommentScore", JNumber (NumQ (avgCommentScore st)));
      (lit "commentsPerScorePoint",
       JNumber (NumQ (commentsPerScorePoint st))) ].

(** [jsonObj] *)
Definition jsonObj (post : Post) (newStats : Stats)
  (comments : list CommentItem) : Json JSNumber :=
  JObject
    [ (lit "title", JString (title post));
      (lit "subreddit", JString (subreddit post));
      (lit "postAuthor", JString (postAuthorOf post));
      (lit "body", JString (bodyOf post));
      (lit "stats", statsObj newStats);
      (lit "comments", JArray (map commentObj comments)) ].

Definition QUOTE : N := 34.
Definition BACKSLASH : N := 92.

(** A hexadecimal digit, lower case. *)
Definition hexDigit (n : N) : N :=
  (if n <? 10 then 48 + n else 87 + n)%N.

(** [UnicodeEscape]: a backslash, [u] and four hexadecimal digits. *)
Definition unicodeEscape (c : N) : jsstring :=
  [BACKSLASH; 117%N;
   hexDigit (c / 4096 mod 16); hexDigit (c / 256 mod 16);
   hexDigit (c / 16 mod 16); hexDigit (c mod 16)]%N.

Definition isLeadSurrogate (c : N) : bool := ((55296 <=? c) && (c <=? 56319))%N.
Definition isTrailSurrogate (c : N) : bool := ((56320 <=? c) && (c <=? 57343))%N.

(** The two-unit escapes of [QuoteJSONString]. *)
Definition shortEscape (c : N) : option N :=
  (if c =? 8 then Some 98 else if c =? 9 then Some 116
   else if c =? 10 then Some 110 else if c =? 12 then Some 102
   else if c =? 13 then Some 114 else if c =? 34 then Some 34
   else if c =? 92 then Some 92 else None)%N.

(** The body of [QuoteJSONString], code point by code point: a surrogate
    pair is copied, a lone surrogate escaped. *)
Fixpoint quoteUnits (s : jsstring) : jsstring :=
  match s with
  | [] => []
  | c :: r =>
      match shortEscape c with
      | Some e => BACKSLASH :: e :: quoteUnits r
      | None =>
          if (c <? 32)%N then unicodeEscape c ++ quoteUnits r
          else if isLeadSurrogate c then
            match r with
            | d :: r' =>
                if isTrailSurrogate d then c :: d :: quoteUnits r'
                else unicodeEscape c ++ quoteUnits r
            | [] => unicodeEscape c
            end
          else if isTrailSurrogate c then unicodeEscape c ++ quoteUnits r
          else c :: quoteUnits r
      end
  end.

Definition QuoteJSONString (s : jsstring) : jsstring :=
  QUOTE :: quoteUnits s ++ [QUOTE].

(** [partial.join(separator)] *)
Fixpoint join (separator : jsstring) (partial : list jsstring) : jsstring :=
  match partial with
  | [] => []
  | [x] => x
  | x :: rest => x ++ separator ++ join separator rest
  end.

Section Stringify.

(** [Number::toString] on the double of a quotient. *)
Variable Number_toString : Q -> jsstring.

Definition numberText (n : JSNumber) : jsstring :=
  match n with
  | NumInt z => intToString z
  | NumQ q => Number_toString q
  end.

Definition gap : jsstring := [SPACE; SPACE].

(** [SerializeJSONProperty] with its two helpers for arrays and objects;
    [None] is [undefined]. *)
Fixpoint serialize (indent : jsstring) (v : Json JSNumber)
  : option jsstring :=
  match v with
  | JUndefined => None
  | JNull => Some (lit "null")
  | JBool b => Some (if b then lit "true" else lit "false")
  | JNumber n => Some (numberText n)
  | JString s => Some (QuoteJSONString s)
  | JArray elements =>
      let stepback := indent in
      let indent := indent ++ gap in
      let partial :=
        map (fun e => match serialize indent e with
                      | Some t => t
                      | None => lit "null"
                      end) elements in
      match partial with
      | [] => Some (lit "[]")
      | _ => Some (lit "[" ++ [LF] ++ indent
                   ++ join (lit "," ++ [LF] ++ indent) partial
                   ++ [LF] ++ stepback ++ lit "]")
      end
  | JObject members =>
      let stepback := indent in
      let indent := indent ++ gap in
      let partial :=
        flat_map (fun m => match serialize indent (snd m) with
                           | Some t =>
                               [QuoteJSONString (fst m) ++ lit ": " ++ t]
                           | None => []
                           end) members in
      match partial with
      | [] => Some (lit "{}")
      | _ => Some (lit "{" ++ [LF] ++ indent
                   ++ join (lit "," ++ [LF] ++ indent) partial
                   ++ [LF] ++ stepback ++ lit "}")
      end
  end.

(** [JSON.stringify(v, null, 2)] of an object or array. *)
Definition JSON_stringify (v : Json JSNumber) : jsstring :=
  match serialize [] v with
  | Some t => t
  | None => []
  end.

End Stringify.

(** ** JSON.parse

    The reader of the ECMA-404 grammar.  A number is kept as its text. *)

Definition isJsonWs (c : N) : bool :=
  ((c =? 32) || (c =? 9) || (c =? 10) || (c =? 13))%N.

Fixpoint skipWs (s : jsstring) : jsstring :=
  match s with
  | [] => []
  | c :: r => if isJsonWs c then skipWs r else s
  end.

Definition hexValue (c : N) : option N :=
  (if (48 <=? c) && (c <=? 57) then Some (c - 48)
   else if (97 <=? c) && (c <=? 102) then Some (c - 87)
   else if (65 <=? c) && (c <=? 70) then Some (c - 55)
   else None)%N.

(** The unit a two-unit escape stands for. *)
Definition unescape (e : N) : option N :=
  (if e =? 34 then Some 34 else if e =? 92 then Some 92
   else if e =? 47 then Some 47 else if e =? 98 then Some 8
   else if e =? 102 then Some 12 else if e =? 110 then Some 10
   else if e =? 114 then Some 13 else if e =? 116 then Some 9
   else None)%N.

(** A string after its opening quote: its units and what follows the
    closing quote. *)
Fixpoint parseChars (s : jsstring) : option (jsstring * jsstring) :=
  match s with
  | [] => None
  | c :: r =>
      if (c =? 34)%N then Some ([], r)
      else if (c =? 92)%N then
        match r with
        | [] => None
        | e :: r1 =>
            if (e =? 117)%N then
              match r1 with
              | h1 :: h2 :: h3 :: h4 :: r2 =>
                  match hexValue h1, hexValue h2, hexValue h3, hexValue h4,
                        parseChars r2 with
                  | Some a, Some b, Some c, Some d, Some (str, rest) =>
                      Some ((a * 4096 + b * 256 + c * 16 + d)%N :: str, rest)
                  | _, _, _, _, _ => None
                  end
              | _ => None
              end
            else
              match unescape e, parseChars r1 with
              | Some u, Some (str, rest) => Some (u :: str, rest)
              | _, _ => None
              end
        end
      else if (c <? 32)%N then None
      else
        match parseChars r with
        | Some (str, rest) => Some (c :: str, rest)
        | None => None
        end
  end.

Definition isDigit (c : N) : bool := ((48 <=? c) && (c <=? 57))%N.

(** The units a number is written with. *)
Definition isNumberChar (c : N) : bool :=
  (isDigit c || (c =? 45) || (c =? 43) || (c =? 46) || (c =? 101)
   || (c =? 69))%N.

Fixpoint dropDigits (s : jsstring) : jsstring :=
  match s with
  | [] => []
  | c :: r => if isDigit c then dropDigits r else s
  end.

(** One digit or more. *)
Definition digits1 (s : jsstring) : option jsstring :=
  match s with
  | c :: r => if isDigit c then Some (dropDigits r) else None
  | [] => None
  end.

Definition intPart (s : jsstring) : option jsstring :=
  match s with
  | c :: r =>
      if (c =? 48)%N then Some r
      else if isDigit c then Some (dropDigits r) else None
  | [] => None
  end.

Definition fracPart (s : jsstring) : option jsstring :=
  match s with
  | c :: r => if (c =? 46)%N then digits1 r else Some s
  | [] => Some []
  end.

Definition expPart (s : jsstring) : option jsstring :=
  match s with
  | c :: r =>
      if ((c =? 101) || (c =? 69))%N then
        match r with
        | sg :: r' =>
            if ((sg =? 43) || (sg =? 45))%N then digits1 r' else digits1 r
        | [] => None
        end
      else Some s
  | [] => Some []
  end.

(** The JSON number grammar, on a whole text. *)
Definition isJSONNumber (s : jsstring) : bool :=
  let s := match s with
           | c :: r => if (c =? 45)%N then r else s
           | [] => s
           end in
  match intPart s with
  | Some s1 =>
      match fracPart s1 with
      | Some s2 =>
          match expPart s2 with
          | Some [] => true
          | _ => false
          end
      | None => false
      end
  | None => false
  end.

(** The longest prefix of number units, and the rest. *)
Fixpoint spanNumber (s : jsstring) : jsstring * jsstring :=
  match s with
  | [] => ([], [])
  | c :: r =>
      if isNumberChar c then let (n, rest) := spanNumber r in (c :: n, rest)
      else ([], s)
  end.

(** [s] starts with [word]: what follows it. *)
Fixpoint afterWord (word s : jsstring) : option jsstring :=
  match word, s with
  | [], _ => Some s
  | w :: word', c :: r => if (w =? c)%N then afterWord word' r else None
  | _ :: _, [] => None
  end.

Definition Parsed := Json jsstring.

(** The next unit is [k]: what follows it. *)
Definition expect (k : N) (s : jsstring) : option jsstring :=
  match s with
  | c :: r => if (c =? k)%N then Some r else None
  | [] => None
  end.

Fixpoint parseValue (fuel : nat) (s : jsstring) {struct fuel}
  : option (Parsed * jsstring) :=
  match fuel with
  | O => None
  | S fuel =>
      match skipWs s with
      | [] => None
      | c :: r =>
          if (c =? 34)%N then
            match parseChars r with
            | Some (str, rest) => Some (JString str, rest)
            | None => None
            end
          else if (c =? 91)%N then
            match expect 93 (skipWs r) with
            | Some rest => Some (JArray [], rest)
            | None =>
                match parseElements fuel r with
                | Some (vs, rest) => Some (JArray vs, rest)
                | None => None
                end
            end
          else if (c =? 123)%N then
            match expect 125 (skipWs r) with
            | Some rest => Some (JObject [], rest)
            | None =>
                match parseMembers fuel r with
                | Some (ms, rest) => Some (JObject ms, rest)
                | None => None
                end
            end
          else if (c =? 110)%N then
            option_map (pair JNull) (afterWord (lit "ull") r)
          else if (c =? 116)%N then
            option_map (pair (JBool true)) (afterWord (lit "rue") r)
          else if (c =? 102)%N then
            option_map (pair (JBool false)) (afterWord (lit "alse") r)
          else
            let (n, rest) := spanNumber (c :: r) in
            if isJSONNumber n then Some (JNumber n, rest) else None
      end
  end

with parseElements (fuel : nat) (s : jsstring) {struct fuel}
  : option (list Parsed * jsstring) :=
  match fuel with
  | O => None
  | S fuel =>
      match parseValue fuel s with
      | Some (v, rest) =>
          match expect 44 (skipWs rest) with
          | Some r =>
              match parseElements fuel r with
              | Some (vs, rest') => Some (v :: vs, rest')
              | None => None
              end
          | None =>
              match expect 93 (skipWs rest) with
              | Some r => Some ([v], r)
              | None => None
              end
          end
      | None => None
      end
  end

with parseMembers (fuel : nat) (s : jsstring) {struct fuel}
  : option (list (jsstring * Parsed) * jsstring) :=
  match fuel with
  | O => None
  | S fuel =>
      match expect 34 (skipWs s) with
      | Some r =>
          match parseChars r with
          | Some (key, rest) =>
              match expect 58 (skipWs rest) with
              | Some r1 =>
                  match parseValue fuel r1 with
                  | Some (v, rest1) =>
                      match expect 44 (skipWs rest1) with
                      | Some r2 =>
                          match parseMembers fuel r2 with
                          | Some (ms, rest') => Some ((key, v) :: ms, rest')
                          | None => None
                          end
                      | None =>
                          match expect 125 (skipWs rest1) with
                          | Some r2 => Some ([(key, v)], r2)
                          | None => None
                          end
                      end
                  | None => None
                  end
              | None => None
              end
          | None => None
          end
      | None => None
      end
  end.

(** [JSON.parse(s)]: [None] when it throws.  The reader spends at most two
    units of fuel per unit of text, so the fuel is enough for any text. *)
Definition JSON_parse (s : jsstring) : option Parsed :=
  match parseValue (2 * length s + 2) s with
  | Some (v, rest) =>
      match skipWs rest with
      | [] => Some v
      | _ :: _ => None
      end
  | None => None
  end.

(** Reading a parsed document. *)

(** [o[key]]: of two members with one key the later one stands. *)
Fixpoint member (key : jsstring) (ms : list (jsstring * Parsed))
  : option Parsed :=
  match ms with
  | [] => None
  | (k, v) :: r =>
      match member key r with
      | Some later => Some later
      | None => if jsstring_eqb k key then Some v else None
      end
  end.

Definition property (key : jsstring) (v : Parsed) : option Parsed :=
  match v with
  | JObject ms => member key ms
  | _ => None
  end.

Fixpoint unitsUint (s : jsstring) : option Decimal.uint :=
  match s with
  | [] => Some Decimal.Nil
  | c :: r =>
      match unitsUint r with
      | None => None
      | Some d =>
          (if c =? 48 then Some (Decimal.D0 d)
           else if c =? 49 then Some (Decimal.D1 d)
           else if c =? 50 then Some (Decimal.D2 d)
           else if c =? 51 then Some (Decimal.D3 d)
           else if c =? 52 then Some (Decimal.D4 d)
           else if c =? 53 then Some (Decimal.D5 d)
           else if c =? 54 then Some (Decimal.D6 d)
           else if c =? 55 then Some (Decimal.D7 d)
           else if c =? 56 then Some (Decimal.D8 d)
           else if c =? 57 then Some (Decimal.D9 d)
           else None)%N
      end
  end.

(** The integer an integer literal denotes. *)
Definition integerOfText (s : jsstring) : option Z :=
  match s with
  | [] => None
  | c :: r =>
      if (c =? 45)%N
      then option_map (fun d => Z.of_int (Decimal.Neg d)) (unitsUint r)
      else option_map (fun d => Z.of_int (Decimal.Pos d)) (unitsUint s)
  end.

(** [v] as an integer, when it is a number written as one. *)
Definition integerOf (v : Parsed) : option Z :=
  match v with
  | JNumber s => integerOfText s
  | _ => None
  end.

(** [o[key]] as an integer. *)
Definition integerProperty (key : jsstring) (o : Parsed) : option Z :=
  match property key o with
  | Some v => integerOf v
  | None => None
  end.

(** [JSON.parse(json).comments], as an array. *)
Definition parsedComments (doc : Parsed) : option (list Parsed) :=
  match property (lit "comments") doc with
  | Some (JArray l) => Some l
  | _ => None
  end.

(** What a reader of the text gets for a value: numbers as their text, an
    [undefined] member dropped, an [undefined] element read as [null]. *)
Section Reading.

Variable Number_toString : Q -> jsstring.

Definition isDefined (v : Json JSNumber) : bool :=
  match v with
  | JUndefined => false
  | _ => true
  end.

Fixpoint reading (v : Json JSNumber) : Parsed :=
  match v with
  | JUndefined => JNull
  | JNull => JNull
  | JBool b => JBool b
  | JNumber n => JNumber (numberText Number_toString n)
  | JString s => JString s
  | JArray elements => JArray (map reading elements)
  | JObject members =>
      JObject
        (flat_map (fun m => if isDefined (snd m)
                            then [(fst m, reading (snd m))] else [])
           members)
  end.

(** The text of an array element. *)
Definition textOf (indent : jsstring) (v : Json JSNumber) : jsstring :=
  match serialize Number_toString indent v with
  | Some t => t
  | None => lit "null"
  end.

(** The members that are written, and the text of one. *)
Definition present (ms : list (jsstring * Json JSNumber))
  : list (jsstring * Json JSNumber) :=
  filter (fun m => isDefined (snd m)) ms.

Definition memberText (indent : jsstring) (m : jsstring * Json JSNumber)
  : jsstring :=
  QuoteJSONString (fst m) ++ lit ": " ++ textOf indent (snd m).

Definition separator (indent : jsstring) : jsstring :=
  lit "," ++ [LF] ++ indent.

End Reading.

(** Fuel that reads a value back. *)
Fixpoint weight (v : Parsed) : nat :=
  match v with
  | JArray elements => S (list_sum (map (fun e => S (weight e)) elements))
  | JObject members =>
      S (list_sum (map (fun m => S (weight (snd m))) members))
  | _ => 1
  end.

(** The rest of a text does not go on with a number. *)
Definition numberSafe (rest : jsstring) : bool :=
  match rest with
  | [] => true
  | c :: _ => negb (isNumberChar c)
  end.

(** A step of the number grammar reads number units only. *)
Definition readsNumberUnits (step : jsstring -> option jsstring) : Prop :=
  forall s r,
    step s = Some r ->
    exists pre, s = pre ++ r /\ forallb isNumberChar pre = true.

(** The first unit of a number: a minus sign or a digit. *)
Definition isNumberStart (c : N) : bool := ((c =? 45)%N || isDigit c).

(** Reading a written value gives its reading and leaves the rest. *)
Definition readsBack (Number_toString : Q -> jsstring) (v : Json JSNumber)
  : Prop :=
  forall indent fuel rest,
    forallb isJsonWs indent = true ->
    weight (reading Number_toString v) <= fuel ->
    numberSafe rest = true ->
    parseValue fuel (textOf Number_toString indent v ++ rest)
    = Some (reading Number_toString v, rest).

(** ** Orchestrator *)

Record Outputs : Type := mkOutputs {
  txt : jsstring;
  toon : jsstring;
  json : jsstring
}.

(** The component state ([useState]); [mode] plays no part in a fetch. *)
Record AppState : Type := mkApp {
  input : jsstring;
  loading : bool;
  error : jsstring;
  stats : option Stats;
  metaTitle : option jsstring;
  metaSubreddit : option jsstring;
  outputs : Outputs
}.

(** What the network answers to a request: [fetch] rejects, or there is a
    response with its [ok] flag; the payload is [data[0]]'s post and
    [data[1].data.children], [None] when reading or walking them throws
    (lines 116-142, before anything is set).  [Unrenderable] is a response
    with [ok] set whose payload is read and walked like any other, but in
    which [post.selftext], or the [body] of a comment the walk reaches, is a
    truthy value that is not a string (a number, [true], an array, an
    object): [.trim()] or [.replace()] then throws at line 149, 161 or 175,
    after [setStats], [setMetaTitle] and [setMetaSubreddit] have run.  Its
    [post] and [commentsRaw] hold the fields read up to there. *)
Inductive Response : Type :=
| Rejected
| Answer (ok : bool) (payload : option (Post * list Item))
| Unrenderable (post : Post) (commentsRaw : list Item).

Definition initialState : AppState :=
  {| input := []; loading := false; error := []; stats := None;
     metaTitle := None; metaSubreddit := None;
     outputs := {| txt := []; toon := []; json := [] |} |}.

Section Orchestrator.

Variable URL_pathname : jsstring -> option jsstring.
Variable Number_toString : Q -> jsstring.
Variable network : jsstring -> Response.

(** The [try] block of [fetchThread] once the payload is read: the stats
    and the three rendered strings, all from the one sorted array. *)
Definition buildOutputs (post : Post) (commentsRaw : list Item)
  : Stats * Outputs :=
  let comments := walkComments commentsRaw 0 [] in
  let comments := Array_sort byScore comments in
  let newStats := computeStats post comments in
  let llm := renderLLM post comments in
  let toon := renderToon post comments in
  let json :=
    JSON_stringify Number_toString (jsonObj post newStats comments) in
  (newStats, {| txt := llm; toon := toon; json := json |}).

Definition requestURL (postId : jsstring) : jsstring :=
  lit "https://www.reddit.com/comments/" ++ postId ++ lit ".json?raw_json=1".

(** Lines 120-146 of [fetchThread]: the stats of the sorted array, set
    with the title and the subreddit before any text is rendered. *)
Definition statsBeforeRender (post : Post) (commentsRaw : list Item)
  : Stats :=
  let comments := walkComments commentsRaw 0 [] in
  let comments := Array_sort byScore comments in
  computeStats post comments.

(** [fetchThread(raw)], run to completion: the final state and the URLs
    requested on the way.  An exception thrown while rendering is caught
    with the stats, the title and the subreddit already set and
    [setOutputs] not reached. *)
Definition fetchThread (st : AppState) (raw : jsstring)
  : AppState * list jsstring :=
  let st := {| input := input st; loading := true; error := [];
               stats := None; metaTitle := None; metaSubreddit := None;
               outputs := {| txt := []; toon := []; json := [] |} |} in
  let failed (message : jsstring) :=
    {| input := input st; loading := false; error := message;
       stats := stats st; metaTitle := metaTitle st;
       metaSubreddit := metaSubreddit st; outputs := outputs st |} in
  match normalizeToPostId URL_pathname raw with
  | Some (c :: s) =>
      let postId := c :: s in
      let url := requestURL postId in
      match network url with
      | Rejected => (failed (lit "Network error."), [url])
      | Answer false _ => (failed (lit "Failed to load Reddit thread."), [url])
      | Answer true None => (failed (lit "Network error."), [url])
      | Answer true (Some (post, commentsRaw)) =>
          let (newStats, outs) := buildOutputs post commentsRaw in
          ({| input := input st; loading := false; error := [];
              stats := Some newStats; metaTitle := Some (title post);
              metaSubreddit := Some (subreddit post); outputs := outs |},
           [url])
      | Unrenderable post commentsRaw =>
          ({| input := input st; loading := false;
              error := lit "Network error.";
              stats := Some (statsBeforeRender post commentsRaw);
              metaTitle := Some (title post);
              metaSubreddit := Some (subreddit post);
              outputs := outputs st |},
           [url])
      end
  | _ => (failed (lit "Invalid URL or Post ID."), [])
  end.

(** [handleClick] *)
Definition handleClick (st : AppState) : AppState * list jsstring :=
  if negb (Boolean (trim (input st))) then
    ({| input := input st; loading := loading st;
        error := lit "Enter a URL or Post ID."; stats := stats st;
        metaTitle := metaTitle st; metaSubreddit := metaSubreddit st;
        outputs := outputs st |}, [])
  else fetchThread st (input st).

(** The auto-load effect, given [params.get("url")] and
    [params.get("id")]. *)
Definition autoLoad (st : AppState) (urlParam idParam : option jsstring)
  : AppState * list jsstring :=
  let initial :=
    match urlParam with
    | Some (c :: s) => Some (c :: s)
    | _ => idParam
    end in
  match initial with
  | Some (c :: s) =>
      let st := {| input := c :: s; loading := loading st;
                   error := error st; stats := stats st;
                   metaTitle := metaTitle st;
                   metaSubreddit := metaSubreddit st;
                   outputs := outputs st |} in
      fetchThread st (c :: s)
  | _ => (st, [])
  end.

End Orchestrator.

(** ** What the component displays *)

(** The [mode] state: ["txt"], ["toon"] or ["json"]. *)
Inductive Mode : Type :=
| ModeTxt
| ModeToon
| ModeJson.

(** [displayText = outputs[mode]] *)
Definition displayText (mode : Mode) (st : AppState) : jsstring :=
  match mode with
  | ModeTxt => txt (outputs st)
  | ModeToon => toon (outputs st)
  | ModeJson => json (outputs st)
  end.

(** The copy button's [disabled={!displayText}]. *)
Definition copyDisabled (mode : Mode) (st : AppState) : bool :=
  negb (Boolean (displayText mode st)).

(** [{error && ...}]: the error line is rendered. *)
Definition errorShown (st : AppState) : bool := Boolean (error st).

(** [{stats && ...}]: the statistics are rendered. *)
Definition statsShown (st : AppState) : bool :=
  match stats st with
  | Some _ => true
  | None => false
  end.

(** [{metaTitle && ...}]: the title is rendered. *)
Definition titleShown (st : AppState) : bool :=
  match metaTitle st with
  | Some (_ :: _) => true
  | _ => false
  end.

(** ** Specification vocabulary *)

(** A record whose score is an integer. *)
Definition hasIntegerScore (c : CommentItem) : bool :=
  match score c with
  | ScoreNum _ => true
  | _ => false
  end.

(** The score a record contributes to the total. *)
Definition scoreOf (c : CommentItem) : Z := scoreOrZero (score c).

(** Scores in non-increasing order: no record is followed, at any
    distance, by one of a higher score. *)
Definition descending (l : list CommentItem) : Prop :=
  StronglySorted (fun a b => (scoreOf b <= scoreOf a)%Z) l.

(** The literal sum of a list of integers. *)
Definition Zsum (l : list Z) : Z := fold_right Z.add 0%Z l.

(** [s.includes("\n\n")]: two newline units in a row. *)
Fixpoint hasDoubleNewline (s : jsstring) : bool :=
  match s with
  | a :: (b :: _) as r => ((a =? LF) && (b =? LF))%N || hasDoubleNewline r
  | _ => false
  end.

(** The units of a string other than newlines, in order. *)
Definition withoutNewlines (s : jsstring) : jsstring :=
  filter (fun c => negb (c =? LF)%N) s.

(** The three header lines both text renderers start with. *)
Definition headerLines (post : Post) : jsstring :=
  lit "TITLE: " ++ title post ++ [LF]
  ++ lit "SUBREDDIT: r/" ++ subreddit post ++ [LF]
  ++ lit "POST_AUTHOR: " ++ postAuthorOf post ++ [LF; LF].

(** The trimmed self-text, or the sentinel when it is empty. *)
Definition bodyOrSentinel (post : Post) : jsstring :=
  match bodyOf post with
  | [] => lit "(no body)"
  | c :: s => c :: s
  end.

(** The legend the LLM text prints under its [COMMENTS:] heading. *)
Definition legend : jsstring :=
  lit "# [dX] u/author" ++ [LF] ++ lit "# comment text" ++ [LF; LF].

(** The block of one comment in the LLM text, in the spec's words. *)
Definition blockLLM (c : CommentItem) : jsstring :=
  match trim (body c) with
  | [] => []
  | x :: b =>
      lit "[d" ++ natToString (depth c) ++ lit "]" ++ lit " u/" ++ author c
      ++ [LF] ++ (x :: b) ++ [LF; LF]
  end.

(** The LLM text before the newline pass as C3 words it: nothing between
    the [COMMENTS:] heading and the blocks. *)
Definition llmAsClaimed (post : Post) (comments : list CommentItem)
  : jsstring :=
  headerLines post ++ lit "POST_BODY:" ++ [LF] ++ bodyOrSentinel post
  ++ [LF; LF] ++ lit "COMMENTS:" ++ [LF] ++ concat (map blockLLM comments).

(** The header and body section of the LLM text. *)
Definition llmHeaderAndBody (post : Post) : jsstring :=
  headerLines post ++ lit "POST_BODY:" ++ [LF] ++ bodyOrSentinel post
  ++ [LF; LF].

(** A comment body on one line, in the spec's words. *)
Definition oneLine (text : jsstring) : jsstring :=
  trim (collapseWhitespace text).

(** The line of one comment in the compact text, in the spec's words. *)
Definition lineToon (c : CommentItem) : jsstring :=
  match oneLine (body c) with
  | [] => []
  | x :: b =>
      lit "d" ++ natToString (depth c) ++ [SPACE; MIDDLE_DOT; SPACE]
      ++ lit "u/" ++ author c ++ lit ":" ++ [SPACE] ++ (x :: b) ++ [LF]
  end.

(** Two white-space units in a row. *)
Fixpoint hasAdjacentWhite (s : jsstring) : bool :=
  match s with
  | a :: (b :: _) as r =>
      isWhiteSpace a && isWhiteSpace b || hasAdjacentWhite r
  | _ => false
  end.

(** The units of a string other than white space, in order. *)
Definition withoutWhite (s : jsstring) : jsstring :=
  filter (fun c => negb (isWhiteSpace c)) s.

(** Every white-space unit of the string is the space character. *)
Definition onlySpaces (s : jsstring) : Prop :=
  Forall (fun c => isWhiteSpace c = true -> c = SPACE) s.

(** The string neither starts nor ends with white space. *)
Definition trimmedEnds (s : jsstring) : Prop :=
  match s with
  | [] => True
  | c :: _ => isWhiteSpace c = false /\ isWhiteSpace (last s c) = false
  end.

(** Depths along a flattened sequence: each record is at most one level
    below the record before it. *)
Fixpoint depthSteps (l : list CommentItem) : Prop :=
  match l with
  | a :: (b :: _) as r => depth b <= S (depth a) /\ depthSteps r
  | _ => True
  end.

(** The sequence is empty or starts at depth [d]. *)
Definition startsAtDepth (d : nat) (l : list CommentItem) : Prop :=
  match l with
  | [] => True
  | c :: _ => depth c = d
  end.

(** What the walk keeps along its output. *)
Definition wellNested (d : nat) (l : list CommentItem) : Prop :=
  Forall (fun c => d <= depth c) l /\ depthSteps l /\ startsAtDepth d l.

(** [JSON.parse(text).comments], as an array. *)
Definition parsedCommentsOfText (text : jsstring) : option (list Parsed) :=
  match JSON_parse text with
  | Some doc => parsedComments doc
  | None => None
  end.

(** [JSON.parse(text)[key]] *)
Definition parsedPropertyOfText (key text : jsstring) : option Parsed :=
  match JSON_parse text with
  | Some doc => property key doc
  | None => None
  end.

(** A piece of text followed by [S n] newlines, as the renderers write
    it and as the newline pass leaves it. *)
Definition writePiece (p : jsstring * nat) : jsstring :=
  fst p ++ repeat LF (S (snd p)).

Definition readPiece (p : jsstring * nat) : jsstring :=
  collapseNewlines (fst p) ++ [LF].

(** The string is not empty and neither starts nor ends with a newline. *)
Definition newlineFreeEdges (x : jsstring) : Prop :=
  x <> [] /\ hd LF x <> LF /\ last x LF <> LF.

Definition startsWithNewline (s : jsstring) : bool :=
  match s with
  | c :: _ => (c =? LF)%N
  | [] => false
  end.

(** [s.endsWith("\n")] *)
Definition endsWithNewline (s : jsstring) : bool :=
  match s with
  | [] => false
  | _ :: _ => (last s LF =? LF)%N
  end.

(** The pieces of one comment in the LLM text and in the compact text. *)
Definition llmPieces (c : CommentItem) : list (jsstring * nat) :=
  match trim (body c) with
  | [] => []
  | x :: b =>
      [ (lit "[d" ++ natToString (depth c) ++ lit "] u/" ++ author c, 0);
        (x :: b, 1) ]
  end.

Definition toonPieces (c : CommentItem) : list (jsstring * nat) :=
  match oneLine (body c) with
  | [] => []
  | x :: b =>
      [ (lit "d" ++ natToString (depth c) ++ [SPACE; MIDDLE_DOT; SPACE]
           ++ lit "u/" ++ author c ++ lit ": " ++ x :: b, 0) ]
  end.

(** The block of one comment in the final LLM text. *)
Definition finalBlockLLM (c : CommentItem) : jsstring :=
  match trim (body c) with
  | [] => []
  | x :: b =>
      lit "[d" ++ natToString (depth c) ++ lit "] u/" ++ author c ++ [LF]
      ++ collapseNewlines (x :: b) ++ [LF]
  end.

(** No author of the sequence holds a newline. *)
Definition authorsOnOneLine (comments : list CommentItem) : bool :=
  forallb (fun c => negb (includes LF (author c))) comments.

(** The outputs of a fetch that has shown nothing. *)
Definition noOutputs : Outputs := {| txt := []; toon := []; json := [] |}.

(** The three messages [fetchThread] can leave in [error]. *)
Definition fetchErrors : list jsstring :=
  [lit "Invalid URL or Post ID."; lit "Failed to load Reddit thread.";
   lit "Network error."].

(** Sample data: the thread of the spec's scenario. *)
Definition helloPost : Post :=
  {| title := lit "Hello"; subreddit := lit "test"; p_author := None;
     selftext := None; p_score := 10 |}.

Definition sampleComment (name : string) (sc : Z) (text : jsstring)
  : CommentItem :=
  {| id := lit name; author := lit "bob"; score := ScoreNum sc;
     body := text; parent_id := lit "t3_post"; depth := 0 |}.

(** A node of the sample forest. *)
Definition sampleNode (kind name : string) (children : option (list Item))
  : Item :=
  Thing (lit kind)
    {| f_id := lit name; f_author := None; f_score := ScoreNum 1;
       f_body := Some (lit "text"); f_parent_id := lit "t3_post" |}
    children.

(** Two top-level comments; under the first a reply, a "more" placeholder
    hiding a comment, an empty slot and a reply with a reply of its own. *)
Definition sampleForest : list Item :=
  [ sampleNode "t1" "a"
      (Some [ sampleNode "t1" "b" None;
              sampleNode "more" "m" (Some [sampleNode "t1" "hidden" None]);
              Falsy;
              sampleNode "t1" "c" (Some [sampleNode "t1" "d" (Some [])]) ]);
    sampleNode "t1" "e" None ].

(** A network that answers every request with the post and no comment. *)
Definition alwaysHello (_ : jsstring) : Response :=
  Answer true (Some (helloPost, [])).

(** * Proofs *)

Lemma jsstring_eqb_eq a b : jsstring_eqb a b = true <-> a = b.
Proof.
  unfold jsstring_eqb. destruct (list_eq_dec N.eq_dec a b); split; congruence.
Qed.

Lemma jsstring_eqb_refl a : jsstring_eqb a a = true.
Proof. now apply jsstring_eqb_eq. Qed.

Lemma jsstring_eqb_neq a b : jsstring_eqb a b = false <-> a <> b.
Proof.
  unfold jsstring_eqb. destruct (list_eq_dec N.eq_dec a b); split; congruence.
Qed.

(** ** Normalizer *)

Lemma includes_false_iff c s : includes c s = false <-> ~ In c s.
Proof.
  unfold includes. split.
  - intros H Hin.
    assert (existsb (N.eqb c) s = true) as E
      by (apply existsb_exists; exists c; split; [assumption | apply N.eqb_refl]).
    congruence.
  - intros H. destruct (existsb (N.eqb c) s) eqn:E; [| reflexivity].
    apply existsb_exists in E. destruct E as (x & Hx & Hc).
    apply N.eqb_eq in Hc. subst x. contradiction.
Qed.

Lemma SPACE_isWhiteSpace : isWhiteSpace SPACE = true.
Proof. reflexivity. Qed.

Lemma trimStart_all_white s :
  forallb isWhiteSpace s = true -> trimStart s = [].
Proof.
  induction s as [| c r IH]; simpl; [reflexivity |].
  intros H. apply andb_prop in H. destruct H as [Hc Hr].
  rewrite Hc. auto.
Qed.

Lemma trim_all_white s : forallb isWhiteSpace s = true -> trim s = [].
Proof.
  intros H. unfold trim, trimEnd. rewrite (trimStart_all_white _ H).
  reflexivity.
Qed.

Lemma indexOf_lower x parts : (-1 <= indexOf x parts)%Z.
Proof.
  induction parts as [| p r IH]; simpl; [lia |].
  destruct (jsstring_eqb p x); [lia |].
  destruct (indexOf x r <? 0)%Z eqn:E; lia.
Qed.

Lemma segments_nonempty pathname :
  Forall (fun p => Boolean p = true) (segments pathname).
Proof.
  apply Forall_forall. intros p Hp. unfold segments in Hp.
  apply filter_In in Hp. tauto.
Qed.

(** The index arithmetic of the source is the spec's "segment after the
    first [comments]". *)
Lemma index_lookup_afterComments parts :
  Forall (fun p => Boolean p = true) parts ->
  (let idx := indexOf (lit "comments") parts in
   if (idx =? -1)%Z then None
   else match at_index parts (idx + 1) with
        | None => None
        | Some p => if Boolean p then Some p else None
        end) = afterComments parts.
Proof.
  induction 1 as [| p r Hp Hr IH]; [reflexivity |].
  cbn zeta in *. cbn [indexOf afterComments].
  destruct (jsstring_eqb p (lit "comments")) eqn:E.
  - cbn. rewrite Pos2Nat.inj_1. destruct r as [| y r']; [reflexivity |].
    inversion Hr; subst. cbn. now rewrite H1.
  - pose proof (indexOf_lower (lit "comments") r) as L.
    destruct (indexOf (lit "comments") r <? 0)%Z eqn:Ei.
    + apply Z.ltb_lt in Ei.
      assert (indexOf (lit "comments") r = -1)%Z as Em by lia.
      rewrite Em in IH. cbn in IH. cbn. exact IH.
    + apply Z.ltb_ge in Ei.
      destruct (indexOf (lit "comments") r =? -1)%Z eqn:E1;
        [apply Z.eqb_eq in E1; lia |].
      destruct (indexOf (lit "comments") r + 1 =? -1)%Z eqn:E2;
        [apply Z.eqb_eq in E2; lia |].
      rewrite <- IH. unfold at_index.
      destruct (indexOf (lit "comments") r + 1 + 1 <? 0)%Z eqn:E3;
        [apply Z.ltb_lt in E3; lia |].
      destruct (indexOf (lit "comments") r + 1 <? 0)%Z eqn:E4;
        [apply Z.ltb_lt in E4; lia |].
      replace (Z.to_nat (indexOf (lit "comments") r + 1 + 1))
        with (S (Z.to_nat (indexOf (lit "comments") r + 1))) by lia.
      reflexivity.
Qed.

Lemma idFromPathname_afterComments pathname :
  idFromPathname pathname = afterComments (segments pathname).
Proof.
  unfold idFromPathname. fold (segments pathname).
  apply (index_lookup_afterComments (segments_nonempty pathname)).
Qed.

Lemma afterComments_Some parts seg :
  afterComments parts = Some seg <->
  exists pre post,
    parts = pre ++ lit "comments" :: seg :: post /\ ~ In (lit "comments") pre.
Proof.
  induction parts as [| p r IH]; cbn [afterComments].
  - split; [discriminate |]. intros (pre & post & E & _).
    destruct pre; discriminate.
  - destruct (jsstring_eqb p (lit "comments")) eqn:E.
    + apply jsstring_eqb_eq in E. subst p. split.
      * destruct r as [| x r']; [discriminate |]. intros [= ->].
        exists [], r'. split; [reflexivity | intros []].
      * intros (pre & post & Eq & Hn). destruct pre as [| q pre].
        -- cbn in Eq. injection Eq as ->. reflexivity.
        -- cbn in Eq. injection Eq as <- _. exfalso. apply Hn. now left.
    + apply jsstring_eqb_neq in E. rewrite IH. split.
      * intros (pre & post & -> & Hn). exists (p :: pre), post.
        split; [reflexivity |]. intros [H | H]; contradiction.
      * intros (pre & post & Eq & Hn). destruct pre as [| q pre].
        -- cbn in Eq. injection Eq as -> _. now elim E.
        -- cbn in Eq. injection Eq as <- ->. exists pre, post.
           split; [reflexivity |]. intros H. apply Hn. now right.
Qed.

Lemma afterComments_None parts :
  afterComments parts = None <->
  ~ In (lit "comments") parts
  \/ exists pre, parts = pre ++ [lit "comments"] /\ ~ In (lit "comments") pre.
Proof.
  induction parts as [| p r IH]; cbn [afterComments].
  - split; [left; intros [] | reflexivity].
  - destruct (jsstring_eqb p (lit "comments")) eqn:E.
    + apply jsstring_eqb_eq in E. subst p. split.
      * destruct r as [| x r']; [| discriminate]. intros _. right.
        exists []. split; [reflexivity | intros []].
      * intros [Hn | (pre & Eq & Hn)]; [exfalso; apply Hn; now left |].
        destruct pre as [| q pre].
        -- cbn in Eq. injection Eq as ->. reflexivity.
        -- cbn in Eq. injection Eq as <- _. exfalso. apply Hn. now left.
    + apply jsstring_eqb_neq in E. rewrite IH. split.
      * intros [Hn | (pre & -> & Hn)].
        -- left. intros [H | H]; contradiction.
        -- right. exists (p :: pre). split; [reflexivity |].
           intros [H | H]; contradiction.
      * intros [Hn | (pre & Eq & Hn)].
        -- left. intros H. apply Hn. now right.
        -- destruct pre as [| q pre].
           ++ cbn in Eq. injection Eq as -> _. now elim E.
           ++ cbn in Eq. injection Eq as <- ->. right. exists pre.
              split; [reflexivity |]. intros H. apply Hn. now right.
Qed.

Lemma normalize_bare URL_pathname input :
  includes SLASH (trim input) = false ->
  includes SPACE (trim input) = false ->
  normalizeToPostId URL_pathname input = Some (trim input).
Proof.
  intros H1 H2. unfold normalizeToPostId. cbn zeta. now rewrite H1, H2.
Qed.

Lemma normalize_url URL_pathname input :
  includes SLASH (trim input) = true \/ includes SPACE (trim input) = true ->
  normalizeToPostId URL_pathname input =
  match URL_pathname (trim input) with
  | Some pathname => idFromPathname pathname
  | None => None
  end.
Proof.
  intros H. unfold normalizeToPostId. cbn zeta.
  destruct H as [H | H]; rewrite H; [reflexivity |].
  now rewrite andb_false_r.
Qed.

(** C2 (amended).  The bare-token test of the normalizer looks for [/] and
    for the space character U+0020 only.  When the trimmed input holds
    neither, it is returned unchanged, so in particular when it holds no [/]
    and no white space of any kind.  When it holds a [/] or a space, the
    result is the one of the URL branch: [null] when the parse fails. *)
Theorem normalize_bare_or_url
  (URL_pathname : jsstring -> option jsstring) (input : jsstring) :
  (includes SLASH (trim input) = false ->
   includes SPACE (trim input) = false ->
   normalizeToPostId URL_pathname input = Some (trim input))
  /\ (includes SLASH (trim input) = false ->
      existsb isWhiteSpace (trim input) = false ->
      normalizeToPostId URL_pathname input = Some (trim input))
  /\ (includes SLASH (trim input) = true
      \/ includes SPACE (trim input) = true ->
      (URL_pathname (trim input) = None ->
       normalizeToPostId URL_pathname input = None)
      /\ forall pathname,
          URL_pathname (trim input) = Some pathname ->
          normalizeToPostId URL_pathname input = idFromPathname pathname).
Proof.
  split; [| split].
  - apply normalize_bare.
  - intros Hs Hw. apply normalize_bare; [assumption |].
    apply includes_false_iff. intros Hin.
    assert (existsb isWhiteSpace (trim input) = true) as E; [| congruence].
    apply existsb_exists. exists SPACE. split; [assumption | reflexivity].
  - intros H. rewrite (normalize_url URL_pathname input H). split.
    + now intros ->.
    + now intros pathname ->.
Qed.

(** A padded bare identifier is returned trimmed; a phrase with spaces that
    is no URL is refused. *)
Lemma normalize_bare_or_url_witness :
  normalizeToPostId URLFragment.pathname (lit "  abc123 ") = Some (lit "abc123")
  /\ normalizeToPostId URLFragment.pathname (lit "not a url") = None.
Proof.
  pose proof (normalize_bare_or_url URLFragment.pathname (lit "  abc123 "))
    as (H1 & _ & _).
  pose proof (normalize_bare_or_url URLFragment.pathname (lit "not a url"))
    as (_ & _ & H2).
  split.
  - rewrite H1; reflexivity.
  - apply H2; [right |]; reflexivity.
Defined.

(** C2, as stated, fails: a token with a tab in it has white space in its
    trimmed form and is no URL, yet it is returned as an identifier, whatever
    the URL parser says. *)
Lemma normalize_tab_token_is_bare :
  existsb isWhiteSpace (trim (lit "a" ++ [9%N] ++ lit "b")) = true
  /\ URLFragment.pathname (trim (lit "a" ++ [9%N] ++ lit "b")) = None
  /\ normalizeToPostId URLFragment.pathname (lit "a" ++ [9%N] ++ lit "b")
     = Some (lit "a" ++ [9%N] ++ lit "b")
  /\ (forall URL_pathname,
        normalizeToPostId URL_pathname (lit "a" ++ [9%N] ++ lit "b") <> None).
Proof.
  repeat split; try reflexivity. intros URL_pathname. discriminate.
Qed.

(** C6 (amended).  For every input whose trimmed form holds a [/] or a space
    and parses as a URL, the normalizer returns the segment that follows the
    first path segment equal to ["comments"]; that segment is never empty;
    and the result is [null] exactly when the path has no ["comments"]
    segment or its first one is the last segment.  The thread URL of the
    scenario yields ["abc123"]. *)
Theorem normalize_url_segment (URL_pathname : jsstring -> option jsstring) :
  (forall input pathname,
      includes SLASH (trim input) = true
      \/ includes SPACE (trim input) = true ->
      URL_pathname (trim input) = Some pathname ->
      normalizeToPostId URL_pathname input = afterComments (segments pathname)
      /\ (forall seg,
             normalizeToPostId URL_pathname input = Some seg <->
             exists pre post,
               segments pathname = pre ++ lit "comments" :: seg :: post
               /\ ~ In (lit "comments") pre)
      /\ (forall seg,
             normalizeToPostId URL_pathname input = Some seg -> seg <> [])
      /\ (normalizeToPostId URL_pathname input = None <->
          ~ In (lit "comments") (segments pathname)
          \/ exists pre,
              segments pathname = pre ++ [lit "comments"]
              /\ ~ In (lit "comments") pre))
  /\ (URL_pathname
        (lit "https://example.com/r/test/comments/abc123/title_slug/")
      = Some (lit "/r/test/comments/abc123/title_slug/") ->
      normalizeToPostId URL_pathname
        (lit "https://example.com/r/test/comments/abc123/title_slug/")
      = Some (lit "abc123")).
Proof.
  assert (forall input pathname,
             includes SLASH (trim input) = true
             \/ includes SPACE (trim input) = true ->
             URL_pathname (trim input) = Some pathname ->
             normalizeToPostId URL_pathname input
             = afterComments (segments pathname)) as Hmain.
  { intros input pathname H E. rewrite (normalize_url _ _ H), E.
    apply idFromPathname_afterComments. }
  split.
  - intros input pathname H E. rewrite (Hmain input pathname H E).
    split; [reflexivity | split; [| split]].
    + intros seg. apply afterComments_Some.
    + intros seg Hs Hnil. subst seg.
      apply afterComments_Some in Hs. destruct Hs as (pre & post & Eq & _).
      pose proof (segments_nonempty pathname) as F. rewrite Eq in F.
      apply Forall_app in F. destruct F as [_ F].
      inversion F as [| ? ? _ F']. inversion F' as [| ? ? Hb _].
      discriminate Hb.
    + apply afterComments_None.
  - intros E. rewrite (Hmain _ (lit "/r/test/comments/abc123/title_slug/")).
    + reflexivity.
    + left. reflexivity.
    + exact E.
Qed.

(** The thread URL of the scenario, and a URL whose only ["comments"]
    segment is the last one. *)
Lemma normalize_url_segment_witness :
  normalizeToPostId URLFragment.pathname
    (lit "https://example.com/r/test/comments/abc123/title_slug/")
  = Some (lit "abc123")
  /\ normalizeToPostId URLFragment.pathname
       (lit " https://example.com/comments/ ")
     = afterComments (segments (lit "/comments/")).
Proof.
  pose proof (normalize_url_segment URLFragment.pathname) as [H1 H2].
  split.
  - apply H2. reflexivity.
  - refine (proj1 (H1 (lit " https://example.com/comments/ ")
                      (lit "/comments/") _ _)).
    + left. reflexivity.
    + reflexivity.
Defined.

(** C6, as stated, fails twice.  [urn:x] parses as a URL whose path has no
    ["comments"] segment, but holds no [/] and no space, so it is returned
    as an identifier instead of being refused.  And in
    [/comments/x/comments] the final segment is ["comments"], yet the result
    is ["x"], the segment after the first one. *)
Lemma normalize_url_claim_fails :
  (URLFragment.pathname (trim (lit "urn:x")) = Some (lit "x")
   /\ ~ In (lit "comments") (segments (lit "x"))
   /\ normalizeToPostId URLFragment.pathname (lit "urn:x")
      = Some (lit "urn:x"))
  /\ (URLFragment.pathname
        (trim (lit "https://example.com/comments/x/comments"))
      = Some (lit "/comments/x/comments")
      /\ last (segments (lit "/comments/x/comments")) []
         = lit "comments"
      /\ normalizeToPostId URLFragment.pathname
           (lit "https://example.com/comments/x/comments")
         = Some (lit "x")).
Proof.
  repeat split; try reflexivity.
  cbv. intros [H | []]. discriminate H.
Qed.

(** ** Blank input *)

Section BlankInput.

Variable URL_pathname : jsstring -> option jsstring.
Variable Number_toString : Q -> jsstring.
Variable network : jsstring -> Response.

Lemma normalize_blank input :
  trim input = [] -> normalizeToPostId URL_pathname input = Some [].
Proof.
  intros E. unfold normalizeToPostId. cbn zeta. rewrite E. reflexivity.
Qed.

Lemma fetchThread_blank st raw :
  trim raw = [] ->
  fetchThread URL_pathname Number_toString network st raw =
  ({| input := input st; loading := false;
      error := lit "Invalid URL or Post ID."; stats := None;
      metaTitle := None; metaSubreddit := None;
      outputs := {| txt := []; toon := []; json := [] |} |}, []).
Proof.
  intros E. unfold fetchThread. rewrite (normalize_blank _ E). reflexivity.
Qed.

End BlankInput.

(** C10 (amended).  For every input whose trimmed form is empty the
    normalizer returns the empty string, not [null].  The click handler
    refuses such an input with the empty-input message before the normalizer
    runs, leaving the rest of the state alone; an input that is not blank it
    hands to [fetchThread], which never gives that message.  A blank,
    non-empty value of the auto-load path, be it the [url] value or, with
    [url] absent or empty, the [id] value, skips that guard and reaches
    [fetchThread], which refuses the empty identifier with the invalid-input
    message and sends no request.  With both query values empty or absent
    no fetch starts and the state is left as it is. *)
Theorem blank_input_paths
  (URL_pathname : jsstring -> option jsstring)
  (Number_toString : Q -> jsstring) (network : jsstring -> Response)
  (st : AppState) :
  (forall raw, trim raw = [] ->
               normalizeToPostId URL_pathname raw = Some [])
  /\ (trim (input st) = [] ->
      handleClick URL_pathname Number_toString network st =
      ({| input := input st; loading := loading st;
          error := lit "Enter a URL or Post ID."; stats := stats st;
          metaTitle := metaTitle st; metaSubreddit := metaSubreddit st;
          outputs := outputs st |}, []))
  /\ (forall c s idParam,
         trim (c :: s) = [] ->
         autoLoad URL_pathname Number_toString network st
           (Some (c :: s)) idParam =
         ({| input := c :: s; loading := false;
             error := lit "Invalid URL or Post ID."; stats := None;
             metaTitle := None; metaSubreddit := None;
             outputs := {| txt := []; toon := []; json := [] |} |}, []))
  /\ (forall urlParam c s,
         urlParam = None \/ urlParam = Some [] ->
         trim (c :: s) = [] ->
         autoLoad URL_pathname Number_toString network st
           urlParam (Some (c :: s)) =
         ({| input := c :: s; loading := false;
             error := lit "Invalid URL or Post ID."; stats := None;
             metaTitle := None; metaSubreddit := None;
             outputs := {| txt := []; toon := []; json := [] |} |}, []))
  /\ (forall urlParam idParam,
         urlParam = None \/ urlParam = Some [] ->
         idParam = None \/ idParam = Some [] ->
         autoLoad URL_pathname Number_toString network st urlParam idParam
         = (st, []))
  /\ (trim (input st) <> [] ->
      handleClick URL_pathname Number_toString network st
      = fetchThread URL_pathname Number_toString network st (input st))
  /\ (forall raw,
         error (fst (fetchThread URL_pathname Number_toString network st raw))
         <> lit "Enter a URL or Post ID.").
Proof.
  split; [| split; [| split; [| split; [| split; [| split]]]]].
  - intros raw. apply normalize_blank.
  - intros E. unfold handleClick. rewrite E. reflexivity.
  - intros c s idParam E. unfold autoLoad.
    rewrite (fetchThread_blank URL_pathname Number_toString network _ _ E).
    reflexivity.
  - intros urlParam c s Hu E.
    assert (autoLoad URL_pathname Number_toString network st urlParam
              (Some (c :: s))
            = fetchThread URL_pathname Number_toString network
                {| input := c :: s; loading := loading st;
                   error := error st; stats := stats st;
                   metaTitle := metaTitle st;
                   metaSubreddit := metaSubreddit st;
                   outputs := outputs st |} (c :: s)) as ->
      by (destruct Hu as [-> | ->]; reflexivity).
    rewrite (fetchThread_blank URL_pathname Number_toString network _ _ E).
    reflexivity.
  - intros urlParam idParam [-> | ->] [-> | ->]; reflexivity.
  - intros Hne. unfold handleClick.
    destruct (trim (input st)) as [| c s]; [now elim Hne | reflexivity].
  - intros raw. unfold fetchThread.
    destruct (normalizeToPostId URL_pathname raw) as [[| c s] |];
      try (cbn [fst error]; intros H; vm_compute in H; discriminate H).
    destruct (network (requestURL (c :: s)))
      as [| [|] [[post commentsRaw] |] | post commentsRaw];
      cbn [fst error]; intros H; vm_compute in H; discriminate H.
Qed.

(** Three spaces, typed in and clicked; then a tab as the [id] query value
    beside an empty [url] value. *)
Lemma blank_input_paths_witness :
  normalizeToPostId URLFragment.pathname (lit "   ") = Some []
  /\ fst (handleClick URLFragment.pathname (fun _ => lit "0") alwaysHello
            initialState)
     = {| input := []; loading := false;
          error := lit "Enter a URL or Post ID."; stats := None;
          metaTitle := None; metaSubreddit := None;
          outputs := {| txt := []; toon := []; json := [] |} |}
  /\ autoLoad URLFragment.pathname (fun _ => lit "0") alwaysHello
       initialState (Some []) (Some [9%N])
     = ({| input := [9%N]; loading := false;
           error := lit "Invalid URL or Post ID."; stats := None;
           metaTitle := None; metaSubreddit := None;
           outputs := {| txt := []; toon := []; json := [] |} |}, []).
Proof.
  pose proof (blank_input_paths URLFragment.pathname (fun _ => lit "0")
                alwaysHello initialState) as (H1 & H2 & _ & H4 & _).
  split; [| split].
  - apply H1. reflexivity.
  - rewrite H2; reflexivity.
  - apply H4; [now right | reflexivity].
Defined.

(** C10, as stated, fails in its last part: a blank value of the [url]
    query parameter is refused.  The normalizer hands back the empty
    string, [fetchThread] takes it for a missing identifier, reports the
    invalid-input message and requests nothing, though the network would
    have answered. *)
Lemma blank_query_value_is_refused :
  normalizeToPostId URLFragment.pathname (lit "  ") = Some []
  /\ autoLoad URLFragment.pathname (fun _ => lit "0") alwaysHello
       initialState (Some (lit "  ")) None
     = ({| input := lit "  "; loading := false;
           error := lit "Invalid URL or Post ID."; stats := None;
           metaTitle := None; metaSubreddit := None;
           outputs := {| txt := []; toon := []; json := [] |} |}, []).
Proof.
  split; reflexivity.
Qed.

(** ** Tree flattener *)

(** Induction on a reply tree, with the hypothesis for every child. *)
Lemma Item_forest_ind (P : Item -> Prop) :
  P Falsy ->
  (forall kind c, P (Thing kind c None)) ->
  (forall kind c items, Forall P items -> P (Thing kind c (Some items))) ->
  forall item, P item.
Proof.
  intros HFalsy HLeaf HNode. fix IH 1.
  intros [| kind c [items |]].
  - exact HFalsy.
  - apply HNode. induction items as [| i r IHr]; constructor.
    + apply IH.
    + exact IHr.
  - apply HLeaf.
Qed.

Lemma walkItem_node kind c items depth out :
  walkItem (Thing kind c (Some items)) depth out =
  if negb (jsstring_eqb kind (lit "t1")) then out
  else walkComments items (S depth) (out ++ [recordOf c depth]).
Proof.
  cbn [walkItem]. destruct (negb (jsstring_eqb kind (lit "t1"))); [reflexivity |].
  unfold walkComments. generalize (out ++ [recordOf c depth]).
  induction items as [| i r IH]; intros o; [reflexivity |].
  cbn [fold_left]. apply IH.
Qed.

Lemma walkComments_forall (items : list Item) depth :
  Forall (fun item => forall d out,
              walkItem item d out = out ++ flattenItem d item) items ->
  forall out, walkComments items depth out = out ++ flatten depth items.
Proof.
  unfold walkComments, flatten.
  induction 1 as [| i r Hi Hr IH]; intros out; cbn [fold_left flat_map].
  - now rewrite app_nil_r.
  - rewrite Hi, IH. now rewrite app_assoc.
Qed.

Lemma walkItem_flattenItem item :
  forall depth out, walkItem item depth out = out ++ flattenItem depth item.
Proof.
  induction item as [| kind c | kind c items IH] using Item_forest_ind;
    intros depth out.
  - cbn. now rewrite app_nil_r.
  - cbn. destruct (jsstring_eqb kind (lit "t1")); cbn;
      [reflexivity | now rewrite app_nil_r].
  - rewrite walkItem_node. cbn [flattenItem].
    destruct (jsstring_eqb kind (lit "t1")); cbn [negb].
    + rewrite (walkComments_forall (S depth) IH). unfold flatten.
      now rewrite <- app_assoc.
    + now rewrite app_nil_r.
Qed.

Lemma walkComments_flatten items depth out :
  walkComments items depth out = out ++ flatten depth items.
Proof.
  apply walkComments_forall. apply Forall_forall. intros item _.
  apply walkItem_flattenItem.
Qed.

Lemma length_flat_map_sum (A B : Type) (f : A -> list B) (g : A -> nat) l :
  Forall (fun x => length (f x) = g x) l ->
  length (flat_map f l) = list_sum (map g l).
Proof.
  induction 1 as [| x r Hx Hr IH]; cbn; [reflexivity |].
  rewrite length_app, Hx, IH. reflexivity.
Qed.

Lemma flattenItem_length item :
  forall depth, length (flattenItem depth item) = countComments item.
Proof.
  induction item as [| kind c | kind c items IH] using Item_forest_ind;
    intros depth; cbn; try reflexivity.
  - destruct (jsstring_eqb kind (lit "t1")); reflexivity.
  - destruct (jsstring_eqb kind (lit "t1")); [| reflexivity]. cbn. f_equal.
    apply length_flat_map_sum.
    eapply Forall_impl; [| exact IH]. intros i Hi. apply Hi.
Qed.

Lemma flat_map_map_forall (A B C : Type) (f : A -> list B) (g : A -> list C)
  (h : C -> B) l :
  Forall (fun x => f x = map h (g x)) l ->
  flat_map f l = map h (flat_map g l).
Proof.
  induction 1 as [| x r Hx Hr IH]; cbn; [reflexivity |].
  rewrite map_app, Hx, IH. reflexivity.
Qed.

Lemma flattenItem_withAncestors item :
  forall depth above,
    flattenItem (depth + length above) item =
    map (fun p => recordOf (snd p) (depth + length (fst p)))
      (withAncestors above item).
Proof.
  induction item as [| kind c | kind c items IH] using Item_forest_ind;
    intros depth above; cbn; try reflexivity.
  - destruct (jsstring_eqb kind (lit "t1")); reflexivity.
  - destruct (jsstring_eqb kind (lit "t1")); [| reflexivity]. cbn. f_equal.
    apply flat_map_map_forall.
    eapply Forall_impl; [| exact IH]. intros i Hi.
    replace (S (depth + length above)) with (depth + length (c :: above))
      by (cbn; lia).
    apply Hi.
Qed.

(** C5.  The walk appends to [out] the pre-order flattening of the forest:
    one record per comment node, a comment before its replies, replies in
    source order; a falsy slot or a node of another kind is skipped with
    everything below it; and the depth of a record is the caller's depth
    plus the number of comment nodes strictly above its node. *)
Theorem walkComments_preorder (items : list Item) (start : nat)
  (out : list CommentItem) :
  walkComments items start out = out ++ flatten start items
  /\ length (flatten start items) = list_sum (map countComments items)
  /\ flatten start items =
     map (fun p => recordOf (snd p) (start + length (fst p)))
       (flat_map (withAncestors []) items)
  /\ map (depth) (walkComments items 0 []) =
     map (fun p => length (fst p)) (flat_map (withAncestors []) items)
  /\ (forall kind c children rest,
         walkComments (Thing kind c children :: rest) start out =
         if jsstring_eqb kind (lit "t1") then
           walkComments rest start
             ((out ++ [recordOf c start])
                ++ match children with
                   | Some replies => flatten (S start) replies
                   | None => []
                   end)
         else walkComments rest start out)
  /\ (forall rest,
         walkComments (Falsy :: rest) start out = walkComments rest start out).
Proof.
  assert (forall d l,
             flatten d l =
             map (fun p => recordOf (snd p) (d + length (fst p)))
               (flat_map (withAncestors []) l)) as Hanc.
  { intros d l. unfold flatten. apply flat_map_map_forall.
    apply Forall_forall. intros i _.
    rewrite <- (flattenItem_withAncestors i d []). cbn. now rewrite Nat.add_0_r. }
  split; [| split; [| split; [| split; [| split]]]].
  - apply walkComments_flatten.
  - unfold flatten. apply length_flat_map_sum. apply Forall_forall.
    intros i _. apply flattenItem_length.
  - apply Hanc.
  - rewrite walkComments_flatten. cbn [app]. rewrite Hanc, map_map.
    reflexivity.
  - intros kind c children rest. unfold walkComments at 1. cbn [fold_left].
    fold (walkComments rest start (walkItem (Thing kind c children) start out)).
    rewrite walkItem_flattenItem. cbn [flattenItem].
    destruct (jsstring_eqb kind (lit "t1")).
    + destruct children; unfold flatten; cbn; now rewrite <- ?app_assoc.
    + now rewrite app_nil_r.
  - intros rest. reflexivity.
Qed.

(** The sample forest flattens to a, b, c, d, e at depths 0, 1, 1, 2, 0,
    every author missing. *)
Example walk_sample_forest :
  map (fun c => (id c, depth c, author c)) (walkComments sampleForest 0 [])
  = [ (lit "a", 0, lit "[deleted]"); (lit "b", 1, lit "[deleted]");
      (lit "c", 1, lit "[deleted]"); (lit "d", 2, lit "[deleted]");
      (lit "e", 0, lit "[deleted]") ].
Proof. reflexivity. Qed.

(** ** Sorting *)

Section SortFacts.

Variable A : Type.
Variable comparefn : A -> A -> option Z.

Lemma insertSorted_perm x l :
  Permutation (x :: l) (insertSorted comparefn x l).
Proof.
  induction l as [| y r IH]; cbn; [apply Permutation_refl |].
  destruct (sortCompare comparefn y x <=? 0)%Z.
  - eapply perm_trans; [apply perm_swap |]. now apply perm_skip.
  - apply Permutation_refl.
Qed.

Lemma sort_loop_perm l :
  forall acc,
    Permutation (l ++ acc)
      (fold_left (fun acc x => insertSorted comparefn x acc) l acc).
Proof.
  induction l as [| x r IH]; intros acc; cbn; [apply Permutation_refl |].
  eapply perm_trans; [| apply IH].
  eapply perm_trans; [apply Permutation_middle |].
  apply Permutation_app_head. apply insertSorted_perm.
Qed.

Lemma Array_sort_perm l : Permutation l (Array_sort comparefn l).
Proof.
  unfold Array_sort. rewrite <- (app_nil_r l) at 1. apply sort_loop_perm.
Qed.

End SortFacts.

Lemma hasIntegerScore_compare x y :
  hasIntegerScore x = true -> hasIntegerScore y = true ->
  sortCompare byScore x y = (scoreOf y - scoreOf x)%Z.
Proof.
  unfold hasIntegerScore, sortCompare, byScore, scoreOf.
  destruct (score x), (score y); try discriminate. reflexivity.
Qed.

Lemma insertSorted_descending x l :
  hasIntegerScore x = true -> forallb hasIntegerScore l = true ->
  descending l -> descending (insertSorted byScore x l).
Proof.
  intros Hx. unfold descending.
  induction l as [| y r IH]; intros Hl Hs; cbn [insertSorted].
  - constructor; constructor.
  - cbn in Hl. apply andb_prop in Hl. destruct Hl as [Hy Hr].
    inversion Hs as [| ? ? Hs' Hall]; subst.
    rewrite (hasIntegerScore_compare _ _ Hy Hx).
    destruct (scoreOf x - scoreOf y <=? 0)%Z eqn:E.
    + apply Z.leb_le in E. constructor; [now apply IH |].
      eapply Permutation_Forall; [apply insertSorted_perm |].
      constructor; [lia | assumption].
    + apply Z.leb_gt in E. constructor; [assumption |].
      constructor; [lia |].
      eapply Forall_impl; [| exact Hall]. cbn. intros b Hb. lia.
Qed.

Lemma insertSorted_integer x l :
  hasIntegerScore x = true -> forallb hasIntegerScore l = true ->
  forallb hasIntegerScore (insertSorted byScore x l) = true.
Proof.
  intros Hx Hl. apply forallb_forall. intros c Hc.
  apply (Permutation_in _ (Permutation_sym (insertSorted_perm byScore x l)))
    in Hc.
  destruct Hc as [<- | Hc]; [assumption |].
  now apply (proj1 (forallb_forall _ _) Hl).
Qed.

Lemma Array_sort_descending l :
  forallb hasIntegerScore l = true -> descending (Array_sort byScore l).
Proof.
  unfold Array_sort.
  assert (forall acc,
             forallb hasIntegerScore acc = true -> descending acc ->
             forallb hasIntegerScore l = true ->
             descending
               (fold_left (fun acc x => insertSorted byScore x acc) l acc))
    as H.
  { induction l as [| x r IH]; intros acc Ha Hs Hl; cbn; [assumption |].
    cbn in Hl. apply andb_prop in Hl. destruct Hl as [Hx Hr].
    apply IH; [now apply insertSorted_integer
              | now apply insertSorted_descending | assumption]. }
  intros Hl. apply H; [reflexivity | constructor | assumption].
Qed.

(** C9.  On records with integer scores the sort step yields a
    rearrangement of the flattened sequence whose scores never increase;
    the stats and the three renderers of [fetchThread] all read that one
    sorted array; and two comments of scores 5 and -1 come out with the
    score-5 comment first, whichever order they arrive in. *)
Theorem sort_descending_shared (Number_toString : Q -> jsstring)
  (post : Post) (commentsRaw : list Item) :
  (forall comments,
      forallb hasIntegerScore comments = true ->
      Permutation comments (Array_sort byScore comments)
      /\ descending (Array_sort byScore comments))
  /\ (let sorted := Array_sort byScore (walkComments commentsRaw 0 []) in
      buildOutputs Number_toString post commentsRaw =
      (computeStats post sorted,
       {| txt := renderLLM post sorted;
          toon := renderToon post sorted;
          json := JSON_stringify Number_toString
                    (jsonObj post (computeStats post sorted) sorted) |}))
  /\ (forall a b,
         score a = ScoreNum 5 -> score b = ScoreNum (-1) ->
         Array_sort byScore [a; b] = [a; b]
         /\ Array_sort byScore [b; a] = [a; b]).
Proof.
  split; [| split].
  - intros comments H. split.
    + apply Array_sort_perm.
    + now apply Array_sort_descending.
  - reflexivity.
  - intros a b Ha Hb. unfold Array_sort, sortCompare, byScore. cbn.
    unfold sortCompare, byScore. rewrite Ha, Hb. cbn. split; reflexivity.
Qed.

(** Three comments of scores -1, 5 and 2. *)
Lemma sort_descending_shared_witness :
  Array_sort byScore
    [sampleComment "c1" (-1) (lit "meh"); sampleComment "c2" 5 (lit "top");
     sampleComment "c3" 2 (lit "mid")]
  = [sampleComment "c2" 5 (lit "top"); sampleComment "c3" 2 (lit "mid");
     sampleComment "c1" (-1) (lit "meh")]
  /\ descending
       (Array_sort byScore
          [sampleComment "c1" (-1) (lit "meh");
           sampleComment "c2" 5 (lit "top");
           sampleComment "c3" 2 (lit "mid")]).
Proof.
  split; [reflexivity |].
  refine (proj2 (proj1 (sort_descending_shared (fun _ => lit "0") helloPost [])
                   _ _)).
  reflexivity.
Defined.

(** ** Statistics *)

Lemma reduce_sum l :
  forall init,
    fold_left (fun sum c => (sum + scoreOrZero (score c))%Z) l init
    = (init + Zsum (map scoreOf l))%Z.
Proof.
  unfold Zsum.
  induction l as [| c r IH]; intros init; cbn; [lia |].
  rewrite IH. unfold scoreOf. lia.
Qed.

Lemma totalCommentScore_sum post comments :
  totalCommentScore (computeStats post comments) = Zsum (map scoreOf comments).
Proof.
  unfold computeStats. cbn. apply reduce_sum.
Qed.

Lemma Zsum_perm l l' : Permutation l l' -> Zsum l = Zsum l'.
Proof.
  unfold Zsum. induction 1; cbn; lia.
Qed.

Lemma computeStats_perm post l l' :
  Permutation l l' -> computeStats post l = computeStats post l'.
Proof.
  intros H. unfold computeStats. rewrite !reduce_sum.
  rewrite (Permutation_length H).
  rewrite (Zsum_perm (Permutation_map scoreOf H)). reflexivity.
Qed.

Lemma quotient_positive a b :
  (0 < a)%Z -> (0 < b)%Z -> ~ (quotient a b == 0)%Q.
Proof.
  intros Ha Hb. unfold quotient. intros H.
  apply Qmult_integral in H. destruct H as [H | H].
  - unfold Qeq in H. cbn in H. lia.
  - destruct b as [| p | p]; try lia. unfold Qeq in H. cbn in H. lia.
Qed.

Lemma Zsum_positive_nonempty l : (0 < Zsum l)%Z -> (0 < length l)%nat.
Proof.
  unfold Zsum. destruct l; cbn; lia.
Qed.

Lemma avgCommentScore_eq post l :
  avgCommentScore (computeStats post l) =
  if (0 <? length l)%nat
  then quotient (totalCommentScore (computeStats post l)) (Z.of_nat (length l))
  else 0%Q.
Proof. reflexivity. Qed.

Lemma commentsPerScorePoint_eq post l :
  commentsPerScorePoint (computeStats post l) =
  if (0 <? totalCommentScore (computeStats post l))%Z
  then quotient (Z.of_nat (length l)) (totalCommentScore (computeStats post l))
  else 0%Q.
Proof. reflexivity. Qed.

(** C1 (amended).  [totalCommentScore] is the sum of the scores with a
    missing or [null] score counted as 0, whatever the order of the records;
    [avgCommentScore] is the total over the count when there is a comment
    and 0 when there is none; [commentsPerScorePoint] is the count over the
    total when the total is positive and 0 whenever the total is zero or
    negative, so it is 0 exactly when the total is not positive.  The stats
    [fetchThread] stores are those of the flattened sequence. *)
Theorem stats_formulas (Number_toString : Q -> jsstring) (post : Post)
  (comments : list CommentItem) (commentsRaw : list Item) :
  postScore (computeStats post comments) = p_score post
  /\ totalComments (computeStats post comments) = length comments
  /\ totalCommentScore (computeStats post comments)
     = Zsum (map (fun c => scoreOrZero (score c)) comments)
  /\ ((0 < length comments)%nat ->
      avgCommentScore (computeStats post comments)
      = quotient (totalCommentScore (computeStats post comments))
          (Z.of_nat (length comments)))
  /\ (length comments = 0%nat ->
      avgCommentScore (computeStats post comments) = 0%Q)
  /\ ((0 < totalCommentScore (computeStats post comments))%Z ->
      commentsPerScorePoint (computeStats post comments)
      = quotient (Z.of_nat (length comments))
          (totalCommentScore (computeStats post comments)))
  /\ ((totalCommentScore (computeStats post comments) <= 0)%Z ->
      commentsPerScorePoint (computeStats post comments) = 0%Q)
  /\ ((commentsPerScorePoint (computeStats post comments) == 0)%Q <->
      (totalCommentScore (computeStats post comments) <= 0)%Z)
  /\ computeStats post (Array_sort byScore comments)
     = computeStats post comments
  /\ fst (buildOutputs Number_toString post commentsRaw)
     = computeStats post (walkComments commentsRaw 0 []).
Proof.
  pose proof (totalCommentScore_sum post comments) as Hsum.
  assert (forall l, computeStats post (Array_sort byScore l)
                    = computeStats post l) as Hperm.
  { intros l. symmetry. apply computeStats_perm. apply Array_sort_perm. }
  pose proof (avgCommentScore_eq post comments) as Havg.
  pose proof (commentsPerScorePoint_eq post comments) as Hcps.
  repeat match goal with |- _ /\ _ => split end.
  - reflexivity.
  - reflexivity.
  - exact Hsum.
  - intros H. rewrite Havg. apply Nat.ltb_lt in H. now rewrite H.
  - intros H. rewrite Havg, H. reflexivity.
  - intros H. rewrite Hcps. apply Z.ltb_lt in H. now rewrite H.
  - intros H. rewrite Hcps. apply Z.ltb_ge in H. now rewrite H.
  - rewrite Hcps.
    destruct (0 <? totalCommentScore (computeStats post comments))%Z eqn:E.
    + apply Z.ltb_lt in E. split; [| lia]. intros H. exfalso.
      refine (quotient_positive _ E H).
      rewrite Hsum in E. apply Zsum_positive_nonempty in E.
      rewrite length_map in E. lia.
    + apply Z.ltb_ge in E. split; [intros _; exact E | reflexivity].
  - apply Hperm.
  - unfold buildOutputs. cbn [fst]. apply Hperm.
Qed.

(** The stats of the scenario: scores 5 and -1 under a post of score 10. *)
Lemma stats_formulas_witness :
  computeStats helloPost
    [sampleComment "c1" 5 (lit "top"); sampleComment "c2" (-1) (lit "meh")]
  = {| postScore := 10; totalComments := 2; totalCommentScore := 4;
       avgCommentScore := quotient 4 2;
       commentsPerScorePoint := quotient 2 4 |}
  /\ avgCommentScore (computeStats helloPost []) = 0%Q.
Proof.
  pose proof (stats_formulas (fun _ => lit "0") helloPost
                [sampleComment "c1" 5 (lit "top");
                 sampleComment "c2" (-1) (lit "meh")] [])
    as (_ & _ & _ & _ & _ & H & _).
  pose proof (stats_formulas (fun _ => lit "0") helloPost [] [])
    as (_ & _ & _ & _ & H0 & _).
  split.
  - reflexivity.
  - apply H0. reflexivity.
Defined.

(** C1, as stated, fails on a negative total: one comment of score -1 gives
    a total of -1, which is not zero, and [commentsPerScorePoint] is 0, not
    the quotient 1 / -1. *)
Lemma negative_total_gives_zero_ratio :
  totalCommentScore
    (computeStats helloPost [sampleComment "c1" (-1) (lit "meh")]) = (-1)%Z
  /\ commentsPerScorePoint
       (computeStats helloPost [sampleComment "c1" (-1) (lit "meh")]) = 0%Q
  /\ ~ (commentsPerScorePoint
          (computeStats helloPost [sampleComment "c1" (-1) (lit "meh")])
        == quotient 1 (-1))%Q.
Proof.
  split; [reflexivity | split; [reflexivity |]].
  cbv. discriminate.
Qed.

(** ** Newline collapsing *)

Lemma repeat_snoc (A : Type) (x : A) n : repeat x n ++ [x] = repeat x (S n).
Proof.
  induction n as [| n IH]; cbn; [reflexivity |]. now rewrite IH.
Qed.

Lemma flush_newlines n :
  flush 2 [LF] (repeat LF n) = match n with 0 => [] | S _ => [LF] end.
Proof.
  destruct n as [| [| n]]; reflexivity.
Qed.

Lemma hasDoubleNewline_cons_other c s :
  (c =? LF)%N = false -> hasDoubleNewline (c :: s) = hasDoubleNewline s.
Proof.
  intros E. destruct s as [| d r]; cbn; [reflexivity |]. now rewrite E.
Qed.

Lemma hasDoubleNewline_LF_other c s :
  (c =? LF)%N = false ->
  hasDoubleNewline (LF :: c :: s) = hasDoubleNewline s.
Proof.
  intros E.
  change (hasDoubleNewline (LF :: c :: s))
    with (((LF =? LF) && (c =? LF))%N || hasDoubleNewline (c :: s)).
  rewrite E, andb_false_r. cbn [orb].
  now apply hasDoubleNewline_cons_other.
Qed.

(** Reading with [n] newlines pending: no two newlines in a row come out. *)
Lemma collapse_from_no_double s :
  forall n,
    hasDoubleNewline (replaceRunsFrom (N.eqb LF) 2 [LF] (repeat LF n) s)
    = false.
Proof.
  induction s as [| c r IH]; intros n; cbn [replaceRunsFrom].
  - rewrite flush_newlines. destruct n; reflexivity.
  - destruct (LF =? c)%N eqn:E.
    + apply N.eqb_eq in E. subst c. rewrite repeat_snoc. apply IH.
    + rewrite N.eqb_sym in E. rewrite flush_newlines.
      destruct n; cbn [app].
      * rewrite (@hasDoubleNewline_cons_other c _ E). apply (IH 0%nat).
      * rewrite (@hasDoubleNewline_LF_other c _ E). apply (IH 0%nat).
Qed.

Lemma collapseNewlines_no_double s :
  hasDoubleNewline (collapseNewlines s) = false.
Proof.
  apply (collapse_from_no_double s 0).
Qed.

Lemma withoutNewlines_app a b :
  withoutNewlines (a ++ b) = withoutNewlines a ++ withoutNewlines b.
Proof.
  apply filter_app.
Qed.

Lemma withoutNewlines_repeat n : withoutNewlines (repeat LF n) = [].
Proof.
  induction n; cbn; [reflexivity | assumption].
Qed.

Lemma withoutNewlines_cons_other c s :
  (c =? LF)%N = false -> withoutNewlines (c :: s) = c :: withoutNewlines s.
Proof.
  intros E. unfold withoutNewlines. cbn [filter]. now rewrite E.
Qed.

Lemma withoutNewlines_flush n :
  withoutNewlines (flush 2 [LF] (repeat LF n)) = [].
Proof.
  rewrite flush_newlines. destruct n; reflexivity.
Qed.

Lemma collapse_from_keeps_text s :
  forall n,
    withoutNewlines (replaceRunsFrom (N.eqb LF) 2 [LF] (repeat LF n) s)
    = withoutNewlines s.
Proof.
  induction s as [| c r IH]; intros n; cbn [replaceRunsFrom].
  - apply withoutNewlines_flush.
  - destruct (LF =? c)%N eqn:E.
    + apply N.eqb_eq in E. subst c. rewrite repeat_snoc, IH. reflexivity.
    + rewrite N.eqb_sym in E.
      rewrite withoutNewlines_app, withoutNewlines_flush.
      rewrite !(@withoutNewlines_cons_other c _ E).
      cbn [app]. f_equal. apply (IH 0%nat).
Qed.

Lemma hasDoubleNewline_suffix a b :
  hasDoubleNewline (a ++ b) = false -> hasDoubleNewline b = false.
Proof.
  induction a as [| x a IH]; [trivial |].
  intros H. apply IH. destruct (a ++ b) as [| y t] eqn:E; [reflexivity |].
  change (hasDoubleNewline ((x :: a) ++ b))
    with (hasDoubleNewline (x :: (a ++ b))) in H.
  rewrite E in H. cbn in H. apply orb_false_elim in H. tauto.
Qed.

(** A string with no two newlines in a row is left as it is. *)
Lemma collapse_from_fixed s :
  forall n,
    hasDoubleNewline (repeat LF n ++ s) = false ->
    replaceRunsFrom (N.eqb LF) 2 [LF] (repeat LF n) s = repeat LF n ++ s.
Proof.
  induction s as [| c r IH]; intros n H; cbn [replaceRunsFrom].
  - destruct n as [| [| n]]; try reflexivity. discriminate H.
  - destruct (LF =? c)%N eqn:E.
    + apply N.eqb_eq in E. subst c. rewrite repeat_snoc.
      rewrite IH; rewrite <- repeat_snoc, <- app_assoc; [reflexivity | exact H].
    + pose proof (IH 0%nat) as IH0. cbn [repeat app] in IH0. rewrite IH0.
      * destruct n as [| [| n]]; try reflexivity. discriminate H.
      * apply (hasDoubleNewline_suffix (repeat LF n ++ [c])).
        now rewrite <- app_assoc.
Qed.

Lemma collapseNewlines_fixed s :
  hasDoubleNewline s = false -> collapseNewlines s = s.
Proof.
  intros H. apply (collapse_from_fixed s 0 H).
Qed.

Lemma collapseNewlines_idempotent s :
  collapseNewlines (collapseNewlines s) = collapseNewlines s.
Proof.
  apply collapseNewlines_fixed. apply collapseNewlines_no_double.
Qed.

Lemma collapseNewlines_run n : collapseNewlines (repeat LF (S n)) = [LF].
Proof.
  unfold collapseNewlines, replaceRuns.
  assert (forall k m,
             replaceRunsFrom (N.eqb LF) 2 [LF] (repeat LF m) (repeat LF k)
             = flush 2 [LF] (repeat LF (m + k))) as H.
  { induction k as [| k IH]; intros m; cbn [repeat replaceRunsFrom].
    - now rewrite Nat.add_0_r.
    - rewrite N.eqb_refl, repeat_snoc, IH. f_equal. f_equal. lia. }
  pose proof (H (S n) 0%nat) as H0. cbn [repeat] in H0 |- *. rewrite H0.
  apply (flush_newlines (S n)).
Qed.

(** ** Text renderers *)

(** Right-nests every concatenation, so that two spellings of one string
    meet. *)
Ltac right_nest := repeat (progress (rewrite <- ?app_assoc; cbn [app])).

Lemma append_loop (A : Type) (f : A -> jsstring) l :
  forall init,
    fold_left (fun acc c => acc ++ f c) l init = init ++ concat (map f l).
Proof.
  induction l as [| c r IH]; intros init; cbn.
  - now rewrite app_nil_r.
  - rewrite IH. now rewrite app_assoc.
Qed.

Lemma formatCommentLLM_block c : formatCommentLLM c = blockLLM c.
Proof.
  unfold formatCommentLLM, blockLLM. cbn zeta.
  destruct (trim (body c)) as [| x b]; [reflexivity |].
  cbn [Boolean negb]. change (lit "[d") with (lit "[" ++ lit "d").
  change (lit "] u/") with (lit "]" ++ lit " u/").
  right_nest. reflexivity.
Qed.

Lemma body_section post :
  (if Boolean (bodyOf post) then bodyOf post ++ [LF; LF]
   else lit "(no body)" ++ [LF; LF])
  = bodyOrSentinel post ++ [LF; LF].
Proof.
  unfold bodyOrSentinel. destruct (bodyOf post); reflexivity.
Qed.

Lemma llmAssembled_format post comments :
  llmAssembled post comments =
  headerLines post ++ lit "POST_BODY:" ++ [LF] ++ bodyOrSentinel post
  ++ [LF; LF] ++ lit "COMMENTS:" ++ [LF] ++ legend
  ++ concat (map blockLLM comments).
Proof.
  unfold llmAssembled. cbn zeta. rewrite append_loop, body_section.
  unfold headerLines, legend.
  rewrite (map_ext _ _ formatCommentLLM_block). right_nest. reflexivity.
Qed.

(** C3 (amended).  Before the newline pass the LLM text is exactly: the
    three header lines, the [POST_BODY:] line with the trimmed self-text or
    ["(no body)"] under it, the [COMMENTS:] heading, the two-line legend
    ["# [dX] u/author"] / ["# comment text"], then one block per comment in
    order: ["[d<depth>] u/<author>"], the trimmed body on the next line and
    a blank line, or nothing at all for a comment whose trimmed body is
    empty. *)
Theorem llm_text_layout (post : Post) (comments : list CommentItem) :
  llmAssembled post comments =
  headerLines post ++ lit "POST_BODY:" ++ [LF] ++ bodyOrSentinel post
  ++ [LF; LF] ++ lit "COMMENTS:" ++ [LF] ++ legend
  ++ concat (map blockLLM comments)
  /\ (forall c, formatCommentLLM c = blockLLM c)
  /\ llmAssembled post comments
     = llmHeaderAndBody post ++ lit "COMMENTS:" ++ [LF] ++ legend
       ++ concat (map formatCommentLLM comments)
  /\ renderLLM post comments = collapseNewlines (llmAssembled post comments).
Proof.
  split; [apply llmAssembled_format | split; [apply formatCommentLLM_block |]].
  split; [| reflexivity].
  rewrite llmAssembled_format. unfold llmHeaderAndBody.
  rewrite (map_ext _ _ formatCommentLLM_block). right_nest. reflexivity.
Qed.

(** C3, as stated, fails: with no comment at all the text still goes on
    after the [COMMENTS:] heading, with the legend. *)
Lemma llm_text_has_legend :
  llmAssembled helloPost [] <> llmAsClaimed helloPost []
  /\ llmAssembled helloPost [] = llmAsClaimed helloPost [] ++ legend.
Proof.
  split; [| reflexivity]. vm_compute. discriminate.
Qed.

(** ** White-space collapsing *)

Lemma flush_white pending :
  flush 1 [SPACE] pending = match pending with [] => [] | _ :: _ => [SPACE] end.
Proof.
  destruct pending; reflexivity.
Qed.

Lemma hasAdjacentWhite_cons_other c s :
  isWhiteSpace c = false -> hasAdjacentWhite (c :: s) = hasAdjacentWhite s.
Proof.
  intros E. destruct s as [| d r]; cbn; [reflexivity |]. now rewrite E.
Qed.

Lemma hasAdjacentWhite_space_other c s :
  isWhiteSpace c = false ->
  hasAdjacentWhite (SPACE :: c :: s) = hasAdjacentWhite s.
Proof.
  intros E.
  change (hasAdjacentWhite (SPACE :: c :: s))
    with (isWhiteSpace SPACE && isWhiteSpace c || hasAdjacentWhite (c :: s)).
  rewrite E, andb_false_r. cbn [orb].
  now apply hasAdjacentWhite_cons_other.
Qed.

Lemma hasAdjacentWhite_suffix a b :
  hasAdjacentWhite (a ++ b) = false -> hasAdjacentWhite b = false.
Proof.
  induction a as [| x a IH]; [trivial |].
  intros H. apply IH. destruct (a ++ b) as [| y t] eqn:E; [reflexivity |].
  change (hasAdjacentWhite ((x :: a) ++ b))
    with (hasAdjacentWhite (x :: (a ++ b))) in H.
  rewrite E in H. cbn in H. apply orb_false_elim in H. tauto.
Qed.

Lemma hasAdjacentWhite_prefix a b :
  hasAdjacentWhite (a ++ b) = false -> hasAdjacentWhite a = false.
Proof.
  induction a as [| x a IH]; [trivial |].
  intros H. destruct a as [| y a']; [reflexivity |].
  change (hasAdjacentWhite ((x :: y :: a') ++ b))
    with (isWhiteSpace x && isWhiteSpace y
          || hasAdjacentWhite ((y :: a') ++ b)) in H.
  apply orb_false_elim in H. destruct H as [H1 H2].
  change (hasAdjacentWhite (x :: y :: a'))
    with (isWhiteSpace x && isWhiteSpace y || hasAdjacentWhite (y :: a')).
  rewrite H1. cbn [orb]. now apply IH.
Qed.

Lemma withoutWhite_app a b :
  withoutWhite (a ++ b) = withoutWhite a ++ withoutWhite b.
Proof.
  apply filter_app.
Qed.

Lemma withoutWhite_all_white s :
  forallb isWhiteSpace s = true -> withoutWhite s = [].
Proof.
  induction s as [| c r IH]; [reflexivity |]. cbn.
  intros H. apply andb_prop in H. destruct H as [Hc Hr].
  rewrite Hc. cbn. now apply IH.
Qed.

(** Reading with a run of white space pending. *)
Lemma collapse_white_from s :
  forall pending,
    forallb isWhiteSpace pending = true ->
    onlySpaces (replaceRunsFrom isWhiteSpace 1 [SPACE] pending s)
    /\ hasAdjacentWhite (replaceRunsFrom isWhiteSpace 1 [SPACE] pending s)
       = false
    /\ withoutWhite (replaceRunsFrom isWhiteSpace 1 [SPACE] pending s)
       = withoutWhite s.
Proof.
  unfold onlySpaces.
  induction s as [| c r IH]; intros pending Hp; cbn [replaceRunsFrom].
  - rewrite flush_white. destruct pending; repeat split; auto.
  - destruct (isWhiteSpace c) eqn:E.
    + destruct (IH (pending ++ [c])) as (H1 & H2 & H3).
      { rewrite forallb_app, Hp. cbn. now rewrite E. }
      repeat split; [assumption | assumption |].
      rewrite H3. unfold withoutWhite. cbn. now rewrite E.
    + destruct (IH [] eq_refl) as (H1 & H2 & H3).
      rewrite flush_white. destruct pending as [| p pending']; cbn [app].
      * repeat split.
        -- constructor; [congruence | assumption].
        -- now rewrite (@hasAdjacentWhite_cons_other c _ E).
        -- unfold withoutWhite in *. cbn. rewrite E. cbn. now rewrite H3.
      * repeat split.
        -- constructor; [reflexivity |].
           constructor; [congruence | assumption].
        -- now rewrite (@hasAdjacentWhite_space_other c _ E).
        -- unfold withoutWhite in *. cbn. rewrite E. cbn. now rewrite H3.
Qed.

Lemma trimStart_split s :
  exists pre, s = pre ++ trimStart s /\ forallb isWhiteSpace pre = true.
Proof.
  induction s as [| c r (pre & E & Hp)]; cbn.
  - exists []. split; reflexivity.
  - destruct (isWhiteSpace c) eqn:Ec.
    + exists (c :: pre). split; [cbn [app]; f_equal; exact E |].
      cbn. now rewrite Ec.
    + exists []. split; reflexivity.
Qed.

Lemma trimStart_head s :
  match trimStart s with
  | [] => True
  | c :: _ => isWhiteSpace c = false
  end.
Proof.
  induction s as [| c r IH]; cbn; [exact I |].
  destruct (isWhiteSpace c) eqn:E; [exact IH | exact E].
Qed.

Lemma forallb_rev (f : N -> bool) l : forallb f (rev l) = forallb f l.
Proof.
  induction l as [| x r IH]; [reflexivity |].
  cbn. rewrite forallb_app, IH. cbn. rewrite andb_true_r. apply andb_comm.
Qed.

Lemma trimEnd_split s :
  exists suf, s = trimEnd s ++ suf /\ forallb isWhiteSpace suf = true.
Proof.
  unfold trimEnd. destruct (trimStart_split (rev s)) as (pre & E & Hp).
  exists (rev pre). split.
  - rewrite <- rev_app_distr, <- E. now rewrite rev_involutive.
  - now rewrite forallb_rev.
Qed.

Lemma trimEnd_last s d :
  trimEnd s <> [] -> isWhiteSpace (last (trimEnd s) d) = false.
Proof.
  unfold trimEnd. pose proof (trimStart_head (rev s)) as H.
  destruct (trimStart (rev s)) as [| c t]; [intros H0; now elim H0 |].
  intros _. cbn [rev]. now rewrite last_last.
Qed.

Lemma trim_trimmedEnds s : trimmedEnds (trim s).
Proof.
  unfold trimmedEnds, trim.
  destruct (trimEnd (trimStart s)) as [| c t] eqn:E; [exact I |].
  split.
  - destruct (trimEnd_split (trimStart s)) as (suf & Es & _).
    rewrite E in Es. pose proof (trimStart_head s) as H.
    rewrite Es in H. exact H.
  - rewrite <- E. apply trimEnd_last. congruence.
Qed.

Lemma trim_split s :
  exists pre suf,
    s = pre ++ trim s ++ suf
    /\ forallb isWhiteSpace pre = true /\ forallb isWhiteSpace suf = true.
Proof.
  destruct (trimStart_split s) as (pre & E & Hp).
  destruct (trimEnd_split (trimStart s)) as (suf & Es & Hs).
  exists pre, suf. unfold trim. rewrite <- Es. auto.
Qed.

Lemma oneLine_properties text :
  onlySpaces (oneLine text)
  /\ hasAdjacentWhite (oneLine text) = false
  /\ trimmedEnds (oneLine text)
  /\ withoutWhite (oneLine text) = withoutWhite text.
Proof.
  unfold oneLine.
  destruct (collapse_white_from text [] eq_refl) as (H1 & H2 & H3).
  fold (replaceRuns isWhiteSpace 1 [SPACE] text) in H1, H2, H3.
  fold (collapseWhitespace text) in H1, H2, H3.
  destruct (trim_split (collapseWhitespace text)) as (pre & suf & E & Hp & Hs).
  repeat split.
  - unfold onlySpaces in *. rewrite E in H1.
    apply Forall_app in H1. destruct H1 as [_ H1].
    apply Forall_app in H1. tauto.
  - rewrite E in H2. apply hasAdjacentWhite_suffix in H2.
    now apply hasAdjacentWhite_prefix in H2.
  - apply trim_trimmedEnds.
  - rewrite <- H3. rewrite E at 2. rewrite !withoutWhite_app.
    rewrite (withoutWhite_all_white _ Hp), (withoutWhite_all_white _ Hs).
    now rewrite app_nil_r.
Qed.

Lemma formatCommentToon_line c : formatCommentToon c = lineToon c.
Proof.
  unfold formatCommentToon, lineToon. cbn zeta. fold (oneLine (body c)).
  destruct (oneLine (body c)) as [| x b]; [reflexivity |].
  cbn [Boolean negb]. change (lit ": ") with (lit ":" ++ [SPACE]).
  right_nest. reflexivity.
Qed.

Lemma toonAssembled_format post comments :
  toonAssembled post comments =
  headerLines post ++ lit "POST_BODY:" ++ [SPACE] ++ bodyOrSentinel post
  ++ [LF; LF] ++ lit "COMMENTS:" ++ [LF] ++ concat (map lineToon comments).
Proof.
  unfold toonAssembled. cbn zeta. rewrite append_loop, body_section.
  unfold headerLines. change (lit "POST_BODY: ") with (lit "POST_BODY:" ++ [SPACE]).
  rewrite (map_ext _ _ formatCommentToon_line). right_nest. reflexivity.
Qed.

Lemma oneLine_no_newline text : ~ In LF (oneLine text).
Proof.
  destruct (oneLine_properties text) as (H & _). unfold onlySpaces in H.
  intros Hin. rewrite Forall_forall in H. specialize (H LF Hin eq_refl).
  discriminate H.
Qed.



(** ** The newline pass on the LLM text *)

Lemma hasDoubleNewline_inside a b :
  hasDoubleNewline (a ++ LF :: LF :: b) = true.
Proof.
  induction a as [| x a IH]; [reflexivity |].
  change ((x :: a) ++ LF :: LF :: b) with (x :: (a ++ LF :: LF :: b)).
  destruct (a ++ LF :: LF :: b) as [| y t] eqn:E; [discriminate IH |].
  change (hasDoubleNewline (x :: y :: t))
    with (((x =? LF) && (y =? LF))%N || hasDoubleNewline (y :: t)).
  rewrite IH. apply orb_true_r.
Qed.

Lemma collapse_from_pending s :
  forall k,
    replaceRunsFrom (N.eqb LF) 2 [LF] (repeat LF (S k)) s
    = replaceRunsFrom (N.eqb LF) 2 [LF] [LF] s.
Proof.
  induction s as [| c r IH]; intros k; cbn [replaceRunsFrom].
  - now rewrite (flush_newlines (S k)).
  - destruct (LF =? c)%N eqn:E.
    + apply N.eqb_eq in E. subst c. rewrite repeat_snoc.
      rewrite (IH (S k)). symmetry. apply (IH 1%nat).
    + now rewrite (flush_newlines (S k)).
Qed.

Lemma collapse_from_absorb n s :
  forall k,
    replaceRunsFrom (N.eqb LF) 2 [LF] (repeat LF k) (repeat LF n ++ s)
    = replaceRunsFrom (N.eqb LF) 2 [LF] (repeat LF (k + n)) s.
Proof.
  induction n as [| n IH]; intros k; cbn [repeat app replaceRunsFrom].
  - now rewrite Nat.add_0_r.
  - rewrite N.eqb_refl, repeat_snoc, IH. f_equal. f_equal. lia.
Qed.

(** A run of newlines counts as one newline, wherever it stands. *)
Lemma collapse_from_run a n b :
  forall k,
    replaceRunsFrom (N.eqb LF) 2 [LF] (repeat LF k)
      (a ++ repeat LF (S n) ++ b)
    = replaceRunsFrom (N.eqb LF) 2 [LF] (repeat LF k) (a ++ LF :: b).
Proof.
  induction a as [| c a IH]; intros k.
  - cbn [app]. rewrite collapse_from_absorb.
    replace (k + S n)%nat with (S (k + n)) by lia.
    rewrite collapse_from_pending.
    change (LF :: b) with (repeat LF 1 ++ b). rewrite collapse_from_absorb.
    replace (k + 1)%nat with (S k) by lia.
    now rewrite collapse_from_pending.
  - cbn [app replaceRunsFrom]. destruct (LF =? c)%N eqn:E.
    + apply N.eqb_eq in E. subst c. rewrite repeat_snoc. apply IH.
    + f_equal. f_equal. apply (IH 0%nat).
Qed.

Lemma collapseNewlines_run_inside a n b :
  collapseNewlines (a ++ repeat LF (S n) ++ b)
  = collapseNewlines (a ++ LF :: b).
Proof.
  apply (collapse_from_run a n b 0).
Qed.

(** The pass never removes the last newline of a run. *)
Lemma collapse_from_keeps_newline s :
  forall n,
    (0 < n)%nat \/ In LF s ->
    In LF (replaceRunsFrom (N.eqb LF) 2 [LF] (repeat LF n) s).
Proof.
  induction s as [| c r IH]; intros n H; cbn [replaceRunsFrom].
  - destruct H as [H | []]. rewrite flush_newlines.
    destruct n; [lia | now left].
  - destruct (N.eqb_spec LF c) as [<- | Hne].
    + rewrite repeat_snoc. apply IH. left. lia.
    + apply in_or_app. destruct H as [H | [H | H]].
      * left. rewrite flush_newlines. destruct n; [lia | now left].
      * now elim Hne.
      * right. right. apply (IH 0%nat). now right.
Qed.

(** Two texts without blank lines, joined by one newline that neither of
    them touches, make a text without blank lines. *)
Lemma hasDoubleNewline_join a b :
  hasDoubleNewline a = false -> endsWithNewline a = false ->
  startsWithNewline b = false -> hasDoubleNewline b = false ->
  hasDoubleNewline (a ++ LF :: b) = false.
Proof.
  intros Ha He Hs Hb.
  assert (hasDoubleNewline (LF :: b) = false) as H0.
  { destruct b as [| c b']; [reflexivity |]. cbn [startsWithNewline] in Hs.
    rewrite (@hasDoubleNewline_LF_other c b' Hs).
    rewrite <- (@hasDoubleNewline_cons_other c b' Hs). exact Hb. }
  induction a as [| x a IH]; [exact H0 |].
  destruct a as [| y a'].
  - cbn [endsWithNewline last] in He. cbn [app].
    rewrite (@hasDoubleNewline_cons_other x _ He). exact H0.
  - change ((x :: y :: a') ++ LF :: b) with (x :: y :: (a' ++ LF :: b)).
    change (hasDoubleNewline (x :: y :: a' ++ LF :: b))
      with (((x =? LF) && (y =? LF))%N
            || hasDoubleNewline ((y :: a') ++ LF :: b)).
    change (hasDoubleNewline (x :: y :: a'))
      with (((x =? LF) && (y =? LF))%N || hasDoubleNewline (y :: a')) in Ha.
    apply orb_false_elim in Ha. destruct Ha as [Hxy Ha].
    rewrite Hxy. cbn [orb]. apply IH; [exact Ha | exact He].
Qed.

(** C7.  The LLM text handed to the display never holds two newlines in a
    row.  It is the assembled string after one pass over the whole of it.
    The pass puts exactly one newline in the place of every run of
    newlines: a text without blank lines is returned unchanged, newlines
    included; a run between two such texts that it does not touch leaves
    the two texts with one newline between them; a string of newlines only
    becomes one newline; and a run anywhere counts as a single newline.
    The pass keeps every other character, and it is needed, for the
    assembled string always holds a blank line outside the comment
    blocks. *)
Theorem llm_text_no_blank_line (post : Post) (comments : list CommentItem) :
  hasDoubleNewline (renderLLM post comments) = false
  /\ renderLLM post comments = collapseNewlines (llmAssembled post comments)
  /\ withoutNewlines (renderLLM post comments)
     = withoutNewlines (llmAssembled post comments)
  /\ (forall a n b,
         collapseNewlines (a ++ repeat LF (S n) ++ b)
         = collapseNewlines (a ++ LF :: b))
  /\ (forall s, hasDoubleNewline (collapseNewlines s) = false)
  /\ collapseNewlines (renderLLM post comments) = renderLLM post comments
  /\ hasDoubleNewline (llmAssembled post comments) = true
  /\ (forall s, hasDoubleNewline s = false -> collapseNewlines s = s)
  /\ (forall n, collapseNewlines (repeat LF (S n)) = [LF])
  /\ (forall a n b,
         hasDoubleNewline a = false -> endsWithNewline a = false ->
         startsWithNewline b = false -> hasDoubleNewline b = false ->
         collapseNewlines (a ++ repeat LF (S n) ++ b) = a ++ LF :: b)
  /\ In LF (renderLLM post comments).
Proof.
  assert (forall a n b,
             hasDoubleNewline a = false -> endsWithNewline a = false ->
             startsWithNewline b = false -> hasDoubleNewline b = false ->
             collapseNewlines (a ++ repeat LF (S n) ++ b) = a ++ LF :: b)
    as Hrun.
  { intros a n b Ha He Hs Hb. rewrite collapseNewlines_run_inside.
    apply collapseNewlines_fixed. now apply hasDoubleNewline_join. }
  repeat match goal with |- _ /\ _ => split end;
    [| | | | | | | apply collapseNewlines_fixed
     | apply collapseNewlines_run | exact Hrun | ].
  - apply collapseNewlines_no_double.
  - reflexivity.
  - apply (collapse_from_keeps_text (llmAssembled post comments) 0).
  - apply collapseNewlines_run_inside.
  - apply collapseNewlines_no_double.
  - apply collapseNewlines_idempotent.
  - rewrite llmAssembled_format. unfold headerLines.
    replace (_ ++ _)
      with ((lit "TITLE: " ++ title post ++ [LF] ++ lit "SUBREDDIT: r/"
               ++ subreddit post ++ [LF] ++ lit "POST_AUTHOR: "
               ++ postAuthorOf post)
              ++ LF :: LF
              :: (lit "POST_BODY:" ++ [LF] ++ bodyOrSentinel post
                    ++ [LF; LF] ++ lit "COMMENTS:" ++ [LF] ++ legend
                    ++ concat (map blockLLM comments)))
      by (right_nest; reflexivity).
    apply hasDoubleNewline_inside.
  - apply (@collapse_from_keeps_newline (llmAssembled post comments) 0%nat).
    right. rewrite llmAssembled_format. unfold headerLines.
    apply in_or_app. right. apply in_or_app. right. now left.
Qed.

(** ** JSON strings *)

Unset Implicit Arguments.

Lemma hexValue_hexDigit n : (n < 16)%N -> hexValue (hexDigit n) = Some n.
Proof.
  intros H. unfold hexValue, hexDigit.
  destruct (n <? 10)%N eqn:E.
  - apply N.ltb_lt in E.
    replace ((48 <=? 48 + n) && (48 + n <=? 57))%N with true.
    + f_equal. lia.
    + symmetry. apply andb_true_intro. split; apply N.leb_le; lia.
  - apply N.ltb_ge in E.
    replace ((48 <=? 87 + n) && (87 + n <=? 57))%N with false.
    + replace ((97 <=? 87 + n) && (87 + n <=? 102))%N with true.
      * f_equal. lia.
      * symmetry. apply andb_true_intro. split; apply N.leb_le; lia.
    + symmetry. apply andb_false_intro2. apply N.leb_gt. lia.
Qed.

Lemma hex_digits_value c :
  (c < 65536)%N ->
  (c / 4096 mod 16 * 4096 + c / 256 mod 16 * 256 + c / 16 mod 16 * 16
   + c mod 16 = c)%N.
Proof.
  intros H.
  pose proof (N.div_mod c 16) as H1.
  pose proof (N.div_mod (c / 16) 16) as H2.
  pose proof (N.div_mod (c / 16 / 16) 16) as H3.
  rewrite !N.Div0.div_div in H2, H3.
  change (16 * 16)%N with 256%N in *. change (256 * 16)%N with 4096%N in *.
  assert (c / 4096 < 16)%N as H4.
  { apply N.Div0.div_lt_upper_bound. exact H. }
  rewrite (N.mod_small _ _ H4).
  assert (c / 4096 = c / 256 / 16)%N as H5
    by (rewrite N.Div0.div_div; reflexivity).
  lia.
Qed.

Lemma parseChars_unicodeEscape c tail :
  (c < 65536)%N ->
  parseChars (unicodeEscape c ++ tail) =
  match parseChars tail with
  | Some (str, rest) => Some (c :: str, rest)
  | None => None
  end.
Proof.
  intros H. unfold unicodeEscape. cbn [app parseChars].
  change (BACKSLASH =? 34)%N with false. change (BACKSLASH =? 92)%N with true.
  change (117 =? 117)%N with true. cbn iota.
  rewrite !hexValue_hexDigit by (apply N.mod_upper_bound; discriminate).
  rewrite (hex_digits_value _ H).
  destruct (parseChars tail) as [[str rest] |]; reflexivity.
Qed.

Lemma parseChars_raw c tail :
  (c =? 34)%N = false -> (c =? 92)%N = false -> (c <? 32)%N = false ->
  parseChars (c :: tail) =
  match parseChars tail with
  | Some (str, rest) => Some (c :: str, rest)
  | None => None
  end.
Proof.
  intros H1 H2 H3. cbn [parseChars]. now rewrite H1, H2, H3.
Qed.

Lemma shortEscape_unescape c e :
  shortEscape c = Some e -> (e =? 117)%N = false /\ unescape e = Some c.
Proof.
  unfold shortEscape.
  repeat match goal with
         | |- context [(c =? ?k)%N] =>
             destruct (N.eqb_spec c k);
             [subst c; intros [= <-]; split; reflexivity |]
         end.
  discriminate.
Qed.

Lemma shortEscape_None c :
  shortEscape c = None -> (c =? 34)%N = false /\ (c =? 92)%N = false.
Proof.
  unfold shortEscape.
  repeat match goal with
         | |- context [if (c =? ?k)%N then _ else _] =>
             destruct (N.eqb_spec c k); [discriminate |]
         end.
  intros _. split; reflexivity.
Qed.

Lemma parseChars_escaped c e tail :
  shortEscape c = Some e ->
  parseChars (BACKSLASH :: e :: tail) =
  match parseChars tail with
  | Some (str, rest) => Some (c :: str, rest)
  | None => None
  end.
Proof.
  intros H. destruct (shortEscape_unescape _ _ H) as [H1 H2].
  cbn [parseChars]. change (BACKSLASH =? 34)%N with false.
  change (BACKSLASH =? 92)%N with true. cbn iota. now rewrite H1, H2.
Qed.

Lemma surrogate_raw c :
  isLeadSurrogate c || isTrailSurrogate c = true ->
  (c =? 34)%N = false /\ (c =? 92)%N = false /\ (c <? 32)%N = false
  /\ (c < 65536)%N.
Proof.
  unfold isLeadSurrogate, isTrailSurrogate. intros H.
  apply orb_prop in H.
  assert (55296 <= c <= 57343)%N as B.
  { destruct H as [H | H]; apply andb_prop in H; destruct H as [H1 H2];
      apply N.leb_le in H1, H2; lia. }
  repeat split; try (apply N.eqb_neq; lia); try (apply N.ltb_ge; lia); lia.
Qed.

(** Reading a quoted string gives the string back. *)
Lemma parseChars_quoteUnits_bounded n :
  forall s rest,
    length s <= n ->
    parseChars (quoteUnits s ++ QUOTE :: rest) = Some (s, rest).
Proof.
  induction n as [| n IH]; intros s rest Hn.
  - destruct s; [reflexivity | cbn in Hn; lia].
  - destruct s as [| c r]; [reflexivity |].
    cbn in Hn. assert (length r <= n) as Hr by lia.
    cbn [quoteUnits]. destruct (shortEscape c) as [e |] eqn:Es.
    + cbn [app]. rewrite (parseChars_escaped _ _ _ Es), (IH r rest Hr).
      reflexivity.
    + destruct (shortEscape_None _ Es) as [Hq Hb].
      destruct (c <? 32)%N eqn:Ec.
      { rewrite <- app_assoc, parseChars_unicodeEscape, (IH r rest Hr);
          [reflexivity | apply N.ltb_lt in Ec; lia]. }
      destruct (isLeadSurrogate c) eqn:El.
      { destruct (surrogate_raw c) as (_ & _ & _ & Hc);
          [now rewrite El |].
        destruct r as [| d r'].
        - rewrite parseChars_unicodeEscape by assumption. reflexivity.
        - destruct (isTrailSurrogate d) eqn:Et.
          + destruct (surrogate_raw d) as (Hdq & Hdb & Hd32 & _);
              [rewrite Et; apply orb_true_r |].
            cbn [app]. rewrite (parseChars_raw _ _ Hq Hb Ec).
            rewrite (parseChars_raw _ _ Hdq Hdb Hd32).
            rewrite (IH r' rest); [reflexivity | cbn in Hr; lia].
          + rewrite <- app_assoc, parseChars_unicodeEscape by assumption.
            rewrite (IH (d :: r') rest Hr). reflexivity. }
      destruct (isTrailSurrogate c) eqn:Et.
      { destruct (surrogate_raw c) as (_ & _ & _ & Hc);
          [rewrite Et; apply orb_true_r |].
        rewrite <- app_assoc, parseChars_unicodeEscape by assumption.
        rewrite (IH r rest Hr). reflexivity. }
      cbn [app]. rewrite (parseChars_raw _ _ Hq Hb Ec), (IH r rest Hr).
      reflexivity.
Qed.

Lemma parseChars_quoted s rest :
  parseChars (quoteUnits s ++ QUOTE :: rest) = Some (s, rest).
Proof.
  apply (parseChars_quoteUnits_bounded (length s)). apply le_n.
Qed.

(** ** JSON numbers *)

Lemma isDigit_isNumberChar c : isDigit c = true -> isNumberChar c = true.
Proof.
  intros H. unfold isNumberChar. now rewrite H.
Qed.

Lemma dropDigits_span s :
  exists pre, s = pre ++ dropDigits s /\ forallb isNumberChar pre = true.
Proof.
  induction s as [| c r (pre & E & Hp)]; cbn.
  - exists []. split; reflexivity.
  - destruct (isDigit c) eqn:Ec.
    + exists (c :: pre). split; [cbn [app]; f_equal; exact E |].
      cbn. now rewrite (isDigit_isNumberChar _ Ec).
    + exists []. split; reflexivity.
Qed.

Lemma digits1_reads : readsNumberUnits digits1.
Proof.
  intros s r. unfold digits1. destruct s as [| c t]; [discriminate |].
  destruct (isDigit c) eqn:Ec; [| discriminate]. intros [= <-].
  destruct (dropDigits_span t) as (pre & E & Hp).
  exists (c :: pre). split; [cbn [app]; f_equal; exact E |].
  cbn. now rewrite (isDigit_isNumberChar _ Ec).
Qed.

Lemma intPart_reads : readsNumberUnits intPart.
Proof.
  intros s r. unfold intPart. destruct s as [| c t]; [discriminate |].
  destruct (N.eqb_spec c 48).
  - subst c. intros [= <-]. exists [48%N]. split; reflexivity.
  - destruct (isDigit c) eqn:Ec; [| discriminate]. intros [= <-].
    destruct (dropDigits_span t) as (pre & E & Hp).
    exists (c :: pre). split; [cbn [app]; f_equal; exact E |].
    cbn. now rewrite (isDigit_isNumberChar _ Ec).
Qed.

Lemma fracPart_reads : readsNumberUnits fracPart.
Proof.
  intros s r. unfold fracPart. destruct s as [| c t].
  - intros [= <-]. exists []. split; reflexivity.
  - destruct (N.eqb_spec c 46).
    + subst c. intros H. destruct (digits1_reads _ _ H) as (pre & E & Hp).
      exists (46%N :: pre). split; [cbn [app]; f_equal; exact E |].
      cbn. exact Hp.
    + intros [= <-]. exists []. split; reflexivity.
Qed.

Lemma expPart_reads : readsNumberUnits expPart.
Proof.
  intros s r. unfold expPart. destruct s as [| c t].
  - intros [= <-]. exists []. split; reflexivity.
  - destruct ((c =? 101) || (c =? 69))%N eqn:Ec.
    + assert (isNumberChar c = true) as Hc.
      { unfold isNumberChar. apply orb_prop in Ec. destruct Ec as [-> | ->];
          rewrite ?orb_true_r; reflexivity. }
      destruct t as [| sg t']; [discriminate |].
      destruct ((sg =? 43) || (sg =? 45))%N eqn:Es.
      * assert (isNumberChar sg = true) as Hs.
        { unfold isNumberChar. apply orb_prop in Es.
          destruct Es as [-> | ->]; rewrite ?orb_true_r; reflexivity. }
        intros H. destruct (digits1_reads _ _ H) as (pre & E & Hp).
        exists (c :: sg :: pre). split; [cbn [app]; do 2 f_equal; exact E |].
        cbn [forallb]. now rewrite Hc, Hs.
      * intros H. destruct (digits1_reads _ _ H) as (pre & E & Hp).
        exists (c :: pre). split; [cbn [app]; f_equal; exact E |].
        cbn [forallb]. now rewrite Hc.
    + intros [= <-]. exists []. split; reflexivity.
Qed.

Lemma intPart_start s r :
  intPart s = Some r -> exists c t, s = c :: t /\ isDigit c = true.
Proof.
  unfold intPart. destruct s as [| c t]; [discriminate |].
  destruct (N.eqb_spec c 48).
  - subst c. intros _. now exists 48%N, t.
  - destruct (isDigit c) eqn:Ec; [| discriminate]. intros _. now exists c, t.
Qed.

Lemma isJSONNumber_units s :
  isJSONNumber s = true ->
  forallb isNumberChar s = true
  /\ exists c t, s = c :: t /\ isNumberStart c = true.
Proof.
  unfold isJSONNumber.
  assert (forall u,
             match intPart u with
             | Some s1 =>
                 match fracPart s1 with
                 | Some s2 =>
                     match expPart s2 with
                     | Some [] => true
                     | _ => false
                     end
                 | None => false
                 end
             | None => false
             end = true ->
             forallb isNumberChar u = true
             /\ exists c t, u = c :: t /\ isDigit c = true) as H.
  { intros u. destruct (intPart u) as [s1 |] eqn:E1; [| discriminate].
    destruct (fracPart s1) as [s2 |] eqn:E2; [| discriminate].
    destruct (expPart s2) as [[| x s3] |] eqn:E3; try discriminate.
    intros _.
    destruct (intPart_reads _ _ E1) as (p1 & -> & H1).
    destruct (fracPart_reads _ _ E2) as (p2 & -> & H2).
    destruct (expPart_reads _ _ E3) as (p3 & -> & H3).
    split; [| exact (intPart_start _ _ E1)].
    rewrite !forallb_app, H1, H2, H3. reflexivity. }
  destruct s as [| c t]; [discriminate |].
  destruct (N.eqb_spec c 45).
  - subst c. intros Hn. destruct (H t Hn) as [Hu _]. split.
    + cbn [forallb]. now rewrite Hu.
    + now exists 45%N, t.
  - intros Hn. destruct (H (c :: t) Hn) as [Hu (c' & t' & E & Hd)]. split.
    + exact Hu.
    + exists c', t'. split; [exact E |]. unfold isNumberStart.
      rewrite Hd. apply orb_true_r.
Qed.

Lemma spanNumber_app t rest :
  forallb isNumberChar t = true -> numberSafe rest = true ->
  spanNumber (t ++ rest) = (t, rest).
Proof.
  intros Ht Hr. induction t as [| c t IH]; cbn [app].
  - destruct rest as [| x r]; [reflexivity |]. cbn in Hr |- *.
    apply negb_true_iff in Hr. now rewrite Hr.
  - cbn in Ht. apply andb_prop in Ht. destruct Ht as [Hc Ht].
    cbn [spanNumber]. rewrite Hc, (IH Ht). reflexivity.
Qed.

Lemma isNumberStart_facts c :
  isNumberStart c = true ->
  isJsonWs c = false /\ (c =? 34)%N = false /\ (c =? 91)%N = false
  /\ (c =? 123)%N = false /\ (c =? 110)%N = false /\ (c =? 116)%N = false
  /\ (c =? 102)%N = false /\ (c =? 93)%N = false /\ (c =? 125)%N = false.
Proof.
  unfold isNumberStart, isDigit, isJsonWs. intros H.
  assert (c = 45 \/ 48 <= c <= 57)%N as B.
  { apply orb_prop in H. destruct H as [H | H].
    - left. now apply N.eqb_eq.
    - right. apply andb_prop in H. destruct H as [H1 H2].
      apply N.leb_le in H1, H2. lia. }
  repeat split;
    repeat (apply orb_false_intro); apply N.eqb_neq; lia.
Qed.

(** Decimal digits. *)

Lemma unitsUint_uintUnits d : unitsUint (uintUnits d) = Some d.
Proof.
  induction d; cbn [uintUnits unitsUint]; try reflexivity;
    rewrite IHd; reflexivity.
Qed.

Lemma uintUnits_digits d : forallb isDigit (uintUnits d) = true.
Proof.
  induction d; cbn [uintUnits forallb]; try reflexivity;
    rewrite IHd; reflexivity.
Qed.

Lemma dropDigits_all s : forallb isDigit s = true -> dropDigits s = [].
Proof.
  induction s as [| c r IH]; [reflexivity |]. cbn.
  intros H. apply andb_prop in H. destruct H as [Hc Hr].
  rewrite Hc. now apply IH.
Qed.

(** A normalized numeral is a JSON number. *)
Lemma normal_uint_number d :
  Decimal.unorm d = d -> isJSONNumber (uintUnits d) = true.
Proof.
  intros Hn.
  assert (d = Decimal.D0 Decimal.Nil
          \/ (d <> Decimal.Nil /\ forall d', d <> Decimal.D0 d')) as [-> | [H1 H2]].
  { destruct (Decimal.nzhead d) eqn:E.
    - left. rewrite <- Hn. unfold Decimal.unorm. now rewrite E.
    - exfalso. exact (DecimalFacts.nzhead_nonzero _ _ E).
    - right. unfold Decimal.unorm in Hn. rewrite E in Hn. subst d.
      split; [discriminate | discriminate].
    - right. unfold Decimal.unorm in Hn. rewrite E in Hn. subst d.
      split; [discriminate | discriminate].
    - right. unfold Decimal.unorm in Hn. rewrite E in Hn. subst d.
      split; [discriminate | discriminate].
    - right. unfold Decimal.unorm in Hn. rewrite E in Hn. subst d.
      split; [discriminate | discriminate].
    - right. unfold Decimal.unorm in Hn. rewrite E in Hn. subst d.
      split; [discriminate | discriminate].
    - right. unfold Decimal.unorm in Hn. rewrite E in Hn. subst d.
      split; [discriminate | discriminate].
    - right. unfold Decimal.unorm in Hn. rewrite E in Hn. subst d.
      split; [discriminate | discriminate].
    - right. unfold Decimal.unorm in Hn. rewrite E in Hn. subst d.
      split; [discriminate | discriminate].
    - right. unfold Decimal.unorm in Hn. rewrite E in Hn. subst d.
      split; [discriminate | discriminate]. }
  - reflexivity.
  - destruct d; try (now elim H1); try (now elim (H2 d));
      unfold isJSONNumber; cbn [uintUnits]; cbv beta iota;
      cbn [N.eqb Pos.eqb intPart isDigit N.leb N.compare Pos.compare
             Pos.compare_cont andb];
      rewrite (dropDigits_all _ (uintUnits_digits d)); reflexivity.
Qed.

Lemma natToString_number n : isJSONNumber (natToString n) = true.
Proof.
  apply normal_uint_number.
  pose proof (DecimalNat.Unsigned.to_of (Nat.to_uint n)) as H.
  rewrite DecimalNat.Unsigned.of_to in H. symmetry. exact H.
Qed.

Lemma pos_uint_normal p : Decimal.unorm (Pos.to_uint p) = Pos.to_uint p.
Proof.
  pose proof (DecimalPos.Unsigned.to_of (Pos.to_uint p)) as H.
  rewrite DecimalPos.Unsigned.of_to in H. symmetry. exact H.
Qed.

Lemma intToString_number z : isJSONNumber (intToString z) = true.
Proof.
  unfold intToString. destruct z as [| p | p]; cbn [Z.to_int].
  - reflexivity.
  - apply normal_uint_number, pos_uint_normal.
  - pose proof (normal_uint_number _ (pos_uint_normal p)) as H.
    unfold isJSONNumber in H |- *. cbn [N.eqb Pos.eqb].
    destruct (uintUnits (Pos.to_uint p)) as [| c t] eqn:E; [discriminate H |].
    destruct (N.eqb_spec c 45); [| exact H].
    subst c. pose proof (uintUnits_digits (Pos.to_uint p)) as Hd.
    rewrite E in Hd. discriminate Hd.
Qed.

Lemma integerOfText_intToString z : integerOfText (intToString z) = Some z.
Proof.
  rewrite <- (DecimalZ.of_to z) at 2.
  unfold intToString. destruct (Z.to_int z) as [d | d] eqn:E.
  - unfold integerOfText.
    destruct (uintUnits d) as [| c t] eqn:Eu.
    + exfalso. destruct z as [| p | p]; cbn in E; try discriminate;
        injection E as <-; [discriminate Eu |].
      apply (DecimalPos.Unsigned.to_uint_nonnil p).
      destruct (Pos.to_uint p); try discriminate. reflexivity.
    + destruct (N.eqb_spec c 45).
      * subst c. pose proof (uintUnits_digits d) as Hd. rewrite Eu in Hd.
        discriminate Hd.
      * rewrite <- Eu, unitsUint_uintUnits. reflexivity.
  - unfold integerOfText. cbn [N.eqb Pos.eqb].
    rewrite unitsUint_uintUnits. reflexivity.
Qed.

(** ** Reading back what [JSON.stringify] writes *)

(** Induction on a value, with the hypothesis for every element and for
    every member's value. *)
Lemma Json_nested_ind (P : Json JSNumber -> Prop) :
  P JUndefined -> P JNull -> (forall b, P (JBool b)) ->
  (forall n, P (JNumber n)) -> (forall s, P (JString s)) ->
  (forall l, Forall P l -> P (JArray l)) ->
  (forall ms, Forall (fun m => P (snd m)) ms -> P (JObject ms)) ->
  forall v, P v.
Proof.
  intros HU HN HB HNum HS HA HO. fix IH 1.
  intros [| | b | n | s | l | ms].
  - exact HU.
  - exact HN.
  - apply HB.
  - apply HNum.
  - apply HS.
  - apply HA. induction l as [| e r IHr]; constructor.
    + apply IH.
    + exact IHr.
  - apply HO. induction ms as [| m r IHr]; constructor.
    + apply IH.
    + exact IHr.
Qed.

Lemma skipWs_app_ws w s :
  forallb isJsonWs w = true -> skipWs (w ++ s) = skipWs s.
Proof.
  induction w as [| c w IH]; [reflexivity |]. cbn.
  intros H. apply andb_prop in H. destruct H as [Hc Hw].
  rewrite Hc. now apply IH.
Qed.

Lemma skipWs_head c t : isJsonWs c = false -> skipWs (c :: t) = c :: t.
Proof.
  intros H. cbn. now rewrite H.
Qed.

Lemma parseValue_ws fuel w s :
  forallb isJsonWs w = true -> parseValue fuel (w ++ s) = parseValue fuel s.
Proof.
  intros H. destruct fuel; [reflexivity |].
  cbn [parseValue]. now rewrite (skipWs_app_ws _ _ H).
Qed.

Lemma parseValue_string fuel r :
  parseValue (S fuel) (QUOTE :: r) =
  match parseChars r with
  | Some (str, rest) => Some (JString str, rest)
  | None => None
  end.
Proof. reflexivity. Qed.

Lemma parseValue_array fuel r :
  parseValue (S fuel) (91%N :: r) =
  match expect 93 (skipWs r) with
  | Some rest => Some (JArray [], rest)
  | None =>
      match parseElements fuel r with
      | Some (vs, rest) => Some (JArray vs, rest)
      | None => None
      end
  end.
Proof. reflexivity. Qed.

Lemma parseValue_object fuel r :
  parseValue (S fuel) (123%N :: r) =
  match expect 125 (skipWs r) with
  | Some rest => Some (JObject [], rest)
  | None =>
      match parseMembers fuel r with
      | Some (ms, rest) => Some (JObject ms, rest)
      | None => None
      end
  end.
Proof. reflexivity. Qed.

Lemma parseValue_number fuel c t :
  isNumberStart c = true ->
  parseValue (S fuel) (c :: t) =
  let (n, rest) := spanNumber (c :: t) in
  if isJSONNumber n then Some (JNumber n, rest) else None.
Proof.
  intros H.
  destruct (isNumberStart_facts _ H)
    as (H0 & H1 & H2 & H3 & H4 & H5 & H6 & _).
  cbn [parseValue]. rewrite (skipWs_head _ _ H0).
  now rewrite H1, H2, H3, H4, H5, H6.
Qed.

Lemma parseElements_S fuel s :
  parseElements (S fuel) s =
  match parseValue fuel s with
  | Some (v, rest) =>
      match expect 44 (skipWs rest) with
      | Some r =>
          match parseElements fuel r with
          | Some (vs, rest') => Some (v :: vs, rest')
          | None => None
          end
      | None =>
          match expect 93 (skipWs rest) with
          | Some r => Some ([v], r)
          | None => None
          end
      end
  | None => None
  end.
Proof. reflexivity. Qed.

Lemma parseMembers_S fuel s :
  parseMembers (S fuel) s =
  match expect 34 (skipWs s) with
  | Some r =>
      match parseChars r with
      | Some (key, rest) =>
          match expect 58 (skipWs rest) with
          | Some r1 =>
              match parseValue fuel r1 with
              | Some (v, rest1) =>
                  match expect 44 (skipWs rest1) with
                  | Some r2 =>
                      match parseMembers fuel r2 with
                      | Some (ms, rest') => Some ((key, v) :: ms, rest')
                      | None => None
                      end
                  | None =>
                      match expect 125 (skipWs rest1) with
                      | Some r2 => Some ([(key, v)], r2)
                      | None => None
                      end
                  end
              | None => None
              end
          | None => None
          end
      | None => None
      end
  | None => None
  end.
Proof. reflexivity. Qed.

Section RoundTrip.

Variable Number_toString : Q -> jsstring.
Hypothesis Number_toString_number :
  forall q, isJSONNumber (Number_toString q) = true.

Lemma numberText_number n : isJSONNumber (numberText Number_toString n) = true.
Proof.
  destruct n as [z | q]; cbn [numberText];
    [apply intToString_number | apply Number_toString_number].
Qed.

Lemma serialize_defined indent v :
  serialize Number_toString indent v = None <-> isDefined v = false.
Proof.
  destruct v as [| | b | n | s | l | ms]; cbn [serialize isDefined];
    try (split; discriminate); try tauto.
  - destruct (map _ l); split; discriminate.
  - destruct (flat_map _ ms); split; discriminate.
Qed.

Lemma textOf_array indent l :
  textOf Number_toString indent (JArray l) =
  match l with
  | [] => lit "[]"
  | _ :: _ =>
      lit "[" ++ [LF] ++ (indent ++ gap)
      ++ join (separator (indent ++ gap)) (map (textOf Number_toString (indent ++ gap)) l)
      ++ [LF] ++ indent ++ lit "]"
  end.
Proof.
  destruct l; reflexivity.
Qed.

Lemma written_members indent ms :
  flat_map (fun m => match serialize Number_toString indent (snd m) with
                     | Some t => [QuoteJSONString (fst m) ++ lit ": " ++ t]
                     | None => []
                     end) ms
  = map (memberText Number_toString indent) (present ms).
Proof.
  induction ms as [| m r IH]; [reflexivity |].
  cbn [flat_map present filter]. fold (present r).
  destruct (serialize Number_toString indent (snd m)) as [t |] eqn:E.
  - assert (isDefined (snd m) = true) as D.
    { destruct (isDefined (snd m)) eqn:D; [reflexivity |].
      apply (serialize_defined indent) in D. congruence. }
    rewrite D. cbn [map app]. rewrite IH. unfold memberText, textOf.
    now rewrite E.
  - apply serialize_defined in E. rewrite E. exact IH.
Qed.

Lemma textOf_object indent ms :
  textOf Number_toString indent (JObject ms) =
  match present ms with
  | [] => lit "{}"
  | _ :: _ =>
      lit "{" ++ [LF] ++ (indent ++ gap)
      ++ join (separator (indent ++ gap))
           (map (memberText Number_toString (indent ++ gap)) (present ms))
      ++ [LF] ++ indent ++ lit "}"
  end.
Proof.
  unfold textOf. cbn [serialize]. rewrite written_members.
  destruct (present ms) as [| m r]; reflexivity.
Qed.

Lemma reading_object ms :
  reading Number_toString (JObject ms) =
  JObject (map (fun m => (fst m, reading Number_toString (snd m))) (present ms)).
Proof.
  cbn [reading]. f_equal.
  induction ms as [| m r IH]; [reflexivity |].
  cbn [flat_map present filter]. fold (present r).
  destruct (isDefined (snd m)); cbn [map app]; now rewrite IH.
Qed.


Lemma parseValue_ws_cons fuel c w s :
  isJsonWs c = true -> forallb isJsonWs w = true ->
  parseValue fuel (c :: w ++ s) = parseValue fuel s.
Proof.
  intros Hc Hw. apply (parseValue_ws fuel (c :: w) s). cbn. now rewrite Hc.
Qed.

Lemma parseValue_ws_one fuel c s :
  isJsonWs c = true -> parseValue fuel (c :: s) = parseValue fuel s.
Proof.
  intros Hc. apply (parseValue_ws fuel [c] s). cbn. now rewrite Hc.
Qed.

Lemma skipWs_ws_cons c w x r :
  isJsonWs c = true -> forallb isJsonWs w = true -> isJsonWs x = false ->
  skipWs (c :: w ++ x :: r) = x :: r.
Proof.
  intros Hc Hw Hx. cbn [skipWs]. rewrite Hc, (skipWs_app_ws _ _ Hw).
  now apply skipWs_head.
Qed.

Lemma expect_same k r : expect k (k :: r) = Some r.
Proof.
  unfold expect. now rewrite N.eqb_refl.
Qed.

Lemma gap_ws indent :
  forallb isJsonWs indent = true -> forallb isJsonWs (indent ++ gap) = true.
Proof.
  intros H. rewrite forallb_app, H. reflexivity.
Qed.

Lemma join_cons separator x y rest :
  join separator (x :: y :: rest) = x ++ separator ++ join separator (y :: rest).
Proof. reflexivity. Qed.

Lemma parseElements_written l :
  Forall (readsBack Number_toString) l -> l <> [] ->
  forall indent stepback fuel rest,
    forallb isJsonWs indent = true -> forallb isJsonWs stepback = true ->
    list_sum (map (fun e => S (weight (reading Number_toString e))) l)
    <= fuel ->
    parseElements fuel
      (LF :: indent
          ++ join (separator indent) (map (textOf Number_toString indent) l)
          ++ LF :: stepback ++ 93%N :: rest)
    = Some (map (reading Number_toString) l, rest).
Proof.
  induction 1 as [| e l' He Hl IH]; [intros H; now elim H |].
  intros _ indent stepback fuel rest Hi Hs Hf.
  simpl in Hf. destruct fuel as [| fuel]; [lia |].
  rewrite parseElements_S, (parseValue_ws_cons _ LF _ _ eq_refl Hi).
  destruct l' as [| e2 l''].
  - cbn [map join].
    rewrite (He indent fuel) by first [assumption | lia | reflexivity].
    rewrite (skipWs_ws_cons LF _ 93%N _ eq_refl Hs eq_refl).
    reflexivity.
  - cbn [map]. rewrite join_cons. unfold separator at 1.
    change (lit ",") with [44%N].
    right_nest.
    rewrite (He indent fuel) by first [assumption | lia | reflexivity].
    rewrite (skipWs_head 44) by reflexivity. rewrite expect_same.
    cbn [map] in IH.
    rewrite (IH ltac:(discriminate) indent stepback fuel rest Hi Hs).
    + reflexivity.
    + simpl in Hf |- *. lia.
Qed.

Lemma parseMembers_written ms :
  Forall (fun m => readsBack Number_toString (snd m)) ms -> ms <> [] ->
  forall indent stepback fuel rest,
    forallb isJsonWs indent = true -> forallb isJsonWs stepback = true ->
    list_sum
      (map (fun m => S (weight (reading Number_toString (snd m)))) ms)
    <= fuel ->
    parseMembers fuel
      (LF :: indent
          ++ join (separator indent)
               (map (memberText Number_toString indent) ms)
          ++ LF :: stepback ++ 125%N :: rest)
    = Some (map (fun m => (fst m, reading Number_toString (snd m))) ms, rest).
Proof.
  induction 1 as [| m ms' Hm Hl IH]; [intros H; now elim H |].
  intros _ indent stepback fuel rest Hi Hs Hf.
  simpl in Hf. destruct fuel as [| fuel]; [lia |].
  rewrite parseMembers_S.
  assert (forall tail,
             skipWs (LF :: indent ++ memberText Number_toString indent m
                        ++ tail)
             = QUOTE :: quoteUnits (fst m)
                 ++ QUOTE :: 58%N :: SPACE
                 :: textOf Number_toString indent (snd m) ++ tail) as Hskip.
  { intros tail. unfold memberText, QuoteJSONString.
    change (lit ": ") with [58%N; SPACE]. right_nest.
    apply (skipWs_ws_cons LF _ QUOTE _ eq_refl Hi eq_refl). }
  destruct ms' as [| m2 ms''].
  - cbn [map join]. rewrite Hskip, expect_same, parseChars_quoted.
    rewrite (skipWs_head 58) by reflexivity. rewrite expect_same.
    rewrite (parseValue_ws_one _ SPACE _ eq_refl).
    rewrite (Hm indent fuel) by first [assumption | lia | reflexivity].
    rewrite (skipWs_ws_cons LF _ 125%N _ eq_refl Hs eq_refl).
    reflexivity.
  - cbn [map]. rewrite join_cons. unfold separator at 1.
    change (lit ",") with [44%N].
    rewrite <- app_assoc. rewrite Hskip, expect_same, parseChars_quoted.
    rewrite (skipWs_head 58) by reflexivity. rewrite expect_same.
    rewrite (parseValue_ws_one _ SPACE _ eq_refl).
    right_nest.
    rewrite (Hm indent fuel) by first [assumption | lia | reflexivity].
    rewrite (skipWs_head 44) by reflexivity. rewrite expect_same.
    cbn [map] in IH.
    rewrite (IH ltac:(discriminate) indent stepback fuel rest Hi Hs).
    + reflexivity.
    + simpl in Hf |- *. lia.
Qed.

Lemma textOf_start indent v :
  exists c t,
    textOf Number_toString indent v = c :: t
    /\ isJsonWs c = false /\ (c =? 93)%N = false /\ (c =? 125)%N = false.
Proof.
  destruct v as [| | b | n | s | l | ms].
  - exists 110%N, (lit "ull"). repeat split.
  - exists 110%N, (lit "ull"). repeat split.
  - destruct b; [exists 116%N, (lit "rue") | exists 102%N, (lit "alse")];
      repeat split.
  - unfold textOf. cbn [serialize].
    destruct (isJSONNumber_units _ (numberText_number n))
      as (_ & c & t & E & Hc).
    destruct (isNumberStart_facts _ Hc) as (H0 & _ & _ & _ & _ & _ & _ & H1 & H2).
    exists c, t. auto.
  - exists QUOTE, (quoteUnits s ++ [QUOTE]). repeat split.
  - rewrite textOf_array. destruct l.
    + exists 91%N, [93%N]. repeat split.
    + eexists 91%N, _. repeat split.
  - rewrite textOf_object. destruct (present ms).
    + exists 123%N, [125%N]. repeat split.
    + eexists 123%N, _. repeat split.
Qed.

Lemma expect_other k c r : (c =? k)%N = false -> expect k (c :: r) = None.
Proof.
  intros H. unfold expect. now rewrite H.
Qed.

Lemma reads_back v : readsBack Number_toString v.
Proof.
  induction v as [| | b | n | s | l IH | ms IH] using Json_nested_ind;
    intros indent fuel rest Hi Hf Hr;
    (destruct fuel as [| fuel];
     [destruct l + destruct ms + idtac; cbn in Hf; lia |]).
  - reflexivity.
  - reflexivity.
  - destruct b; reflexivity.
  - unfold textOf. cbn [serialize reading].
    destruct (isJSONNumber_units _ (numberText_number n))
      as (Hu & c & t & E & Hc).
    rewrite E in Hu |- *. cbn [app].
    rewrite (parseValue_number _ _ _ Hc).
    change (c :: t ++ rest) with ((c :: t) ++ rest).
    rewrite (spanNumber_app _ _ Hu Hr). rewrite <- E.
    now rewrite numberText_number.
  - unfold textOf. cbn [serialize reading]. unfold QuoteJSONString.
    right_nest. rewrite parseValue_string, parseChars_quoted. reflexivity.
  - rewrite textOf_array. cbn [reading]. destruct l as [| e l'].
    + reflexivity.
    + change (lit "[") with [91%N]. change (lit "]") with [93%N].
      right_nest. rewrite parseValue_array.
      destruct (textOf_start (indent ++ gap) e) as (c & t & E & H0 & H1 & _).
      assert (expect 93
                (skipWs
                   (LF :: (indent ++ gap)
                       ++ join (separator (indent ++ gap))
                            (map (textOf Number_toString (indent ++ gap))
                               (e :: l'))
                       ++ LF :: indent ++ 93%N :: rest)) = None) as Hne.
      { cbn [map]. destruct l' as [| e2 l''].
        - cbn [join map]. rewrite E. cbn [app].
          rewrite (skipWs_ws_cons LF _ c _ eq_refl (gap_ws _ Hi) H0).
          now apply expect_other.
        - cbn [map]. rewrite join_cons, E. cbn [app].
          rewrite (skipWs_ws_cons LF _ c _ eq_refl (gap_ws _ Hi) H0).
          now apply expect_other. }
      rewrite <- !app_assoc in Hne. rewrite Hne.
      pose proof (parseElements_written (e :: l') IH ltac:(discriminate)
                    (indent ++ gap) indent fuel rest (gap_ws _ Hi) Hi) as Hp.
      rewrite <- !app_assoc in Hp. rewrite Hp; [reflexivity |].
      cbn [reading weight] in Hf. rewrite map_map in Hf. cbv beta in Hf.
      lia.
  - rewrite textOf_object, reading_object. rewrite reading_object in Hf.
    destruct (present ms) as [| m ms'] eqn:Ep.
    + reflexivity.
    + assert (Forall (fun m => readsBack Number_toString (snd m)) (m :: ms')) as IH'.
      { rewrite <- Ep. apply Forall_forall. intros x Hx.
        apply (proj1 (Forall_forall _ _) IH). unfold present in Hx.
        apply filter_In in Hx. tauto. }
      change (lit "{") with [123%N]. change (lit "}") with [125%N].
      right_nest. rewrite parseValue_object.
      assert (expect 125
                (skipWs
                   (LF :: (indent ++ gap)
                       ++ join (separator (indent ++ gap))
                            (map (memberText Number_toString (indent ++ gap))
                               (m :: ms'))
                       ++ LF :: indent ++ 125%N :: rest)) = None) as Hne.
      { cbn [map]. destruct ms' as [| m2 ms''].
        - cbn [join map]. unfold memberText at 1, QuoteJSONString.
          cbn [app].
          now rewrite (skipWs_ws_cons LF _ QUOTE _ eq_refl (gap_ws _ Hi) eq_refl).
        - cbn [map]. rewrite join_cons.
          unfold memberText at 1, QuoteJSONString.
          cbn [app].
          now rewrite (skipWs_ws_cons LF _ QUOTE _ eq_refl (gap_ws _ Hi) eq_refl). }
      rewrite <- !app_assoc in Hne. rewrite Hne.
      pose proof (parseMembers_written (m :: ms') IH' ltac:(discriminate)
                    (indent ++ gap) indent fuel rest (gap_ws _ Hi) Hi) as Hp.
      rewrite <- !app_assoc in Hp. rewrite Hp; [reflexivity |].
      cbn [weight] in Hf. rewrite map_map in Hf. cbn [snd] in Hf.
      cbv beta in Hf. lia.
Qed.

End RoundTrip.

Lemma join_weight_bound (A : Type) (w : A -> nat) (t : A -> jsstring)
  (separator : jsstring) (l : list A) :
  Forall (fun x => w x <= 2 * length (t x)) l ->
  2 <= length separator ->
  list_sum (map (fun x => S (w x)) l)
  <= 2 * length (join separator (map t l)) + 1.
Proof.
  intros H Hs. induction H as [| x l' Hx Hl IH]; [cbn; lia |].
  destruct l' as [| y r].
  - cbn. lia.
  - cbn [map]. rewrite join_cons. cbn [map] in IH.
    rewrite !length_app. simpl list_sum in IH |- *. lia.
Qed.

Section FuelBound.

Variable Number_toString : Q -> jsstring.
Hypothesis Number_toString_number :
  forall q, isJSONNumber (Number_toString q) = true.

Lemma separator_length indent : 2 <= length (separator indent).
Proof.
  unfold separator. change (lit ",") with [44%N].
  rewrite !length_app. cbn [length]. lia.
Qed.

(** Two units of fuel per unit of text are enough. *)
Lemma weight_bound v :
  forall indent,
    weight (reading Number_toString v)
    <= 2 * length (textOf Number_toString indent v).
Proof.
  induction v as [| | b | n | s | l IH | ms IH] using Json_nested_ind;
    intros indent.
  - vm_compute. lia.
  - vm_compute. lia.
  - destruct b; vm_compute; lia.
  - unfold textOf. cbn [serialize reading weight].
    destruct (isJSONNumber_units _
                (numberText_number _ Number_toString_number n))
      as (_ & c & t & E & _).
    rewrite E. cbn [length]. lia.
  - unfold textOf. cbn [serialize reading weight]. unfold QuoteJSONString.
    cbn [length]. lia.
  - rewrite textOf_array. cbn [reading weight]. destruct l as [| e l'].
    + vm_compute. lia.
    + rewrite map_map.
      pose proof (join_weight_bound _
                    (fun e => weight (reading Number_toString e))
                    (textOf Number_toString (indent ++ gap))
                    (separator (indent ++ gap)) (e :: l')) as Hj.
      rewrite !length_app. cbn [length].
      assert (Forall
                (fun x => weight (reading Number_toString x)
                          <= 2 * length (textOf Number_toString
                                           (indent ++ gap) x)) (e :: l'))
        as Hall.
      { eapply Forall_impl; [| exact IH]. intros x Hx. apply Hx. }
      specialize (Hj Hall (separator_length _)). cbv beta. lia.
  - rewrite textOf_object, reading_object. cbn [weight].
    destruct (present ms) as [| m ms'] eqn:Ep.
    + vm_compute. lia.
    + rewrite map_map. cbn [snd].
      pose proof (join_weight_bound _
                    (fun m => weight (reading Number_toString (snd m)))
                    (memberText Number_toString (indent ++ gap))
                    (separator (indent ++ gap)) (m :: ms')) as Hj.
      rewrite !length_app. cbn [length].
      assert (Forall
                (fun x => weight (reading Number_toString (snd x))
                          <= 2 * length (memberText Number_toString
                                           (indent ++ gap) x)) (m :: ms'))
        as Hall.
      { rewrite <- Ep. apply Forall_forall. intros x Hx.
        unfold present in Hx. apply filter_In in Hx. destruct Hx as [Hx _].
        pose proof (proj1 (Forall_forall _ _) IH x Hx (indent ++ gap)) as Hb.
        unfold memberText. rewrite !length_app. lia. }
      specialize (Hj Hall (separator_length _)). cbv beta. lia.
Qed.

Lemma JSON_stringify_textOf v :
  isDefined v = true ->
  JSON_stringify Number_toString v = textOf Number_toString [] v.
Proof.
  intros H. unfold JSON_stringify, textOf.
  destruct (serialize Number_toString [] v) eqn:E; [reflexivity |].
  apply serialize_defined in E. congruence.
Qed.

(** Parsing the text of a value gives its reading. *)
Lemma JSON_parse_stringify v :
  isDefined v = true ->
  JSON_parse (JSON_stringify Number_toString v)
  = Some (reading Number_toString v).
Proof.
  intros H. rewrite (JSON_stringify_textOf _ H). unfold JSON_parse.
  pose proof (reads_back Number_toString Number_toString_number v []
                (2 * length (textOf Number_toString [] v) + 2) []
                eq_refl) as Hr.
  rewrite app_nil_r in Hr. rewrite Hr; [reflexivity | | reflexivity].
  pose proof (weight_bound v []). lia.
Qed.

End FuelBound.

Lemma reading_comment Number_toString c z :
  score c = ScoreNum z ->
  integerProperty (lit "score") (reading Number_toString (commentObj c))
  = Some z
  /\ integerProperty (lit "depth") (reading Number_toString (commentObj c))
     = Some (Z.of_nat (depth c)).
Proof.
  intros Es. unfold commentObj. rewrite Es. split.
  - change (integerOfText (intToString z) = Some z).
    apply integerOfText_intToString.
  - change (integerOfText (intToString (Z.of_nat (depth c)))
            = Some (Z.of_nat (depth c))).
    apply integerOfText_intToString.
Qed.

(** C8.  When every record carries an integer score, parsing the text the
    JSON renderer writes succeeds and gives back the object as a reader
    sees it; its [comments] member is an array with one element per record
    of the sequence, in order, and the [score] and [depth] of the i-th
    element are those of the i-th record.  The text [fetchThread] stores is
    the rendering of the sorted sequence, so this holds of it. *)
Theorem json_round_trip (Number_toString : Q -> jsstring)
  (post : Post) (newStats : Stats) (comments : list CommentItem)
  (commentsRaw : list Item) :
  (forall q, isJSONNumber (Number_toString q) = true) ->
  forallb hasIntegerScore comments = true ->
  JSON_parse (JSON_stringify Number_toString (jsonObj post newStats comments))
  = Some (reading Number_toString (jsonObj post newStats comments))
  /\ parsedComments (reading Number_toString (jsonObj post newStats comments))
     = Some (map (fun c => reading Number_toString (commentObj c)) comments)
  /\ length (map (fun c => reading Number_toString (commentObj c)) comments)
     = length comments
  /\ (forall i c,
         nth_error comments i = Some c ->
         exists item,
           nth_error
             (map (fun c => reading Number_toString (commentObj c)) comments)
             i = Some item
           /\ score c = ScoreNum (scoreOf c)
           /\ integerProperty (lit "score") item = Some (scoreOf c)
           /\ integerProperty (lit "depth") item = Some (Z.of_nat (depth c)))
  /\ json (snd (buildOutputs Number_toString post commentsRaw))
     = JSON_stringify Number_toString
         (jsonObj post
            (computeStats post
               (Array_sort byScore (walkComments commentsRaw 0 [])))
            (Array_sort byScore (walkComments commentsRaw 0 []))).
Proof.
  intros Hnum Hint.
  split; [apply (JSON_parse_stringify _ Hnum); reflexivity |].
  split; [unfold parsedComments; cbn; now rewrite map_map |].
  split; [apply length_map |].
  split; [| reflexivity].
  intros i c Hc.
  exists (reading Number_toString (commentObj c)).
  split; [now rewrite nth_error_map, Hc |].
  assert (score c = ScoreNum (scoreOf c)) as Es.
  { apply nth_error_In in Hc.
    pose proof (proj1 (forallb_forall _ _) Hint c Hc) as H.
    unfold hasIntegerScore in H. unfold scoreOf.
    destruct (score c); try discriminate H. reflexivity. }
  split; [exact Es |]. apply (reading_comment Number_toString c _ Es).
Qed.

(** The scenario's thread, with a printer that writes every quotient as
    ["0"]. *)
Lemma json_round_trip_witness :
  JSON_parse
    (JSON_stringify (fun _ => lit "0")
       (jsonObj helloPost
          (computeStats helloPost
             [sampleComment "c1" 5 (lit "top");
              sampleComment "c2" (-1) (lit "meh")])
          [sampleComment "c1" 5 (lit "top");
           sampleComment "c2" (-1) (lit "meh")]))
  = Some
      (reading (fun _ => lit "0")
         (jsonObj helloPost
            (computeStats helloPost
               [sampleComment "c1" 5 (lit "top");
                sampleComment "c2" (-1) (lit "meh")])
            [sampleComment "c1" 5 (lit "top");
             sampleComment "c2" (-1) (lit "meh")])).
Proof.
  refine (proj1 (json_round_trip (fun _ => lit "0") helloPost _ _ [] _ _)).
  - intros q. reflexivity.
  - reflexivity.
Defined.

(** The sample thread, written and read back by evaluation. *)
Example json_sample_read_back :
  match
    JSON_parse
      (JSON_stringify (fun _ => lit "0.5")
         (jsonObj helloPost
            (computeStats helloPost
               [sampleComment "c1" 5 (lit "top" ++ [QUOTE; LF; 55357%N]);
                sampleComment "c2" (-1) (lit "meh")])
            [sampleComment "c1" 5 (lit "top" ++ [QUOTE; LF; 55357%N]);
             sampleComment "c2" (-1) (lit "meh")]))
  with
  | Some doc =>
      option_map
        (map (fun item => (integerProperty (lit "score") item,
                           integerProperty (lit "depth") item)))
        (parsedComments doc)
  | None => None
  end = Some [(Some 5%Z, Some 0%Z); (Some (-1)%Z, Some 0%Z)].
Proof.
  vm_compute. reflexivity.
Qed.

(** * Further properties of the code *)

(** ** The normalizer and white space around the input *)

Lemma trimStart_app_white pre s :
  forallb isWhiteSpace pre = true -> trimStart (pre ++ s) = trimStart s.
Proof.
  induction pre as [| c pre IH]; [reflexivity |]. cbn.
  intros H. apply andb_prop in H. destruct H as [Hc Hp].
  rewrite Hc. now apply IH.
Qed.

Lemma trimStart_nil_white s :
  trimStart s = [] -> forallb isWhiteSpace s = true.
Proof.
  induction s as [| c r IH]; [reflexivity |]. cbn.
  destruct (isWhiteSpace c); [exact IH | discriminate].
Qed.

Lemma trimStart_app_kept s suf :
  trimStart s <> [] -> trimStart (s ++ suf) = trimStart s ++ suf.
Proof.
  induction s as [| c r IH]; [intros H; now elim H |]. cbn.
  destruct (isWhiteSpace c); [exact IH | reflexivity].
Qed.

Lemma trimEnd_app_white s suf :
  forallb isWhiteSpace suf = true -> trimEnd (s ++ suf) = trimEnd s.
Proof.
  intros H. unfold trimEnd. rewrite rev_app_distr.
  rewrite trimStart_app_white; [reflexivity |]. now rewrite forallb_rev.
Qed.

(** White space around a string does not change its trimmed form. *)
Lemma trim_padded pre s suf :
  forallb isWhiteSpace pre = true -> forallb isWhiteSpace suf = true ->
  trim (pre ++ s ++ suf) = trim s.
Proof.
  intros Hp Hs. unfold trim. rewrite (trimStart_app_white pre _ Hp).
  destruct (trimStart s) as [| c t] eqn:E.
  - pose proof (trimStart_nil_white s E) as Hw.
    rewrite (trimStart_app_white s suf Hw).
    now rewrite (trimStart_all_white suf Hs).
  - rewrite trimStart_app_kept by (rewrite E; discriminate).
    rewrite E. now apply trimEnd_app_white.
Qed.

Lemma trim_idempotent s : trim (trim s) = trim s.
Proof.
  destruct (trim_split s) as (pre & suf & E & Hp & Hs).
  rewrite E at 2. symmetry. now apply trim_padded.
Qed.

Lemma normalize_depends_on_trim URL_pathname a b :
  trim a = trim b ->
  normalizeToPostId URL_pathname a = normalizeToPostId URL_pathname b.
Proof.
  intros E. unfold normalizeToPostId. cbn zeta. now rewrite E.
Qed.

(** X1.  White space typed or pasted around the input plays no part: the
    normalizer gives the same answer for the padded input, for the input and
    for its trimmed form; and an identifier it returned on the bare-token
    path is returned unchanged when normalized again. *)
Theorem normalize_ignores_padding
  (URL_pathname : jsstring -> option jsstring) (pre input suf : jsstring) :
  forallb isWhiteSpace pre = true ->
  forallb isWhiteSpace suf = true ->
  normalizeToPostId URL_pathname (pre ++ input ++ suf)
  = normalizeToPostId URL_pathname input
  /\ normalizeToPostId URL_pathname (trim input)
     = normalizeToPostId URL_pathname input
  /\ (includes SLASH (trim input) = false ->
      includes SPACE (trim input) = false ->
      normalizeToPostId URL_pathname input = Some (trim input)
      /\ normalizeToPostId URL_pathname (trim input) = Some (trim input)).
Proof.
  intros Hp Hs.
  assert (normalizeToPostId URL_pathname (trim input)
          = normalizeToPostId URL_pathname input) as Ht
    by (apply normalize_depends_on_trim, trim_idempotent).
  split; [| split].
  - apply normalize_depends_on_trim. now apply trim_padded.
  - exact Ht.
  - intros H1 H2. rewrite Ht. split; now apply normalize_bare.
Qed.

(** A thread URL pasted with a leading tab and a trailing newline. *)
Lemma normalize_ignores_padding_witness :
  normalizeToPostId URLFragment.pathname
    ([9%N; SPACE] ++ lit "https://example.com/comments/abc123/" ++ [LF])
  = Some (lit "abc123").
Proof.
  rewrite (proj1 (normalize_ignores_padding URLFragment.pathname
                    [9%N; SPACE] (lit "https://example.com/comments/abc123/")
                    [LF] eq_refl eq_refl)).
  reflexivity.
Defined.

(** ** The identifier never holds a slash *)

Lemma split_segments_no_separator sep s :
  Forall (fun seg => ~ In sep seg) (split sep s).
Proof.
  induction s as [| c r IH]; cbn [split].
  - constructor; [intros [] | constructor].
  - destruct (N.eqb_spec c sep) as [-> | Hne].
    + constructor; [intros [] | exact IH].
    + destruct (split sep r) as [| seg segs]; inversion IH; subst.
      * constructor; [| constructor]. intros [H | []]. now elim Hne.
      * constructor; [| assumption].
        intros [H | H]; [now elim Hne | contradiction].
Qed.

Lemma afterComments_In parts seg :
  afterComments parts = Some seg -> In seg parts.
Proof.
  intros H. apply afterComments_Some in H.
  destruct H as (pre & post & -> & _).
  apply in_or_app. right. right. now left.
Qed.

(** X2.  Whatever the input and whatever the URL parser answers, an
    identifier the normalizer returns holds no [/]; on the URL path it is
    moreover not empty.  So the request URL built from it has the path
    [/comments/<id>.json] and nothing else. *)
Theorem normalize_result_has_no_slash
  (URL_pathname : jsstring -> option jsstring) (input identifier : jsstring) :
  normalizeToPostId URL_pathname input = Some identifier ->
  ~ In SLASH identifier
  /\ (includes SLASH (trim input) = true
      \/ includes SPACE (trim input) = true -> identifier <> []).
Proof.
  intros H. split.
  - unfold normalizeToPostId in H. cbn zeta in H.
    destruct (negb (includes SLASH (trim input))
              && negb (includes SPACE (trim input))) eqn:E.
    + injection H as <-. apply andb_prop in E. destruct E as [E _].
      apply negb_true_iff in E. now apply includes_false_iff.
    + destruct (URL_pathname (trim input)) as [pathname |]; [| discriminate].
      rewrite idFromPathname_afterComments in H.
      apply afterComments_In in H. unfold segments in H.
      apply filter_In in H. destruct H as [H _].
      exact (proj1 (Forall_forall _ _)
               (split_segments_no_separator SLASH pathname) _ H).
  - intros Hu Hnil. subst identifier.
    rewrite (normalize_url URL_pathname input Hu) in H.
    destruct (URL_pathname (trim input)) as [pathname |]; [| discriminate].
    rewrite idFromPathname_afterComments in H.
    apply afterComments_In in H.
    pose proof (proj1 (Forall_forall _ _) (segments_nonempty pathname) _ H)
      as Hb.
    discriminate Hb.
Qed.

(** A thread URL with a query-free path. *)
Lemma normalize_result_has_no_slash_witness :
  ~ In SLASH (lit "abc123").
Proof.
  refine (proj1 (normalize_result_has_no_slash URLFragment.pathname
                   (lit "https://example.com/r/test/comments/abc123/slug/")
                   (lit "abc123") _)).
  reflexivity.
Defined.

(** ** More on the walk *)

Lemma orElse_nonempty x fallback : fallback <> [] -> orElse x fallback <> [].
Proof.
  intros H. destruct x as [[| c s] |]; cbn; try exact H. discriminate.
Qed.

Lemma flatten_withAncestors d items :
  flatten d items =
  map (fun p => recordOf (snd p) (d + length (fst p)))
    (flat_map (withAncestors []) items).
Proof.
  unfold flatten. apply flat_map_map_forall. apply Forall_forall.
  intros i _. rewrite <- (flattenItem_withAncestors i d []). cbn.
  now rewrite Nat.add_0_r.
Qed.

(** X3.  Every record the walk produces has a non-empty author: the node's
    own when it has one, the sentinel ["[deleted]"] when the node's author is
    missing or empty; and the records already in [out] are left as they
    are: the walk only appends, and what it appends does not depend on
    [out]. *)
Theorem walk_authors_never_empty (items : list Item) (start : nat)
  (out : list CommentItem) :
  walkComments items start out = out ++ walkComments items start []
  /\ firstn (length out) (walkComments items start out) = out
  /\ Forall (fun c => author c <> []) (flatten start items)
  /\ (Forall (fun c => author c <> []) out ->
      Forall (fun c => author c <> []) (walkComments items start out))
  /\ Forall (fun c => author c <> []) (walkComments items start [])
  /\ (forall fields depth,
         recordOf fields depth =
         {| id := f_id fields;
            author := match f_author fields with
                      | Some (x :: name) => x :: name
                      | _ => lit "[deleted]"
                      end;
            score := f_score fields;
            body := match f_body fields with
                    | Some text => text
                    | None => []
                    end;
            parent_id := f_parent_id fields;
            depth := depth |}).
Proof.
  assert (forall d l, Forall (fun c => author c <> []) (flatten d l)) as H.
  { intros d l. rewrite flatten_withAncestors. apply Forall_forall.
    intros c Hc. apply in_map_iff in Hc. destruct Hc as (p & <- & _).
    cbn. apply orElse_nonempty. discriminate. }
  split; [| split; [| split; [apply H | split; [| split]]]].
  - rewrite (walkComments_flatten items start out).
    now rewrite (walkComments_flatten items start []).
  - rewrite (walkComments_flatten items start out).
    rewrite firstn_app, Nat.sub_diag, firstn_all. cbn [firstn].
    apply app_nil_r.
  - intros Ho. rewrite walkComments_flatten. apply Forall_app. split; auto.
  - rewrite walkComments_flatten. apply H.
  - intros fields d. unfold recordOf, orElse. f_equal.
    destruct (f_body fields) as [[| x t] |]; reflexivity.
Qed.

(** The sample forest, walked into an empty array. *)
Lemma walk_authors_never_empty_witness :
  Forall (fun c => author c <> []) (walkComments sampleForest 0 []).
Proof.
  refine (proj1 (proj2 (proj2 (proj2
            (walk_authors_never_empty sampleForest 0 [])))) _).
  constructor.
Defined.

Lemma depthSteps_app d a b :
  depthSteps a -> depthSteps b ->
  Forall (fun c => d <= depth c) a -> startsAtDepth d b ->
  depthSteps (a ++ b).
Proof.
  intros Ha Hb Hlow Hstart. induction a as [| x a IH]; [exact Hb |].
  inversion Hlow as [| ? ? Hx Hlow']; subst.
  destruct a as [| y a'].
  - cbn [app]. destruct b as [| z b']; [exact I |].
    cbn in Hstart. split; [lia | exact Hb].
  - destruct Ha as [Hxy Ha]. split; [exact Hxy |]. now apply IH.
Qed.

Lemma startsAtDepth_app d a b :
  startsAtDepth d a -> startsAtDepth d b -> startsAtDepth d (a ++ b).
Proof.
  destruct a; auto.
Qed.

Lemma wellNested_flat_map d (f : Item -> list CommentItem) items :
  Forall (fun i => wellNested d (f i)) items ->
  wellNested d (flat_map f items).
Proof.
  induction 1 as [| i r (H1 & H2 & H3) Hr (I1 & I2 & I3)]; cbn [flat_map].
  - repeat split; constructor.
  - repeat split.
    + apply Forall_app. now split.
    + now apply (depthSteps_app d).
    + now apply startsAtDepth_app.
Qed.

Lemma flattenItem_wellNested item :
  forall d, wellNested d (flattenItem d item).
Proof.
  induction item as [| kind c | kind c items IH] using Item_forest_ind;
    intros d; cbn [flattenItem].
  - repeat split; constructor.
  - destruct (jsstring_eqb kind (lit "t1")); repeat split;
      try constructor; auto; constructor.
  - destruct (jsstring_eqb kind (lit "t1"));
      [| repeat split; constructor].
    assert (wellNested (S d) (flat_map (flattenItem (S d)) items))
      as (H1 & H2 & H3).
    { apply wellNested_flat_map. eapply Forall_impl; [| exact IH].
      intros i Hi. apply Hi. }
    split; [| split].
    + constructor; [cbn; lia |].
      eapply Forall_impl; [| exact H1]. cbn. intros x Hx. lia.
    + destruct (flat_map (flattenItem (S d)) items) as [| y t]; [exact I |].
      cbn in H3. split; [cbn; lia | exact H2].
    + reflexivity.
Qed.

(** X4.  The flattened sequence is well nested: it starts at the caller's
    depth, no record is shallower than that, and each record is at most one
    level deeper than the record before it, so a reply never appears
    without its parent's level having been opened. *)
Theorem walk_depths_step_by_one (items : list Item) (start : nat) :
  Forall (fun c => start <= depth c) (walkComments items start [])
  /\ depthSteps (walkComments items start [])
  /\ startsAtDepth start (walkComments items start []).
Proof.
  rewrite walkComments_flatten. cbn [app]. unfold flatten.
  apply wellNested_flat_map. apply Forall_forall. intros i _.
  apply flattenItem_wellNested.
Qed.

(** X5.  The count and the total that [fetchThread] shows are those of the
    payload, whatever the scores: [totalComments] is the number of comment
    nodes reached through comment nodes, [totalCommentScore] the sum of
    their scores (missing or [null] counted as 0), and the sorted array the
    renderers read is a rearrangement of the walk's output. *)
Theorem pipeline_counts_payload (Number_toString : Q -> jsstring)
  (post : Post) (commentsRaw : list Item) :
  totalComments (fst (buildOutputs Number_toString post commentsRaw))
  = list_sum (map countComments commentsRaw)
  /\ totalCommentScore (fst (buildOutputs Number_toString post commentsRaw))
     = Zsum (map (fun p => scoreOrZero (f_score (snd p)))
               (flat_map (withAncestors []) commentsRaw))
  /\ postScore (fst (buildOutputs Number_toString post commentsRaw))
     = p_score post
  /\ Permutation (walkComments commentsRaw 0 [])
       (Array_sort byScore (walkComments commentsRaw 0 [])).
Proof.
  assert (fst (buildOutputs Number_toString post commentsRaw)
          = computeStats post (flatten 0 commentsRaw)) as E.
  { unfold buildOutputs. cbn [fst]. rewrite walkComments_flatten. cbn [app].
    symmetry. apply computeStats_perm. apply Array_sort_perm. }
  rewrite E. split; [| split; [| split]].
  - cbn [computeStats totalComments]. unfold flatten.
    apply length_flat_map_sum. apply Forall_forall. intros i _.
    apply flattenItem_length.
  - rewrite totalCommentScore_sum, flatten_withAncestors, map_map.
    reflexivity.
  - reflexivity.
  - apply Array_sort_perm.
Qed.

(** ** Which comments the text formats show *)

Lemma trim_nil_iff s : trim s = [] <-> forallb isWhiteSpace s = true.
Proof.
  split; [| apply trim_all_white].
  intros E. destruct (trim_split s) as (pre & suf & Es & Hp & Hs).
  rewrite E in Es. cbn [app] in Es. rewrite Es, forallb_app, Hp, Hs.
  reflexivity.
Qed.

Lemma withoutWhite_nil_iff s :
  withoutWhite s = [] <-> forallb isWhiteSpace s = true.
Proof.
  split; [| apply withoutWhite_all_white].
  induction s as [| c r IH]; [reflexivity |].
  unfold withoutWhite in *. cbn.
  destruct (isWhiteSpace c); cbn; [exact IH | discriminate].
Qed.

Lemma oneLine_nil_iff s : oneLine s = [] <-> forallb isWhiteSpace s = true.
Proof.
  unfold oneLine. rewrite trim_nil_iff, <- !withoutWhite_nil_iff.
  destruct (collapse_white_from s [] eq_refl) as (_ & _ & H).
  fold (replaceRuns isWhiteSpace 1 [SPACE] s) in H.
  fold (collapseWhitespace s) in H. now rewrite H.
Qed.

Lemma formatCommentLLM_nil_iff c :
  formatCommentLLM c = [] <-> trim (body c) = [].
Proof.
  rewrite formatCommentLLM_block. unfold blockLLM.
  destruct (trim (body c)) as [| x b]; [tauto |].
  change (lit "[d") with [91%N; 100%N]. cbn [app].
  split; discriminate.
Qed.

Lemma formatCommentToon_nil_iff c :
  formatCommentToon c = [] <-> oneLine (body c) = [].
Proof.
  rewrite formatCommentToon_line. unfold lineToon.
  destruct (oneLine (body c)) as [| x b]; [tauto |].
  change (lit "d") with [100%N]. cbn [app].
  split; discriminate.
Qed.

(** X6.  The two text formats leave out exactly the same comments, those
    whose body is empty or made of white space only (so also every comment
    whose body is missing in the payload); every other comment yields a
    non-empty block and a non-empty line. *)
Theorem text_formats_drop_blank_bodies (c : CommentItem) (fields : Fields)
  (depth : nat) :
  (formatCommentLLM c = [] <-> forallb isWhiteSpace (body c) = true)
  /\ (formatCommentToon c = [] <-> forallb isWhiteSpace (body c) = true)
  /\ (formatCommentLLM c = [] <-> formatCommentToon c = [])
  /\ (f_body fields = None ->
      formatCommentLLM (recordOf fields depth) = []
      /\ formatCommentToon (recordOf fields depth) = []).
Proof.
  assert (formatCommentLLM c = [] <-> forallb isWhiteSpace (body c) = true)
    as H1 by (rewrite formatCommentLLM_nil_iff; apply trim_nil_iff).
  assert (formatCommentToon c = [] <-> forallb isWhiteSpace (body c) = true)
    as H2 by (rewrite formatCommentToon_nil_iff; apply oneLine_nil_iff).
  split; [exact H1 | split; [exact H2 | split; [tauto |]]].
  intros E. unfold formatCommentLLM, formatCommentToon, recordOf.
  cbn [body]. rewrite E. split; reflexivity.
Qed.

(** A comment whose body is missing, and one whose body is a tab and two
    newlines. *)
Lemma text_formats_drop_blank_bodies_witness :
  formatCommentLLM
    (recordOf {| f_id := lit "k"; f_author := Some (lit "ann");
                 f_score := ScoreNum 3; f_body := None;
                 f_parent_id := lit "t3_post" |} 2) = []
  /\ formatCommentToon (sampleComment "c1" 5 [9%N; LF; LF]) = [].
Proof.
  pose proof (text_formats_drop_blank_bodies
                (sampleComment "c1" 5 [9%N; LF; LF])
                {| f_id := lit "k"; f_author := Some (lit "ann");
                   f_score := ScoreNum 3; f_body := None;
                   f_parent_id := lit "t3_post" |} 2)
    as (_ & H2 & _ & H4).
  split.
  - apply H4. reflexivity.
  - apply H2. reflexivity.
Defined.

(** ** One line per comment *)

Lemma includes_app c a b : includes c (a ++ b) = includes c a || includes c b.
Proof.
  apply existsb_app.
Qed.

Lemma uintUnits_no_newline d : includes LF (uintUnits d) = false.
Proof.
  induction d; cbn [uintUnits]; try reflexivity; exact IHd.
Qed.

Lemma oneLine_includes_no_newline text : includes LF (oneLine text) = false.
Proof.
  apply includes_false_iff. apply oneLine_no_newline.
Qed.

(** X7.  When the author holds no newline, the compact line of a comment
    with a non-blank body is one line indeed: it ends with a newline and
    holds no other. *)
Theorem compact_line_is_one_line (c : CommentItem) :
  includes LF (author c) = false ->
  forallb isWhiteSpace (body c) = false ->
  exists line,
    formatCommentToon c = line ++ [LF]
    /\ includes LF line = false /\ line <> [].
Proof.
  intros Ha Hb. rewrite formatCommentToon_line. unfold lineToon.
  destruct (oneLine (body c)) as [| x b] eqn:E.
  - apply oneLine_nil_iff in E. congruence.
  - exists (lit "d" ++ natToString (depth c) ++ [SPACE; MIDDLE_DOT; SPACE]
              ++ lit "u/" ++ author c ++ lit ":" ++ [SPACE] ++ x :: b).
    split; [| split].
    + right_nest. reflexivity.
    + pose proof (oneLine_includes_no_newline (body c)) as Hl.
      rewrite E in Hl. unfold natToString.
      rewrite !includes_app, uintUnits_no_newline, Ha, Hl. reflexivity.
    + change (lit "d") with [100%N]. discriminate.
Qed.

(** A two-paragraph comment by bob. *)
Lemma compact_line_is_one_line_witness :
  exists line,
    formatCommentToon
      (sampleComment "c1" 5 (lit "first" ++ [LF; LF] ++ lit "second"))
    = line ++ [LF]
    /\ includes LF line = false /\ line <> [].
Proof.
  apply compact_line_is_one_line; reflexivity.
Defined.

(** X8.  The compact text handed to the display never holds two newlines
    in a row either, keeps every character of the assembled text that is not
    a newline, and is left unchanged by a second pass. *)
Theorem compact_text_no_blank_line (post : Post)
  (comments : list CommentItem) :
  hasDoubleNewline (renderToon post comments) = false
  /\ withoutNewlines (renderToon post comments)
     = withoutNewlines (toonAssembled post comments)
  /\ collapseNewlines (renderToon post comments) = renderToon post comments
  /\ hasDoubleNewline (toonAssembled post comments) = true.
Proof.
  split; [apply collapseNewlines_no_double |].
  split; [apply (collapse_from_keeps_text (toonAssembled post comments) 0) |].
  split; [apply collapseNewlines_idempotent |].
  rewrite toonAssembled_format. unfold headerLines.
  replace (_ ++ _)
    with ((lit "TITLE: " ++ title post ++ [LF] ++ lit "SUBREDDIT: r/"
             ++ subreddit post ++ [LF] ++ lit "POST_AUTHOR: "
             ++ postAuthorOf post)
            ++ LF :: LF
            :: (lit "POST_BODY:" ++ [SPACE] ++ bodyOrSentinel post
                  ++ [LF; LF] ++ lit "COMMENTS:" ++ [LF]
                  ++ concat (map lineToon comments)))
    by (right_nest; reflexivity).
  apply hasDoubleNewline_inside.
Qed.

(** ** More on the JSON text *)

Lemma jsonObj_parses Number_toString post newStats comments :
  (forall q, isJSONNumber (Number_toString q) = true) ->
  JSON_parse (JSON_stringify Number_toString (jsonObj post newStats comments))
  = Some (reading Number_toString (jsonObj post newStats comments)).
Proof.
  intros H. apply (JSON_parse_stringify _ H). reflexivity.
Qed.

Lemma jsonObj_comments Number_toString post newStats comments :
  parsedComments (reading Number_toString (jsonObj post newStats comments))
  = Some (map (fun c => reading Number_toString (commentObj c)) comments).
Proof.
  unfold parsedComments. cbn. now rewrite map_map.
Qed.

(** X9.  Whatever the scores, the JSON text [fetchThread] stores parses; the
    parsed object gives back the title, the subreddit, the author display
    string and the trimmed body exactly, whatever characters they hold, and
    its [comments] array has one element per comment node of the payload. *)
Theorem json_text_always_parses (Number_toString : Q -> jsstring)
  (post : Post) (commentsRaw : list Item) :
  (forall q, isJSONNumber (Number_toString q) = true) ->
  parsedPropertyOfText (lit "title")
    (json (snd (buildOutputs Number_toString post commentsRaw)))
  = Some (JString (title post))
  /\ parsedPropertyOfText (lit "subreddit")
       (json (snd (buildOutputs Number_toString post commentsRaw)))
     = Some (JString (subreddit post))
  /\ parsedPropertyOfText (lit "postAuthor")
       (json (snd (buildOutputs Number_toString post commentsRaw)))
     = Some (JString (postAuthorOf post))
  /\ parsedPropertyOfText (lit "body")
       (json (snd (buildOutputs Number_toString post commentsRaw)))
     = Some (JString (bodyOf post))
  /\ exists items,
      parsedCommentsOfText
        (json (snd (buildOutputs Number_toString post commentsRaw)))
      = Some items
      /\ length items = list_sum (map countComments commentsRaw).
Proof.
  intros H. unfold parsedPropertyOfText, parsedCommentsOfText, buildOutputs.
  cbn [snd json]. rewrite (jsonObj_parses _ _ _ _ H).
  repeat (split; [reflexivity |]).
  rewrite jsonObj_comments. eexists. split; [reflexivity |].
  rewrite length_map.
  rewrite <- (Permutation_length
                (Array_sort_perm byScore (walkComments commentsRaw 0 []))).
  rewrite walkComments_flatten. cbn [app]. unfold flatten.
  apply length_flat_map_sum. apply Forall_forall. intros i _.
  apply flattenItem_length.
Qed.

(** The sample forest under the sample post, quotients written as ["0"]. *)
Lemma json_text_always_parses_witness :
  parsedPropertyOfText (lit "title")
    (json (snd (buildOutputs (fun _ => lit "0") helloPost sampleForest)))
  = Some (JString (lit "Hello")).
Proof.
  refine (proj1 (json_text_always_parses (fun _ => lit "0") helloPost
                   sampleForest _)).
  intros q. reflexivity.
Defined.

(** X10.  Whatever the scores, the i-th element of the parsed [comments]
    array is the i-th record: it gives back the record's [id], [author],
    [body] and [parent_id] exactly, whatever characters they hold, and its
    [depth]. *)
Theorem json_keeps_comment_fields (Number_toString : Q -> jsstring)
  (post : Post) (newStats : Stats) (comments : list CommentItem) :
  (forall q, isJSONNumber (Number_toString q) = true) ->
  parsedCommentsOfText
    (JSON_stringify Number_toString (jsonObj post newStats comments))
  = Some (map (fun c => reading Number_toString (commentObj c)) comments)
  /\ forall c,
      property (lit "id") (reading Number_toString (commentObj c))
      = Some (JString (id c))
      /\ property (lit "author") (reading Number_toString (commentObj c))
         = Some (JString (author c))
      /\ property (lit "body") (reading Number_toString (commentObj c))
         = Some (JString (body c))
      /\ property (lit "parent_id") (reading Number_toString (commentObj c))
         = Some (JString (parent_id c))
      /\ integerProperty (lit "depth")
           (reading Number_toString (commentObj c))
         = Some (Z.of_nat (depth c)).
Proof.
  intros H. split.
  - unfold parsedCommentsOfText. rewrite (jsonObj_parses _ _ _ _ H).
    apply jsonObj_comments.
  - intros c. unfold commentObj.
    destruct (score c) as [z | |]; repeat (split; [reflexivity |]);
      change (integerOfText (intToString (Z.of_nat (depth c)))
              = Some (Z.of_nat (depth c)));
      apply integerOfText_intToString.
Qed.

(** Two comments, the first with a quote, a newline and a lone surrogate in
    its body. *)
Lemma json_keeps_comment_fields_witness :
  parsedCommentsOfText
    (JSON_stringify (fun _ => lit "0")
       (jsonObj helloPost (computeStats helloPost [])
          [sampleComment "c1" 5 (lit "top" ++ [QUOTE; LF; 55357%N]);
           sampleComment "c2" (-1) (lit "meh")]))
  = Some
      (map (fun c => reading (fun _ => lit "0") (commentObj c))
         [sampleComment "c1" 5 (lit "top" ++ [QUOTE; LF; 55357%N]);
          sampleComment "c2" (-1) (lit "meh")]).
Proof.
  refine (proj1 (json_keeps_comment_fields (fun _ => lit "0") helloPost
                   _ _ _)).
  intros q. reflexivity.
Defined.

(** X11.  The [score] of a record goes into the JSON text as it is:
    whatever the other scores, parsing the text gives at the record's place
    in the [comments] array an element whose [score] is that integer when
    the score is an integer, [null] when it is [null], and which has no
    [score] member at all when the score is missing. *)
Theorem json_score_as_is (Number_toString : Q -> jsstring)
  (post : Post) (newStats : Stats) (comments : list CommentItem)
  (i : nat) (c : CommentItem) :
  (forall q, isJSONNumber (Number_toString q) = true) ->
  nth_error comments i = Some c ->
  exists elements element,
    parsedCommentsOfText
      (JSON_stringify Number_toString (jsonObj post newStats comments))
    = Some elements
    /\ length elements = length comments
    /\ nth_error elements i = Some element
    /\ match score c with
       | ScoreNum z =>
           property (lit "score") element
           = Some (JNumber (intToString z))
           /\ integerProperty (lit "score") element = Some z
       | ScoreNull => property (lit "score") element = Some JNull
       | ScoreUndefined => property (lit "score") element = None
       end.
Proof.
  intros H Hc.
  exists (map (fun c => reading Number_toString (commentObj c)) comments),
    (reading Number_toString (commentObj c)).
  split; [| split; [apply length_map | split]].
  - unfold parsedCommentsOfText. rewrite (jsonObj_parses _ _ _ _ H).
    apply jsonObj_comments.
  - now rewrite nth_error_map, Hc.
  - unfold commentObj. destruct (score c) as [z | |]; try reflexivity.
    split; [reflexivity |].
    change (integerOfText (intToString z) = Some z).
    apply integerOfText_intToString.
Qed.

(** Three comments with the scores 5, [null] and none: the third element
    of the parsed array has no [score]. *)
Lemma json_score_as_is_witness :
  exists elements element,
    parsedCommentsOfText
      (JSON_stringify (fun _ => lit "0")
         (jsonObj helloPost (computeStats helloPost [])
            [sampleComment "c1" 5 (lit "top");
             mkComment (lit "c2") (lit "bob") ScoreNull (lit "meh")
               (lit "t3_post") 0;
             mkComment (lit "c3") (lit "eve") ScoreUndefined (lit "gone")
               (lit "t1_c2") 1]))
    = Some elements
    /\ length elements = 3%nat
    /\ nth_error elements 2 = Some element
    /\ property (lit "score") element = None.
Proof.
  exact (json_score_as_is (fun _ => lit "0") helloPost
           (computeStats helloPost [])
           [sampleComment "c1" 5 (lit "top");
            mkComment (lit "c2") (lit "bob") ScoreNull (lit "meh")
              (lit "t3_post") 0;
            mkComment (lit "c3") (lit "eve") ScoreUndefined (lit "gone")
              (lit "t1_c2") 1]
           2
           (mkComment (lit "c3") (lit "eve") ScoreUndefined (lit "gone")
              (lit "t1_c2") 1)
           (fun q => eq_refl) eq_refl).
Defined.

(** X12.  The parsed [stats] member gives back the three integer statistics
    and, for the two quotients, the number text the platform printed. *)
Theorem json_keeps_stats (Number_toString : Q -> jsstring)
  (post : Post) (newStats : Stats) (comments : list CommentItem) :
  (forall q, isJSONNumber (Number_toString q) = true) ->
  parsedPropertyOfText (lit "stats")
    (JSON_stringify Number_toString (jsonObj post newStats comments))
  = Some (reading Number_toString (statsObj newStats))
  /\ integerProperty (lit "postScore")
       (reading Number_toString (statsObj newStats))
     = Some (postScore newStats)
  /\ integerProperty (lit "totalComments")
       (reading Number_toString (statsObj newStats))
     = Some (Z.of_nat (totalComments newStats))
  /\ integerProperty (lit "totalCommentScore")
       (reading Number_toString (statsObj newStats))
     = Some (totalCommentScore newStats)
  /\ property (lit "avgCommentScore")
       (reading Number_toString (statsObj newStats))
     = Some (JNumber (Number_toString (avgCommentScore newStats)))
  /\ property (lit "commentsPerScorePoint")
       (reading Number_toString (statsObj newStats))
     = Some (JNumber (Number_toString (commentsPerScorePoint newStats))).
Proof.
  intros H. split.
  - unfold parsedPropertyOfText. rewrite (jsonObj_parses _ _ _ _ H).
    reflexivity.
  - repeat split; try reflexivity.
    + change (integerOfText (intToString (postScore newStats))
              = Some (postScore newStats)).
      apply integerOfText_intToString.
    + change (integerOfText (intToString (Z.of_nat (totalComments newStats)))
              = Some (Z.of_nat (totalComments newStats))).
      apply integerOfText_intToString.
    + change (integerOfText (intToString (totalCommentScore newStats))
              = Some (totalCommentScore newStats)).
      apply integerOfText_intToString.
Qed.

(** The stats of the scenario. *)
Lemma json_keeps_stats_witness :
  integerProperty (lit "totalCommentScore")
    (reading (fun _ => lit "0")
       (statsObj
          (computeStats helloPost
             [sampleComment "c1" 5 (lit "top");
              sampleComment "c2" (-1) (lit "meh")])))
  = Some 4%Z.
Proof.
  refine (proj1 (proj2 (proj2 (proj2
            (json_keeps_stats (fun _ => lit "0") helloPost
               (computeStats helloPost
                  [sampleComment "c1" 5 (lit "top");
                   sampleComment "c2" (-1) (lit "meh")]) [] _))))).
  intros q. reflexivity.
Defined.

(** ** The life of a fetch *)

Section FetchFacts.

Variable URL_pathname : jsstring -> option jsstring.
Variable Number_toString : Q -> jsstring.
Variable network : jsstring -> Response.

Lemma collapse_from_pending_nonempty t :
  forall k, replaceRunsFrom (N.eqb LF) 2 [LF] (repeat LF (S k)) t <> [].
Proof.
  induction t as [| x t IH]; intros k; cbn [replaceRunsFrom].
  - rewrite (flush_newlines (S k)). discriminate.
  - destruct (N.eqb_spec LF x) as [<- | Hne].
    + rewrite repeat_snoc. apply IH.
    + rewrite (flush_newlines (S k)). discriminate.
Qed.

Lemma collapseNewlines_nonempty c s : collapseNewlines (c :: s) <> [].
Proof.
  unfold collapseNewlines, replaceRuns. cbn [replaceRunsFrom].
  destruct (N.eqb_spec LF c) as [<- | Hne].
  - apply (collapse_from_pending_nonempty s 0).
  - discriminate.
Qed.

Lemma renderLLM_nonempty post comments : renderLLM post comments <> [].
Proof.
  unfold renderLLM. rewrite llmAssembled_format. unfold headerLines.
  change (lit "TITLE: ") with (84%N :: lit "ITLE: "). cbn [app].
  apply collapseNewlines_nonempty.
Qed.

Lemma renderToon_nonempty post comments : renderToon post comments <> [].
Proof.
  unfold renderToon. rewrite toonAssembled_format. unfold headerLines.
  change (lit "TITLE: ") with (84%N :: lit "ITLE: "). cbn [app].
  apply collapseNewlines_nonempty.
Qed.

Lemma jsonText_nonempty post newStats comments :
  JSON_stringify Number_toString (jsonObj post newStats comments) <> [].
Proof.
  rewrite JSON_stringify_textOf by reflexivity. unfold jsonObj.
  rewrite textOf_object. cbn [present filter snd isDefined].
  change (lit "{") with [123%N]. discriminate.
Qed.

Lemma buildOutputs_nonempty post commentsRaw :
  txt (snd (buildOutputs Number_toString post commentsRaw)) <> []
  /\ toon (snd (buildOutputs Number_toString post commentsRaw)) <> []
  /\ json (snd (buildOutputs Number_toString post commentsRaw)) <> [].
Proof.
  unfold buildOutputs. cbn [snd txt toon json].
  split; [apply renderLLM_nonempty |].
  split; [apply renderToon_nonempty | apply jsonText_nonempty].
Qed.

End FetchFacts.

(** X13.  A fetch starts from a clean slate and always comes to an end: its
    result depends on the state it starts from through the input text only,
    so nothing shown before survives into it; it leaves [loading] off and
    the input text as it was; and it sends at most one request. *)
Theorem fetch_starts_clean
  (URL_pathname : jsstring -> option jsstring)
  (Number_toString : Q -> jsstring) (network : jsstring -> Response)
  (st st' : AppState) (raw : jsstring) :
  (input st = input st' ->
   fetchThread URL_pathname Number_toString network st raw
   = fetchThread URL_pathname Number_toString network st' raw)
  /\ loading (fst (fetchThread URL_pathname Number_toString network st raw))
     = false
  /\ input (fst (fetchThread URL_pathname Number_toString network st raw))
     = input st
  /\ length (snd (fetchThread URL_pathname Number_toString network st raw))
     <= 1.
Proof.
  unfold fetchThread.
  destruct (normalizeToPostId URL_pathname raw) as [[| c s] |];
    try (repeat split; [now intros -> | cbn; lia]).
  destruct (network (requestURL (c :: s)))
    as [| [|] [[post commentsRaw] |] | post commentsRaw];
    repeat split; try (now intros ->); cbn; lia.
Qed.

(** A second fetch after a first one that succeeded. *)
Lemma fetch_starts_clean_witness :
  fetchThread URLFragment.pathname (fun _ => lit "0") alwaysHello
    (fst (fetchThread URLFragment.pathname (fun _ => lit "0") alwaysHello
            initialState (lit "abc123")))
    (lit "not a url")
  = fetchThread URLFragment.pathname (fun _ => lit "0") alwaysHello
      initialState (lit "not a url").
Proof.
  apply (proj1 (fetch_starts_clean URLFragment.pathname (fun _ => lit "0")
                  alwaysHello _ initialState (lit "not a url"))).
  reflexivity.
Defined.

(** X14.  A fetch ends in one of three ways.  It succeeded: the error is
    empty; the stats, the title and the subreddit are those of the payload
    the network answered for the normalized identifier; the three texts are
    rendered from one rearrangement of the walk's output, the one the stats
    are computed from; and none of the three texts is empty.  Or it failed
    before anything was set: the error is one of the three messages and
    there are no stats, no title, no subreddit and no text.  Or it failed
    while rendering: the error is the network message and there is no text,
    but the stats, the title and the subreddit of the payload stay set. *)
Theorem fetch_outcomes
  (URL_pathname : jsstring -> option jsstring)
  (Number_toString : Q -> jsstring) (network : jsstring -> Response)
  (st : AppState) (raw : jsstring) :
  (error (fst (fetchThread URL_pathname Number_toString network st raw)) = []
   /\ exists identifier post commentsRaw comments,
       normalizeToPostId URL_pathname raw = Some identifier
       /\ network (requestURL identifier)
          = Answer true (Some (post, commentsRaw))
       /\ Permutation (walkComments commentsRaw 0 []) comments
       /\ stats (fst (fetchThread URL_pathname Number_toString network st raw))
          = Some (computeStats post comments)
       /\ computeStats post comments
          = computeStats post (walkComments commentsRaw 0 [])
       /\ outputs
            (fst (fetchThread URL_pathname Number_toString network st raw))
          = {| txt := renderLLM post comments;
               toon := renderToon post comments;
               json := JSON_stringify Number_toString
                         (jsonObj post (computeStats post comments)
                            comments) |}
       /\ metaTitle
            (fst (fetchThread URL_pathname Number_toString network st raw))
          = Some (title post)
       /\ metaSubreddit
            (fst (fetchThread URL_pathname Number_toString network st raw))
          = Some (subreddit post)
       /\ renderLLM post comments <> []
       /\ renderToon post comments <> []
       /\ JSON_stringify Number_toString
            (jsonObj post (computeStats post comments) comments) <> [])
  \/ (In (error (fst (fetchThread URL_pathname Number_toString network st raw)))
        fetchErrors
      /\ stats (fst (fetchThread URL_pathname Number_toString network st raw))
         = None
      /\ metaTitle
           (fst (fetchThread URL_pathname Number_toString network st raw))
         = None
      /\ metaSubreddit
           (fst (fetchThread URL_pathname Number_toString network st raw))
         = None
      /\ outputs
           (fst (fetchThread URL_pathname Number_toString network st raw))
         = noOutputs)
  \/ (error (fst (fetchThread URL_pathname Number_toString network st raw))
      = lit "Network error."
      /\ exists identifier post commentsRaw,
          normalizeToPostId URL_pathname raw = Some identifier
          /\ network (requestURL identifier) = Unrenderable post commentsRaw
          /\ stats
               (fst (fetchThread URL_pathname Number_toString network st raw))
             = Some (computeStats post (walkComments commentsRaw 0 []))
          /\ metaTitle
               (fst (fetchThread URL_pathname Number_toString network st raw))
             = Some (title post)
          /\ metaSubreddit
               (fst (fetchThread URL_pathname Number_toString network st raw))
             = Some (subreddit post)
          /\ outputs
               (fst (fetchThread URL_pathname Number_toString network st raw))
             = noOutputs).
Proof.
  unfold fetchThread, fetchErrors.
  destruct (normalizeToPostId URL_pathname raw) as [[| c s] |] eqn:En;
    try (right; left; cbn; tauto).
  destruct (network (requestURL (c :: s)))
    as [| [|] [[post commentsRaw] |] | post commentsRaw] eqn:Ea;
    try (right; left; cbn; tauto).
  - left. split; [reflexivity |].
    exists (c :: s), post, commentsRaw,
      (Array_sort byScore (walkComments commentsRaw 0 [])).
    rewrite Ea.
    split; [reflexivity | split; [reflexivity | split]];
      [apply Array_sort_perm |].
    split; [reflexivity | split].
    { symmetry. apply computeStats_perm. apply Array_sort_perm. }
    split; [reflexivity | split; [reflexivity | split; [reflexivity |]]].
    split; [apply renderLLM_nonempty |].
    split; [apply renderToon_nonempty | apply jsonText_nonempty].
  - right. right. split; [reflexivity |].
    exists (c :: s), post, commentsRaw. rewrite Ea.
    split; [reflexivity | split; [reflexivity | split]].
    { cbn [fst stats]. f_equal. unfold statsBeforeRender.
      symmetry. apply computeStats_perm. apply Array_sort_perm. }
    repeat split.
Qed.

(** X15.  A request goes out exactly when the normalizer returns a non-empty
    identifier, whatever the network would answer and whatever the state;
    it is the one URL [https://www.reddit.com/comments/<id>.json?raw_json=1],
    and the identifier in it holds no [/]. *)
Theorem fetch_requests_one_thread
  (URL_pathname : jsstring -> option jsstring)
  (Number_toString : Q -> jsstring) (network : jsstring -> Response)
  (st : AppState) (raw : jsstring) :
  (snd (fetchThread URL_pathname Number_toString network st raw) = []
   /\ (normalizeToPostId URL_pathname raw = None
       \/ normalizeToPostId URL_pathname raw = Some []))
  \/ exists identifier,
      normalizeToPostId URL_pathname raw = Some identifier
      /\ identifier <> []
      /\ ~ In SLASH identifier
      /\ snd (fetchThread URL_pathname Number_toString network st raw)
         = [lit "https://www.reddit.com/comments/" ++ identifier
              ++ lit ".json?raw_json=1"].
Proof.
  unfold fetchThread.
  destruct (normalizeToPostId URL_pathname raw) as [[| c s] |] eqn:En.
  - left. split; [reflexivity | now right].
  - right. exists (c :: s).
    split; [reflexivity | split; [discriminate | split]].
    + unfold normalizeToPostId in En. cbn zeta in En.
      destruct (negb (includes SLASH (trim raw))
                && negb (includes SPACE (trim raw))) eqn:E.
      * injection En as En. rewrite <- En.
        apply andb_prop in E. destruct E as [E _].
        apply negb_true_iff in E. now apply includes_false_iff.
      * destruct (URL_pathname (trim raw)) as [pathname |]; [| discriminate].
        rewrite idFromPathname_afterComments in En.
        apply afterComments_In in En. unfold segments in En.
        apply filter_In in En. destruct En as [En _].
        exact (proj1 (Forall_forall _ _)
                 (split_segments_no_separator SLASH pathname) _ En).
    + destruct (network (requestURL (c :: s)))
        as [| [|] [[post commentsRaw] |] | post commentsRaw]; reflexivity.
  - left. split; [reflexivity | now left].
Qed.

(** ** The final texts, line by line *)

Lemma last_cons_nonempty (x : jsstring) c d :
  x <> [] -> last (c :: x) d = last x d.
Proof.
  destruct x; [intros H; now elim H | reflexivity].
Qed.

Lemma collapse_after_text x :
  forall pending z,
    x <> [] -> last x LF <> LF ->
    replaceRunsFrom (N.eqb LF) 2 [LF] pending (x ++ z)
    = replaceRunsFrom (N.eqb LF) 2 [LF] pending x
      ++ replaceRunsFrom (N.eqb LF) 2 [LF] [] z.
Proof.
  induction x as [| c x IH]; intros pending z Hne Hlast;
    [now elim Hne |].
  assert (x = [] \/ x <> []) as [-> | Hx]
    by (destruct x; [now left | right; discriminate]).
  - cbn [last] in Hlast. cbn [app replaceRunsFrom].
    destruct (N.eqb_spec LF c) as [E | _]; [now elim Hlast |].
    rewrite <- app_assoc. reflexivity.
  - rewrite (last_cons_nonempty x c LF Hx) in Hlast.
    cbn [app replaceRunsFrom]. destruct (LF =? c)%N.
    + apply (IH (pending ++ [c]) z Hx Hlast).
    + rewrite (IH [] z Hx Hlast). rewrite <- app_assoc. reflexivity.
Qed.

Lemma collapse_run_then n y :
  startsWithNewline y = false ->
  replaceRunsFrom (N.eqb LF) 2 [LF] [] (repeat LF (S n) ++ y)
  = LF :: replaceRunsFrom (N.eqb LF) 2 [LF] [] y.
Proof.
  intros H. pose proof (collapse_from_absorb (S n) y 0) as Ha.
  cbn [repeat Nat.add] in Ha |- *. rewrite Ha.
  change (LF :: repeat LF n) with (repeat LF (S n)).
  destruct y as [| c y'].
  - cbn [replaceRunsFrom]. apply (flush_newlines (S n)).
  - cbn [startsWithNewline] in H. cbn [replaceRunsFrom].
    rewrite N.eqb_sym, H. rewrite (flush_newlines (S n)). reflexivity.
Qed.

Lemma concat_pieces_start ps :
  Forall (fun p => newlineFreeEdges (fst p)) ps ->
  startsWithNewline (concat (map writePiece ps)) = false.
Proof.
  destruct 1 as [| [x n] ps (Hne & Hhd & _) _]; [reflexivity |].
  cbn [map concat]. unfold writePiece. cbn [fst snd].
  destruct x as [| c x']; [now elim Hne |]. cbn in Hhd |- *.
  now apply N.eqb_neq.
Qed.

(** The newline pass, piece by piece. *)
Lemma collapse_pieces ps :
  Forall (fun p => newlineFreeEdges (fst p)) ps ->
  collapseNewlines (concat (map writePiece ps)) = concat (map readPiece ps).
Proof.
  induction 1 as [| [x n] ps (Hne & Hhd & Hlast) Hps IH]; [reflexivity |].
  cbn [map concat]. unfold writePiece at 1, readPiece at 1. cbn [fst snd].
  unfold collapseNewlines, replaceRuns in *.
  rewrite <- !app_assoc.
  rewrite (collapse_after_text x [] _ Hne Hlast).
  rewrite (collapse_run_then n _ (concat_pieces_start ps Hps)).
  rewrite IH. reflexivity.
Qed.

Lemma no_newline_no_double x :
  includes LF x = false -> hasDoubleNewline x = false.
Proof.
  induction x as [| c x IH]; [reflexivity |]. unfold includes. cbn [existsb].
  intros H. apply orb_false_elim in H. destruct H as [Hc Hx].
  rewrite N.eqb_sym in Hc.
  rewrite (hasDoubleNewline_cons_other c x Hc). now apply IH.
Qed.

Lemma collapse_no_newline x :
  includes LF x = false -> collapseNewlines x = x.
Proof.
  intros H. apply collapseNewlines_fixed. now apply no_newline_no_double.
Qed.

Lemma last_default_irrelevant (x : jsstring) c d e :
  last (c :: x) d = last (c :: x) e.
Proof.
  revert c. induction x as [| y x IH]; intros c; [reflexivity |].
  exact (IH y).
Qed.

Lemma no_newline_edges x :
  x <> [] -> includes LF x = false -> newlineFreeEdges x.
Proof.
  intros Hne H. apply includes_false_iff in H.
  destruct x as [| c x']; [now elim Hne |].
  split; [discriminate | split].
  - cbn. intros E. apply H. now left.
  - intros E. apply H. rewrite <- E. apply (@exists_last _ (c :: x')) in Hne.
    destruct Hne as (l & a & El). rewrite El, last_last.
    apply in_or_app. right. now left.
Qed.

Lemma text_edges prefix x :
  Boolean prefix = true -> includes LF prefix = false ->
  includes LF x = false -> newlineFreeEdges (prefix ++ x).
Proof.
  intros Hb Hp Hx. apply no_newline_edges.
  - destruct prefix; [discriminate Hb | discriminate].
  - now rewrite includes_app, Hp, Hx.
Qed.

Lemma plain_edges x :
  Boolean x = true -> includes LF x = false -> newlineFreeEdges x.
Proof.
  intros Hb Hx. apply no_newline_edges; [| exact Hx].
  destruct x; [discriminate Hb | discriminate].
Qed.

Lemma trimmed_edges x :
  x <> [] -> trimmedEnds x -> newlineFreeEdges x.
Proof.
  intros Hne H. destruct x as [| c x']; [now elim Hne |].
  destruct H as [Hh Hl]. split; [discriminate | split].
  - cbn. intros ->. discriminate Hh.
  - rewrite (last_default_irrelevant x' c LF c). intros E.
    rewrite E in Hl. discriminate Hl.
Qed.

Lemma bodyOrSentinel_edges post : newlineFreeEdges (bodyOrSentinel post).
Proof.
  unfold bodyOrSentinel, bodyOf.
  pose proof (trim_trimmedEnds (orElse (selftext post) [])) as H.
  destruct (trim (orElse (selftext post) [])) as [| c s].
  - apply no_newline_edges; [discriminate | reflexivity].
  - apply trimmed_edges; [discriminate | exact H].
Qed.

Lemma natToString_no_newline n : includes LF (natToString n) = false.
Proof.
  apply uintUnits_no_newline.
Qed.

Lemma llmPieces_written c :
  blockLLM c = concat (map writePiece (llmPieces c)).
Proof.
  unfold blockLLM, llmPieces. destruct (trim (body c)) as [| x b];
    [reflexivity |].
  cbn [map concat]. unfold writePiece. cbn [fst snd repeat].
  change (lit "] u/") with (lit "]" ++ lit " u/").
  right_nest. reflexivity.
Qed.

Lemma llmPieces_read c :
  includes LF (author c) = false ->
  finalBlockLLM c = concat (map readPiece (llmPieces c))
  /\ Forall (fun p => newlineFreeEdges (fst p)) (llmPieces c).
Proof.
  intros Ha. unfold finalBlockLLM, llmPieces.
  pose proof (trim_trimmedEnds (body c)) as Ht.
  destruct (trim (body c)) as [| x b]; [split; [reflexivity | constructor] |].
  assert (includes LF (lit "[d" ++ natToString (depth c) ++ lit "] u/"
                         ++ author c) = false) as Hh.
  { rewrite !includes_app, natToString_no_newline, Ha. reflexivity. }
  split.
  - cbn [map concat]. unfold readPiece. cbn [fst snd].
    rewrite (collapse_no_newline _ Hh). right_nest. reflexivity.
  - constructor; [| constructor; [| constructor]]; cbn [fst].
    + apply no_newline_edges; [| exact Hh].
      change (lit "[d") with [91%N; 100%N]. discriminate.
    + apply trimmed_edges; [discriminate | exact Ht].
Qed.

Lemma concat_flat_map_pieces (A : Type) (f : A -> list (jsstring * nat))
  (g : jsstring * nat -> jsstring) l :
  concat (map g (flat_map f l)) = concat (map (fun a => concat (map g (f a))) l).
Proof.
  induction l as [| a l IH]; [reflexivity |].
  cbn [flat_map map concat]. now rewrite map_app, concat_app, IH.
Qed.

Lemma authorsOnOneLine_forall comments :
  authorsOnOneLine comments = true ->
  Forall (fun c => includes LF (author c) = false) comments.
Proof.
  intros H. apply Forall_forall. intros c Hc.
  unfold authorsOnOneLine in H.
  apply negb_true_iff. exact (proj1 (forallb_forall _ _) H c Hc).
Qed.

(** X17.  When the title, the subreddit, the author display string and the
    comment authors hold no newline, the LLM text handed to the display is,
    line by line: the three header lines, [POST_BODY:], the trimmed
    self-text or ["(no body)"] without its blank lines, [COMMENTS:], the
    two legend lines, then per comment with a non-blank body the line
    ["[d<depth>] u/<author>"] and the trimmed body without its blank lines;
    every piece ends with exactly one newline. *)
Theorem llm_text_final_lines (post : Post) (comments : list CommentItem) :
  includes LF (title post) = false ->
  includes LF (subreddit post) = false ->
  includes LF (postAuthorOf post) = false ->
  authorsOnOneLine comments = true ->
  renderLLM post comments =
  lit "TITLE: " ++ title post ++ [LF]
  ++ lit "SUBREDDIT: r/" ++ subreddit post ++ [LF]
  ++ lit "POST_AUTHOR: " ++ postAuthorOf post ++ [LF]
  ++ lit "POST_BODY:" ++ [LF]
  ++ collapseNewlines (bodyOrSentinel post) ++ [LF]
  ++ lit "COMMENTS:" ++ [LF]
  ++ lit "# [dX] u/author" ++ [LF] ++ lit "# comment text" ++ [LF]
  ++ concat (map finalBlockLLM comments).
Proof.
  intros Ht Hs Ha Hc. apply authorsOnOneLine_forall in Hc.
  set (head :=
         [ (lit "TITLE: " ++ title post, 0);
           (lit "SUBREDDIT: r/" ++ subreddit post, 0);
           (lit "POST_AUTHOR: " ++ postAuthorOf post, 1);
           (lit "POST_BODY:", 0); (bodyOrSentinel post, 1);
           (lit "COMMENTS:", 0); (lit "# [dX] u/author", 0);
           (lit "# comment text", 1) ]).
  assert (llmAssembled post comments
          = concat (map writePiece (head ++ flat_map llmPieces comments)))
    as Ew.
  { rewrite llmAssembled_format, map_app, concat_app.
    rewrite concat_flat_map_pieces.
    rewrite <- (map_ext _ _ llmPieces_written).
    unfold head, headerLines, legend. cbn [map concat].
    unfold writePiece. cbn [fst snd repeat]. right_nest. reflexivity. }
  assert (Forall (fun p => newlineFreeEdges (fst p))
            (head ++ flat_map llmPieces comments)) as He.
  { apply Forall_app. split.
    - unfold head.
      repeat (apply Forall_cons; [cbn [fst] |]); try apply Forall_nil;
        try (apply text_edges; [reflexivity | reflexivity | assumption]);
        try (apply plain_edges; reflexivity).
      apply bodyOrSentinel_edges.
    - apply Forall_flat_map. eapply Forall_impl; [| exact Hc].
      intros c H. apply (proj2 (llmPieces_read c H)). }
  unfold renderLLM. rewrite Ew, (collapse_pieces _ He).
  rewrite map_app, concat_app, concat_flat_map_pieces.
  replace (map (fun a => concat (map readPiece (llmPieces a))) comments)
    with (map finalBlockLLM comments).
  - unfold head. cbn [map concat]. unfold readPiece. cbn [fst snd].
    rewrite !collapse_no_newline
      by (rewrite ?includes_app, ?Ht, ?Hs, ?Ha; reflexivity).
    right_nest. reflexivity.
  - apply map_ext_in. intros c Hin.
    apply (proj1 (llmPieces_read c
                    (proj1 (Forall_forall _ _) Hc c Hin))).
Qed.

Lemma last_app_nonempty (a b : jsstring) d :
  b <> [] -> last (a ++ b) d = last b d.
Proof.
  intros Hb. induction a as [| x a IH]; [reflexivity |].
  cbn [app]. rewrite last_cons_nonempty; [exact IH |].
  destruct a; [exact Hb | discriminate].
Qed.

Lemma prefixed_edges prefix x :
  Boolean prefix = true -> startsWithNewline prefix = false ->
  newlineFreeEdges x -> newlineFreeEdges (prefix ++ x).
Proof.
  intros Hb Hs (Hne & _ & Hl).
  destruct prefix as [| c p]; [discriminate Hb |].
  split; [discriminate | split].
  - cbn in Hs |- *. now apply N.eqb_neq.
  - now rewrite last_app_nonempty.
Qed.

Lemma collapse_prefixed prefix x :
  Boolean prefix = true -> includes LF prefix = false ->
  collapseNewlines (prefix ++ x) = prefix ++ collapseNewlines x.
Proof.
  intros Hb Hp. unfold collapseNewlines, replaceRuns.
  rewrite collapse_after_text.
  - f_equal. apply (collapse_no_newline prefix Hp).
  - destruct prefix; [discriminate Hb | discriminate].
  - destruct (no_newline_edges prefix) as (_ & _ & Hl); try assumption.
    destruct prefix; [discriminate Hb | discriminate].
Qed.

Lemma toonPieces_written c :
  lineToon c = concat (map writePiece (toonPieces c)).
Proof.
  unfold lineToon, toonPieces. destruct (oneLine (body c)) as [| x b];
    [reflexivity |].
  cbn [map concat]. unfold writePiece. cbn [fst snd repeat].
  change (lit ": ") with (lit ":" ++ [SPACE]).
  right_nest. reflexivity.
Qed.

Lemma toonPieces_read c :
  includes LF (author c) = false ->
  lineToon c = concat (map readPiece (toonPieces c))
  /\ Forall (fun p => newlineFreeEdges (fst p)) (toonPieces c).
Proof.
  intros Ha. unfold lineToon, toonPieces.
  pose proof (oneLine_includes_no_newline (body c)) as Hl.
  destruct (oneLine (body c)) as [| x b]; [split; [reflexivity | constructor] |].
  assert (includes LF (lit "d" ++ natToString (depth c)
                         ++ [SPACE; MIDDLE_DOT; SPACE] ++ lit "u/"
                         ++ author c ++ lit ": " ++ x :: b) = false) as Hh.
  { rewrite !includes_app, natToString_no_newline, Ha, Hl. reflexivity. }
  split.
  - cbn [map concat]. unfold readPiece. cbn [fst snd].
    rewrite (collapse_no_newline _ Hh).
    change (lit ": ") with (lit ":" ++ [SPACE]). right_nest. reflexivity.
  - constructor; [| constructor]. cbn [fst].
    apply no_newline_edges; [| exact Hh].
    change (lit "d") with [100%N]. discriminate.
Qed.

(** X18.  When the title, the subreddit, the author display string and the
    comment authors hold no newline, the compact text handed to the display
    is, line by line: the three header lines, [POST_BODY: ] with the trimmed
    self-text or ["(no body)"] without its blank lines, [COMMENTS:], then
    the line of each comment with a non-blank body, unchanged; every piece
    ends with exactly one newline. *)
Theorem compact_text_final_lines (post : Post)
  (comments : list CommentItem) :
  includes LF (title post) = false ->
  includes LF (subreddit post) = false ->
  includes LF (postAuthorOf post) = false ->
  authorsOnOneLine comments = true ->
  renderToon post comments =
  lit "TITLE: " ++ title post ++ [LF]
  ++ lit "SUBREDDIT: r/" ++ subreddit post ++ [LF]
  ++ lit "POST_AUTHOR: " ++ postAuthorOf post ++ [LF]
  ++ lit "POST_BODY: " ++ collapseNewlines (bodyOrSentinel post) ++ [LF]
  ++ lit "COMMENTS:" ++ [LF]
  ++ concat (map formatCommentToon comments).
Proof.
  intros Ht Hs Ha Hc. apply authorsOnOneLine_forall in Hc.
  set (head :=
         [ (lit "TITLE: " ++ title post, 0);
           (lit "SUBREDDIT: r/" ++ subreddit post, 0);
           (lit "POST_AUTHOR: " ++ postAuthorOf post, 1);
           (lit "POST_BODY: " ++ bodyOrSentinel post, 1);
           (lit "COMMENTS:", 0) ]).
  assert (toonAssembled post comments
          = concat (map writePiece (head ++ flat_map toonPieces comments)))
    as Ew.
  { rewrite toonAssembled_format, map_app, concat_app.
    rewrite concat_flat_map_pieces.
    rewrite <- (map_ext _ _ toonPieces_written).
    unfold head, headerLines. cbn [map concat].
    unfold writePiece. cbn [fst snd repeat].
    change (lit "POST_BODY: ") with (lit "POST_BODY:" ++ [SPACE]).
    right_nest. reflexivity. }
  assert (Forall (fun p => newlineFreeEdges (fst p))
            (head ++ flat_map toonPieces comments)) as He.
  { apply Forall_app. split.
    - unfold head.
      repeat (apply Forall_cons; [cbn [fst] |]); try apply Forall_nil;
        try (apply text_edges; [reflexivity | reflexivity | assumption]);
        try (apply plain_edges; reflexivity).
      apply prefixed_edges; [reflexivity | reflexivity |].
      apply bodyOrSentinel_edges.
    - apply Forall_flat_map. eapply Forall_impl; [| exact Hc].
      intros c H. apply (proj2 (toonPieces_read c H)). }
  unfold renderToon. rewrite Ew, (collapse_pieces _ He).
  rewrite map_app, concat_app, concat_flat_map_pieces.
  replace (map (fun a => concat (map readPiece (toonPieces a))) comments)
    with (map formatCommentToon comments).
  - unfold head. cbn [map concat]. unfold readPiece. cbn [fst snd].
    rewrite (collapse_prefixed (lit "POST_BODY: ") _ eq_refl eq_refl).
    rewrite !collapse_no_newline
      by (rewrite ?includes_app, ?Ht, ?Hs, ?Ha; reflexivity).
    right_nest. reflexivity.
  - apply map_ext_in. intros c Hin. rewrite formatCommentToon_line.
    apply (proj1 (toonPieces_read c
                    (proj1 (Forall_forall _ _) Hc c Hin))).
Qed.

(** The scenario's thread, its second comment in two paragraphs. *)
Lemma compact_text_final_lines_witness :
  renderToon helloPost
    [sampleComment "c1" 5 (lit "top");
     sampleComment "c2" (-1) (lit "so" ++ [LF; LF] ++ lit "so")]
  = lit "TITLE: Hello" ++ [LF] ++ lit "SUBREDDIT: r/test" ++ [LF]
    ++ lit "POST_AUTHOR: [unknown]" ++ [LF]
    ++ lit "POST_BODY: (no body)" ++ [LF] ++ lit "COMMENTS:" ++ [LF]
    ++ lit "d0" ++ [SPACE; MIDDLE_DOT; SPACE] ++ lit "u/bob: top" ++ [LF]
    ++ lit "d0" ++ [SPACE; MIDDLE_DOT; SPACE] ++ lit "u/bob: so so" ++ [LF].
Proof.
  rewrite compact_text_final_lines; reflexivity.
Defined.

(** The scenario's thread, its second comment in two paragraphs. *)
Lemma llm_text_final_lines_witness :
  renderLLM helloPost
    [sampleComment "c1" 5 (lit "top");
     sampleComment "c2" (-1) (lit "so" ++ [LF; LF] ++ lit "so")]
  = lit "TITLE: Hello" ++ [LF] ++ lit "SUBREDDIT: r/test" ++ [LF]
    ++ lit "POST_AUTHOR: [unknown]" ++ [LF]
    ++ lit "POST_BODY:" ++ [LF] ++ lit "(no body)" ++ [LF]
    ++ lit "COMMENTS:" ++ [LF]
    ++ lit "# [dX] u/author" ++ [LF] ++ lit "# comment text" ++ [LF]
    ++ lit "[d0] u/bob" ++ [LF] ++ lit "top" ++ [LF]
    ++ lit "[d0] u/bob" ++ [LF] ++ lit "so" ++ [LF] ++ lit "so" ++ [LF].
Proof.
  rewrite llm_text_final_lines; reflexivity.
Defined.

(** ** What is on screen after a fetch *)

Lemma fetchThread_success URL_pathname Number_toString network st raw
  identifier post commentsRaw :
  normalizeToPostId URL_pathname raw = Some identifier ->
  network (requestURL identifier) = Answer true (Some (post, commentsRaw)) ->
  identifier <> [] ->
  fetchThread URL_pathname Number_toString network st raw
  = ({| input := input st; loading := false; error := [];
        stats := Some (fst (buildOutputs Number_toString post commentsRaw));
        metaTitle := Some (title post);
        metaSubreddit := Some (subreddit post);
        outputs := snd (buildOutputs Number_toString post commentsRaw) |},
     [requestURL identifier]).
Proof.
  intros En Ea Hne. unfold fetchThread. rewrite En.
  destruct identifier as [| c s]; [now elim Hne |].
  rewrite Ea. reflexivity.
Qed.

(** X19.  After a fetch, in every mode the copy button is disabled exactly
    when the error line is shown, so there is a text to copy exactly when
    nothing went wrong.  Without an error the statistics are shown, and
    without statistics no title is shown.  But the error line and the
    statistics can be on screen together: that happens exactly when the
    network answered a thread whose rendering threw, after the statistics
    and the title had been set. *)
Theorem screen_after_fetch
  (URL_pathname : jsstring -> option jsstring)
  (Number_toString : Q -> jsstring) (network : jsstring -> Response)
  (st : AppState) (raw : jsstring) :
  (forall mode,
      copyDisabled mode
        (fst (fetchThread URL_pathname Number_toString network st raw))
      = errorShown
          (fst (fetchThread URL_pathname Number_toString network st raw)))
  /\ (errorShown
        (fst (fetchThread URL_pathname Number_toString network st raw))
      = false ->
      statsShown
        (fst (fetchThread URL_pathname Number_toString network st raw))
      = true)
  /\ (statsShown
        (fst (fetchThread URL_pathname Number_toString network st raw))
      = false ->
      titleShown
        (fst (fetchThread URL_pathname Number_toString network st raw))
      = false)
  /\ (errorShown
        (fst (fetchThread URL_pathname Number_toString network st raw))
      = true
      /\ statsShown
           (fst (fetchThread URL_pathname Number_toString network st raw))
         = true
      <-> exists identifier post commentsRaw,
          normalizeToPostId URL_pathname raw = Some identifier
          /\ identifier <> []
          /\ network (requestURL identifier)
             = Unrenderable post commentsRaw).
Proof.
  destruct (normalizeToPostId URL_pathname raw) as [[| c s] |] eqn:En.
  - unfold fetchThread. rewrite En.
    split; [intros mode; destruct mode; reflexivity |].
    split; [discriminate | split; [reflexivity | split]].
    + intros [_ H]. discriminate H.
    + intros (i & p & r & Hn & Hne & _). injection Hn as <-. now elim Hne.
  - destruct (network (requestURL (c :: s)))
      as [| [|] [[post commentsRaw] |] | post commentsRaw] eqn:Ea.
    1, 3, 4, 5:
      unfold fetchThread; rewrite En, Ea;
      (split; [intros mode; destruct mode; reflexivity |]);
      (split; [discriminate | split; [reflexivity | split]]);
      [ intros [_ H]; discriminate H
      | intros (i & p & r & Hn & _ & Hu); injection Hn as <-;
        rewrite Ea in Hu; discriminate Hu ].
    + rewrite (fetchThread_success URL_pathname Number_toString network st
                 raw (c :: s) post commentsRaw En Ea ltac:(discriminate)).
      pose proof (buildOutputs_nonempty Number_toString post commentsRaw)
        as (H1 & H2 & H3).
      unfold copyDisabled, errorShown, statsShown, titleShown, displayText.
      cbn [fst outputs error stats Boolean negb].
      split; [| split; [reflexivity | split; [discriminate | split]]].
      * intros mode. destruct mode.
        -- destruct (txt (snd (buildOutputs Number_toString post
                                 commentsRaw)));
             [now elim H1 | reflexivity].
        -- destruct (toon (snd (buildOutputs Number_toString post
                                  commentsRaw)));
             [now elim H2 | reflexivity].
        -- destruct (json (snd (buildOutputs Number_toString post
                                  commentsRaw)));
             [now elim H3 | reflexivity].
      * intros [H _]. discriminate H.
      * intros (i & p & r & Hn & _ & Hu). injection Hn as <-.
        rewrite Ea in Hu. discriminate Hu.
    + unfold fetchThread. rewrite En, Ea.
      split; [intros mode; destruct mode; reflexivity |].
      split; [intros H; vm_compute in H; discriminate H |].
      split; [intros H; cbn in H; discriminate H | split].
      * intros _. exists (c :: s), post, commentsRaw.
        split; [reflexivity | split; [discriminate | exact Ea]].
      * intros _. split; reflexivity.
  - unfold fetchThread. rewrite En.
    split; [intros mode; destruct mode; reflexivity |].
    split; [discriminate | split; [reflexivity | split]].
    + intros [_ H]. discriminate H.
    + intros (i & p & r & Hn & _). discriminate Hn.
Qed.

(** The scenario thread with a number as its self-text: the error line and
    the statistics are shown together. *)
Lemma screen_after_fetch_witness :
  errorShown
    (fst (fetchThread URLFragment.pathname (fun _ => lit "0")
            (fun _ => Unrenderable helloPost []) initialState
            (lit "abc123")))
  = true
  /\ statsShown
       (fst (fetchThread URLFragment.pathname (fun _ => lit "0")
               (fun _ => Unrenderable helloPost []) initialState
               (lit "abc123")))
     = true.
Proof.
  apply (proj2 (proj2 (proj2 (proj2
           (screen_after_fetch URLFragment.pathname (fun _ => lit "0")
              (fun _ => Unrenderable helloPost []) initialState
              (lit "abc123")))))).
  exists (lit "abc123"), helloPost, [].
  split; [reflexivity | split; [discriminate | reflexivity]].
Defined.
